(** * NestFit: model selection, chunked store and aggregation

    A shallow embedding of the orchestration code of [nestfit/main.py]
    (and of the older [nestfit/core.py] where the two differ): the
    strided work partition, the per-pixel fitting loop with its
    evidence-threshold stopping rule, the HDF5 store made of chunk files
    linked into one table file, the attribute aggregation and the
    re-selection of the model order on smoothed evidence maps.

    The nested sampler, the spectral model and the FFT convolution are
    external collaborators; they enter as oracles. *)

From Stdlib Require Import QArith Qabs.
From stdpp Require Import gmap strings list fin_maps pretty.
From Stdlib Require Import Lqa.

Local Open Scope nat_scope.

(** ** Strided slices and [np.indices] *)

Module Numpy.

(** [every step wait l]: skip [wait] items, take one, then take each
    [step]-th item after it.  [slice_step i step l] is Python's
    [l[i::step]] for [step >= 1]. *)
Fixpoint every {A} (step wait : nat) (l : list A) : list A :=
  match l with
  | [] => []
  | x :: l' =>
      match wait with
      | 0 => x :: every step (step - 1) l'
      | S w => every step w l'
      end
  end.

Definition slice_step {A} (i step : nat) (l : list A) : list A :=
  every step i l.

(** [np.indices((n0, n1))]: two [n0 x n1] arrays, the first holding the
    row number of each cell, the second its column number. *)
Definition indices (shape : nat * nat) : list (list nat) * list (list nat) :=
  let '(n0, n1) := shape in
  (map (fun i => replicate n1 i) (seq 0 n0),
   map (fun _ => seq 0 n1) (seq 0 n0)).

(** [a.flatten()] of a 2-D array, row-major. *)
Definition flatten {A} (a : list (list A)) : list A := concat a.

End Numpy.

(** [get_multiproc_indices(shape, nproc)] (main.py 458-464, and the same
    text in core.py 460-466). *)
Definition get_multiproc_indices (shape : nat * nat) (nproc : nat)
  : list (list nat * list nat) :=
  let '(lon_ix, lat_ix) := Numpy.indices shape in
  map (fun i => (Numpy.flatten (Numpy.slice_step i nproc lon_ix),
                 Numpy.flatten (Numpy.slice_step i nproc lat_ix)))
      (seq 0 nproc).

(** The pixels a worker visits: [zip(all_lon, all_lat)] in [fit]. *)
Definition chunk_pixels (ix : list nat * list nat) : list (nat * nat) :=
  zip (fst ix) (snd ix).

(** All cells of the grid. *)
Definition grid_cells (shape : nat * nat) : list (nat * nat) :=
  lon ← seq 0 (fst shape); (pair lon) <$> seq 0 (snd shape).

(** The pixel list of worker [i], written without the index arrays. *)
Definition strided_cells (shape : nat * nat) (nproc i : nat) : list (nat * nat) :=
  lon ← Numpy.slice_step i nproc (seq 0 (fst shape));
  (pair lon) <$> seq 0 (snd shape).


(** ** Evidence values

    [numpy] doubles, as far as the orchestration code looks at them:
    a value is a number, an infinity or NaN; [np.isnan], [np.isfinite],
    subtraction and the comparisons follow IEEE 754 on the special
    values.  Finite values are rationals and their arithmetic is exact:
    rounding and overflow belong to the sampler, not to this code. *)
Module Float.

Inductive t := Num (q : Q) | PosInf | NegInf | NaN.

Definition of_Z (z : Z) : t := Num (inject_Z z).

Definition isnan (x : t) : bool :=
  match x with NaN => true | _ => false end.

Definition isfinite (x : t) : bool :=
  match x with Num _ => true | _ => false end.

Definition sub (x y : t) : t :=
  match x, y with
  | NaN, _ | _, NaN => NaN
  | Num a, Num b => Num (a - b)
  | Num _, PosInf => NegInf
  | Num _, NegInf => PosInf
  | PosInf, PosInf => NaN
  | PosInf, _ => PosInf
  | NegInf, NegInf => NaN
  | NegInf, _ => NegInf
  end.

(** [x < y]; false as soon as one side is NaN. *)
Definition ltb (x y : t) : bool :=
  match x, y with
  | NaN, _ | _, NaN => false
  | Num a, Num b => negb (Qle_bool b a)
  | Num _, PosInf => true
  | Num _, NegInf => false
  | PosInf, _ => false
  | NegInf, NegInf => false
  | NegInf, _ => true
  end.

(** [x <= y]; false as soon as one side is NaN. *)
Definition leb (x y : t) : bool :=
  match x, y with
  | NaN, _ | _, NaN => false
  | Num a, Num b => Qle_bool a b
  | Num _, PosInf => true
  | Num _, NegInf => false
  | PosInf, PosInf => true
  | PosInf, _ => false
  | NegInf, _ => true
  end.

Definition gtb (x y : t) : bool := ltb y x.
Definition geb (x y : t) : bool := leb y x.

End Float.

(** ** Exceptions and the state-and-error monad

    A computation runs on a state, may change it and either returns a
    value or raises.  [Timeout] is a loop that used up its fuel; it has no
    Python counterpart and is shown not to occur. *)
Inductive exn :=
  | AssertionError | ValueError | KeyError | TypeError | IndexError
  | OSError | UnboundLocalError.

Inductive res (A : Type) :=
  | Return (a : A)
  | Raise (e : exn)
  | Timeout.
Arguments Return {A} a.
Arguments Raise {A} e.
Arguments Timeout {A}.

Definition M (S A : Type) : Type := S -> S * res A.

Definition ret {S A} (a : A) : M S A := fun s => (s, Return a).
Definition raise {S A} (e : exn) : M S A := fun s => (s, Raise e).
Definition timeout {S A} : M S A := fun s => (s, Timeout).
Definition bind {S A B} (m : M S A) (k : A -> M S B) : M S B :=
  fun s =>
    match m s with
    | (s', Return a) => k a s'
    | (s', Raise e) => (s', Raise e)
    | (s', Timeout) => (s', Timeout)
    end.
Definition get {S} : M S S := fun s => (s, Return s).
Definition put {S} (s : S) : M S unit := fun _ => (s, Return tt).
Definition modify {S} (f : S -> S) : M S unit := fun s => (f s, Return tt).

(** [assert c] *)
Definition assert {S} (c : bool) : M S unit :=
  if c then ret tt else raise AssertionError.

(** Reading a key that may be missing: [d[k]]. *)
Definition from_option {S A} (e : exn) (o : option A) : M S A :=
  match o with Some a => ret a | None => raise e end.

Declare Scope monad_scope.
Delimit Scope monad_scope with monad.
Notation "x <- m ;; k" := (bind m (fun x => k))
  (at level 100, m at next level, right associativity) : monad_scope.
Notation "m ;; k" := (bind m (fun _ => k))
  (at level 100, right associativity) : monad_scope.

(** [for x in l: body(x)] *)
Fixpoint for_each {S A} (l : list A) (body : A -> M S unit) : M S unit :=
  match l with
  | [] => ret tt
  | x :: l' => (body x ;; for_each l' body)%monad
  end.

(** ** The HDF5 files

    A chunk file is written by one worker: under [/pix/<lon>/<lat>] it
    has one group per fitted pixel, with the attributes [i_lon], [i_lat]
    and [nbest] and one sub-group per attempted model order.  Group names
    are the decimal renderings of the integers, which are injective, so
    the maps are keyed by the integers themselves. *)

(** The attributes of a fit sub-group that the orchestration code reads
    back; a missing attribute is [None]. *)
Record SubGroup := {
  sg_ncomp : option nat;
  sg_null_lnZ : option Float.t;
  sg_global_lnZ : option Float.t;
}.

Definition empty_subgroup : SubGroup :=
  {| sg_ncomp := None; sg_null_lnZ := None; sg_global_lnZ := None |}.

Record PixGroup := {
  pg_i_lon : option nat;
  pg_i_lat : option nat;
  pg_nbest : option Z;
  pg_subs : gmap nat SubGroup;
}.

Definition empty_group : PixGroup :=
  {| pg_i_lon := None; pg_i_lat := None; pg_nbest := None; pg_subs := ∅ |}.

(** What a path [/pix/<lon>/<lat>] may hold in a chunk file. *)
Inductive Obj :=
  | OGroup (g : PixGroup)
  | ODataset.

(** [cf_pix = None]: the file has no [/pix] group. *)
Record ChunkFile := {
  cf_pix : option (gmap nat (gmap nat Obj));
}.

Definition empty_chunk : ChunkFile := {| cf_pix := None |}.

(** The member [/pix/<lon>/<lat>] of a chunk file, if any. *)
Definition chunk_lookup (f : ChunkFile) (lon lat : nat) : option Obj :=
  pix ← cf_pix f; row ← pix !! lon; row !! lat.

(** Writing the member [/pix/<lon>/<lat>], creating [/pix] and
    [/pix/<lon>] when they are missing. *)
Definition chunk_insert (f : ChunkFile) (lon lat : nat) (o : Obj) : ChunkFile :=
  let pix := default ∅ (cf_pix f) in
  let row := default ∅ (pix !! lon) in
  {| cf_pix := Some (<[lon := <[lat := o]> row]> pix) |}.

(** The table file: run attributes, whether the two header groups exist
    (their keywords are not modelled), the members of [/pix], which after
    linking are external links [(file name, lon, lat)] into chunk files,
    and the aggregated datasets under [/products]. *)
Inductive TNode :=
  | THard (o : Obj)
  | TExternal (file : string) (lon lat : nat).

Inductive Dataset :=
  | DInt2 (a : list (list Z))
  | DFloat3 (a : list (list (list Float.t))).

Record TableFile := {
  t_nchunks : option nat;
  t_naxis1 : option nat;
  t_naxis2 : option nat;
  t_lnZ_threshold : option Float.t;
  t_n_max_components : option nat;
  t_headers : bool;
  t_pix : option (gmap nat (gmap nat TNode));
  t_products : gmap string Dataset;
}.

Definition empty_table : TableFile :=
  {| t_nchunks := None; t_naxis1 := None; t_naxis2 := None;
     t_lnZ_threshold := None; t_n_max_components := None;
     t_headers := false; t_pix := None; t_products := ∅ |}.

Definition table_lookup (t : TableFile) (lon lat : nat) : option TNode :=
  pix ← t_pix t; row ← pix !! lon; row !! lat.

Definition table_set_pix (t : TableFile) (pix : option (gmap nat (gmap nat TNode)))
  : TableFile :=
  {| t_nchunks := t_nchunks t; t_naxis1 := t_naxis1 t; t_naxis2 := t_naxis2 t;
     t_lnZ_threshold := t_lnZ_threshold t;
     t_n_max_components := t_n_max_components t;
     t_headers := t_headers t; t_pix := pix; t_products := t_products t |}.

Definition table_insert (t : TableFile) (lon lat : nat) (n : TNode) : TableFile :=
  let pix := default ∅ (t_pix t) in
  let row := default ∅ (pix !! lon) in
  table_set_pix t (Some (<[lon := <[lat := n]> row]> pix)).

Definition table_set_products (t : TableFile) (p : gmap string Dataset) : TableFile :=
  {| t_nchunks := t_nchunks t; t_naxis1 := t_naxis1 t; t_naxis2 := t_naxis2 t;
     t_lnZ_threshold := t_lnZ_threshold t;
     t_n_max_components := t_n_max_components t;
     t_headers := t_headers t; t_pix := t_pix t; t_products := p |}.

(** The store directory: the table file, if it exists, whether the
    handle on it is open, and the chunk files by file name. *)
Record StoreDir := {
  sd_table : option TableFile;
  sd_open : bool;
  sd_chunks : gmap string ChunkFile;
}.

Definition empty_dir : StoreDir :=
  {| sd_table := None; sd_open := false; sd_chunks := ∅ |}.

(** ** Data cubes *)

(** A cube after [data_from_cube]: axes (lon, lat, channel).  The
    spectrum and the noise are read at cells that [np.indices] produced
    from the cube's own spatial shape, so they are total here. *)
Record DataCube := {
  dc_shape : nat * nat * nat;
  dc_data : nat -> nat -> list Float.t;
  dc_noise : nat -> nat -> Float.t;
}.

Definition dc_spatial_shape (c : DataCube) : nat * nat :=
  let '(n0, n1, _) := dc_shape c in (n0, n1).

(** What the runner receives for one pixel: per cube, the samples and the
    noise level (the frequency axis and the transition tag are the same
    at every pixel and stay inside the sampler oracle). *)
Definition SpecData : Type := list (list Float.t * Float.t).

(** [DataCube.get_spec_data] (main.py 201-205), [DataCube.get_spectra]
    (core.py 206-211): [has_nans = np.isnan(arr).any()]. *)
Definition cube_get_spectra (c : DataCube) (i_lon i_lat : nat)
  : (list Float.t * Float.t) * bool :=
  let arr := dc_data c i_lon i_lat in
  let has_nans := existsb Float.isnan arr in
  let noise := dc_noise c i_lon i_lat in
  ((arr, noise), has_nans).

Record CubeStack := { cubes : list DataCube }.

(** [CubeStack.get_spectra] (core.py 243-250; main.py 237-244 has the
    same loop under the name [get_spec_data]). *)
Definition get_spectra (stack : CubeStack) (i_lon i_lat : nat) : SpecData * bool :=
  foldl (fun acc dcube =>
           let '(spec, has_nans) := cube_get_spectra dcube i_lon i_lat in
           (fst acc ++ [spec], snd acc || has_nans))
        ([], false) (cubes stack).

(** [cubes[0].shape] and [cubes[0].spatial_shape] *)
Definition stack_shape (stack : CubeStack) : option (nat * nat * nat) :=
  dc_shape <$> head (cubes stack).
Definition stack_spatial_shape (stack : CubeStack) : option (nat * nat) :=
  dc_spatial_shape <$> head (cubes stack).

(** ** The worker *)

(** What a worker does that leaves no mark in the file: the skip
    message, the start of a fit, a reading of the null-model evidence, a
    sampler run with the evidence it returned, and an evaluation of the
    threshold test on [run_lnZ - old_lnZ]. Newest event first. *)
Inductive event :=
  | EvSkip (i_lon i_lat : nat)
  | EvTry (i_lon i_lat ncomp : nat)
  | EvNull (i_lon i_lat : nat) (lnZ : Float.t)
  | EvSampler (i_lon i_lat ncomp : nat) (lnZ : Float.t)
  | EvThreshTest (i_lon i_lat ncomp : nat) (run_lnZ old_lnZ : Float.t).

Record Worker := {
  wk_file : ChunkFile;
  wk_log : list event;
}.

Definition log (e : event) : M Worker unit :=
  modify (fun w => {| wk_file := wk_file w; wk_log := e :: wk_log w |}).

Definition set_file (f : ChunkFile) : M Worker unit :=
  modify (fun w => {| wk_file := f; wk_log := wk_log w |}).

(** [hdf.require_group('/pix/<lon>/<lat>')] *)
Definition require_group (i_lon i_lat : nat) : M Worker unit :=
  (w <- get ;;
   match chunk_lookup (wk_file w) i_lon i_lat with
   | Some (OGroup _) => ret tt
   | Some ODataset => raise TypeError
   | None => set_file (chunk_insert (wk_file w) i_lon i_lat (OGroup empty_group))
   end)%monad.

(** Reading and writing through the handle [group]. *)
Definition read_group (i_lon i_lat : nat) : M Worker PixGroup :=
  (w <- get ;;
   match chunk_lookup (wk_file w) i_lon i_lat with
   | Some (OGroup g) => ret g
   | _ => raise KeyError
   end)%monad.

Definition write_group (i_lon i_lat : nat) (g : PixGroup) : M Worker unit :=
  (w <- get ;; set_file (chunk_insert (wk_file w) i_lon i_lat (OGroup g)))%monad.

Definition set_subs (g : PixGroup) (subs : gmap nat SubGroup) : PixGroup :=
  {| pg_i_lon := pg_i_lon g; pg_i_lat := pg_i_lat g; pg_nbest := pg_nbest g;
     pg_subs := subs |}.

(** [group.create_group(f'{ncomp}')]: an existing name is an error. *)
Definition create_group (i_lon i_lat ncomp : nat) : M Worker unit :=
  (g <- read_group i_lon i_lat ;;
   match pg_subs g !! ncomp with
   | Some _ => raise ValueError
   | None => write_group i_lon i_lat (set_subs g (<[ncomp := empty_subgroup]> (pg_subs g)))
   end)%monad.

(** Modelled from the spec: the [Dumper] (imported from the compiled
    core, not among the sources) writes into the sub-group it was made
    for the attributes [ncomp] and [global_lnZ], and [null_lnZ] in the
    order-1 sub-group. *)
Definition Dumper_write (ncomp : nat) (null_lnZ run_lnZ : Float.t) (sg : SubGroup)
  : SubGroup :=
  {| sg_ncomp := Some ncomp;
     sg_null_lnZ := if ncomp =? 1 then Some null_lnZ else sg_null_lnZ sg;
     sg_global_lnZ := Some run_lnZ |}.

(** [run_multinest(runner, dumper, **mn_kwargs)]: the sampler runs and
    the dumper stores what it found. *)
Definition run_multinest (i_lon i_lat ncomp : nat) (null_lnZ run_lnZ : Float.t)
  : M Worker unit :=
  (log (EvSampler i_lon i_lat ncomp run_lnZ) ;;
   g <- read_group i_lon i_lat ;;
   write_group i_lon i_lat
     (set_subs g (alter (Dumper_write ncomp null_lnZ run_lnZ) ncomp (pg_subs g))))%monad.

(** [group.attrs['i_lon'] = i_lon] and the two lines after it *)
Definition set_pixel_attrs (i_lon i_lat nbest : nat) : M Worker unit :=
  (g <- read_group i_lon i_lat ;;
   write_group i_lon i_lat
     {| pg_i_lon := Some i_lon; pg_i_lat := Some i_lat;
        pg_nbest := Some (Z.of_nat nbest); pg_subs := pg_subs g |})%monad.

Record CubeFitter := {
  stack : CubeStack;
  lnZ_thresh : Float.t;
  ncomp_max : nat;
}.

(** The sampler and the spectral model: for the spectra of a pixel, the
    evidence of the null model and the evidence the sampler returns for
    each number of components. *)
Record Runner := {
  null_lnZ : SpecData -> Float.t;
  run_lnZ : SpecData -> nat -> Float.t;
}.

(** *** [CubeFitter.fit], main.py 386-426 *)
Module Main.
Section fit.
Variable runner : Runner.
Variable self : CubeFitter.

(** The [while ncomp <= self.ncomp_max] loop.  [old_lnZ] is unbound
    until the first pass assigns it. *)
Fixpoint fit_while (fuel : nat) (i_lon i_lat : nat) (spec_data : SpecData)
    (ncomp nbest : nat) (old_lnZ : option Float.t) : M Worker nat :=
  if ncomp <=? ncomp_max self then
    match fuel with
    | 0 => timeout
    | S fuel' =>
      (log (EvTry i_lon i_lat ncomp) ;;
       create_group i_lon i_lat ncomp ;;
       old_lnZ <- (if ncomp =? 1 then
                     log (EvNull i_lon i_lat (null_lnZ runner spec_data)) ;;
                     assert (Float.isfinite (null_lnZ runner spec_data)) ;;
                     ret (Some (null_lnZ runner spec_data))
                   else ret old_lnZ) ;;
       run_multinest i_lon i_lat ncomp
         (null_lnZ runner spec_data) (run_lnZ runner spec_data ncomp) ;;
       assert (Float.isfinite (run_lnZ runner spec_data ncomp)) ;;
       old <- from_option UnboundLocalError old_lnZ ;;
       log (EvThreshTest i_lon i_lat ncomp (run_lnZ runner spec_data ncomp) old) ;;
       if Float.ltb (Float.sub (run_lnZ runner spec_data ncomp) old)
                    (lnZ_thresh self)
       then ret nbest
       else fit_while fuel' i_lon i_lat spec_data (ncomp + 1) ncomp
              (Some (run_lnZ runner spec_data ncomp)))%monad
    end
  else ret nbest.

(** The body of [for (i_lon, i_lat) in zip(all_lon, all_lat)]. *)
Definition fit_pixel (p : nat * nat) : M Worker unit :=
  let '(i_lon, i_lat) := p in
  let '(spec_data, has_nans) := get_spectra (stack self) i_lon i_lat in
  if has_nans then log (EvSkip i_lon i_lat)
  else
    (require_group i_lon i_lat ;;
     nbest <- fit_while (ncomp_max self) i_lon i_lat spec_data 1 0 None ;;
     set_pixel_attrs i_lon i_lat nbest)%monad.

(** [fit] on an open chunk file. *)
Definition fit_pixels (ix : list nat * list nat) : M Worker unit :=
  for_each (chunk_pixels ix) fit_pixel.
End fit.
End Main.

(** *** [CubeFitter.fit], core.py 390-428 *)
Module Core.
Section fit.
Variable runner : Runner.
Variable self : CubeFitter.

Fixpoint fit_while (fuel : nat) (i_lon i_lat : nat) (spectra : SpecData)
    (ncomp nbest : nat) (old_lnZ : Float.t) : M Worker nat :=
  if ncomp <=? ncomp_max self then
    match fuel with
    | 0 => timeout
    | S fuel' =>
      (log (EvTry i_lon i_lat ncomp) ;;
       create_group i_lon i_lat ncomp ;;
       run_multinest i_lon i_lat ncomp
         (null_lnZ runner spectra) (run_lnZ runner spectra ncomp) ;;
       assert (Float.isfinite (run_lnZ runner spectra ncomp)) ;;
       log (EvThreshTest i_lon i_lat ncomp (run_lnZ runner spectra ncomp) old_lnZ) ;;
       if Float.ltb (Float.sub (run_lnZ runner spectra ncomp) old_lnZ)
                    (lnZ_thresh self)
       then ret nbest
       else fit_while fuel' i_lon i_lat spectra (ncomp + 1) ncomp
              (run_lnZ runner spectra ncomp))%monad
    end
  else ret nbest.

Definition fit_pixel (p : nat * nat) : M Worker unit :=
  let '(i_lon, i_lat) := p in
  let '(spectra, has_nans) := get_spectra (stack self) i_lon i_lat in
  if has_nans then log (EvSkip i_lon i_lat)
  else
    (require_group i_lon i_lat ;;
     log (EvNull i_lon i_lat (null_lnZ runner spectra)) ;;
     assert (Float.isfinite (null_lnZ runner spectra)) ;;
     nbest <- fit_while (ncomp_max self) i_lon i_lat spectra 1 0
                (null_lnZ runner spectra) ;;
     set_pixel_attrs i_lon i_lat nbest)%monad.

Definition fit_pixels (ix : list nat * list nat) : M Worker unit :=
  for_each (chunk_pixels ix) fit_pixel.
End fit.
End Core.

(** ** [HdfStore] *)

Definition endswith (s suffix : string) : bool :=
  let n := String.length s in
  let k := String.length suffix in
  (k <=? n) && String.eqb (String.substring (n - k) k s) suffix.

(** [check_ext] (main.py 247-251) *)
Definition check_ext (store_name ext : string) : string :=
  if endswith store_name ("." +:+ ext) then store_name
  else store_name +:+ "." +:+ ext.

(** A [pathlib.Path] of a file inside a directory. *)
Record Path := { parent : string; name : string }.

Definition path_str (p : Path) : string := parent p +:+ "/" +:+ name p.

Definition linked_table : string := "table.hdf".
Definition chunk_prefix : string := "chunk".
Definition dpath : string := "/products".

Record HdfStore := {
  store_name : string;
  store_dir : string;
  nchunks : nat;
}.

Definition set_table (t : TableFile) : M StoreDir unit :=
  modify (fun sd => {| sd_table := Some t; sd_open := sd_open sd;
                       sd_chunks := sd_chunks sd |}).

Definition set_open (b : bool) : M StoreDir unit :=
  modify (fun sd => {| sd_table := sd_table sd; sd_open := b;
                       sd_chunks := sd_chunks sd |}).

Definition set_chunk (file : string) (f : ChunkFile) : M StoreDir unit :=
  modify (fun sd => {| sd_table := sd_table sd; sd_open := sd_open sd;
                       sd_chunks := <[file := f]> (sd_chunks sd) |}).

(** The table file behind [self.hdf]. *)
Definition the_table : M StoreDir TableFile :=
  (sd <- get ;; from_option ValueError (sd_table sd))%monad.

Definition table_set_nchunks (t : TableFile) (n : nat) : TableFile :=
  {| t_nchunks := Some n; t_naxis1 := t_naxis1 t; t_naxis2 := t_naxis2 t;
     t_lnZ_threshold := t_lnZ_threshold t;
     t_n_max_components := t_n_max_components t;
     t_headers := t_headers t; t_pix := t_pix t; t_products := t_products t |}.

(** [HdfStore.__init__] (main.py 259-275; core.py 265-281 is the same
    text).  [h5py.File(..., 'a')] opens the table file and creates it
    when it does not exist. *)
Definition HdfStore_init (store_name : string) (nchunks : nat) : M StoreDir HdfStore :=
  (let store_dir := check_ext store_name "store" in
   sd <- get ;;
   let hdf := default empty_table (sd_table sd) in
   set_table hdf ;;
   set_open true ;;
   match t_nchunks hdf with
   | Some n =>
       ret {| store_name := store_name; store_dir := store_dir; nchunks := n |}
   | None =>
       set_table (table_set_nchunks hdf nchunks) ;;
       ret {| store_name := store_name; store_dir := store_dir; nchunks := nchunks |}
   end)%monad.

(** [chunk_paths] (main.py 277-282) *)
Definition chunk_paths (self : HdfStore) : list Path :=
  (fun i => {| parent := store_dir self;
               name := chunk_prefix +:+ pretty i +:+ ".hdf" |})
    <$> seq 0 (nchunks self).

(** [is_open] *)
Definition is_open : M StoreDir bool :=
  (sd <- get ;; ret (sd_open sd))%monad.

(** [close] *)
Definition close : M StoreDir unit := set_open false.

(** [self.hdf[path]]: a hard member is returned as it is, an external
    link is followed into the chunk file it names; [h5py] raises
    [KeyError] when the member, the file or the target is missing. *)
Definition getitem (sd : StoreDir) (t : TableFile) (lon lat : nat) : exn + Obj :=
  match table_lookup t lon lat with
  | None => inl KeyError
  | Some (THard o) => inr o
  | Some (TExternal file lon' lat') =>
      match sd_chunks sd !! file with
      | None => inl KeyError
      | Some f =>
          match chunk_lookup f lon' lat' with
          | None => inl KeyError
          | Some o => inr o
          end
      end
  end.

(** A generator run to its end: what it yielded, and the exception that
    ended it, if one did. *)
Definition Gen (A : Type) : Type := list A * option exn.

Definition gen_done {A} : Gen A := ([], None).
Definition gen_raise {A} (e : exn) : Gen A := ([], Some e).
Definition gen_yield {A} (a : A) (rest : Gen A) : Gen A := (a :: fst rest, snd rest).
Definition gen_seq {A} (g1 g2 : Gen A) : Gen A :=
  match snd g1 with
  | Some e => g1
  | None => (fst g1 ++ fst g2, snd g2)
  end.

(** Iterating over a group gives the names of its members. *)
Definition member_names {A} (m : gmap nat A) : list (option nat) :=
  Some <$> (map_to_list m).*1.

(** [iter_pix_groups] (main.py 298-309) *)
Fixpoint iter_lat (sd : StoreDir) (t : TableFile) (lon : nat)
    (lats : list (option nat)) : Gen PixGroup :=
  match lats with
  | [] => gen_done
  | lat_pix :: rest =>
      match lat_pix with
      | None => gen_raise ValueError
      | Some lat =>
          match getitem sd t lon lat with
          | inl e => gen_raise e
          | inr (OGroup group) => gen_yield group (iter_lat sd t lon rest)
          | inr ODataset => iter_lat sd t lon rest
          end
      end
  end.

Fixpoint iter_lon (sd : StoreDir) (t : TableFile)
    (pix : gmap nat (gmap nat TNode)) (lons : list (option nat)) : Gen PixGroup :=
  match lons with
  | [] => gen_done
  | lon_pix :: rest =>
      match lon_pix with
      | None => gen_raise ValueError
      | Some lon =>
          match pix !! lon with
          | None => gen_raise KeyError
          | Some row =>
              gen_seq (iter_lat sd t lon (member_names row))
                      (iter_lon sd t pix rest)
          end
      end
  end.

Definition iter_pix_groups (sd : StoreDir) : Gen PixGroup :=
  if sd_open sd then
    match sd_table sd with
    | None => gen_raise ValueError
    | Some t =>
        match t_pix t with
        | None => gen_raise KeyError
        | Some pix => iter_lon sd t pix (member_names pix)
        end
    end
  else gen_raise AssertionError.

(** A loop that updates local variables [b]: [for x in l: b = body(b, x)]. *)
Fixpoint fold_m {S A B} (l : list A) (body : B -> A -> M S B) (b : B) : M S B :=
  match l with
  | [] => ret b
  | x :: l' => (b' <- body b x ;; fold_m l' body b')%monad
  end.

(** [for x in gen: ...]: the body runs on what was yielded, then the
    generator's exception, if any, surfaces. *)
Definition fold_gen {S A B} (g : Gen A) (body : B -> A -> M S B) (b : B) : M S B :=
  (b' <- fold_m (fst g) body b ;;
   match snd g with
   | Some e => raise e
   | None => ret b'
   end)%monad.

(** [self.hdf[group_name] = h5py.ExternalLink(chunk_path.name, group_name)] *)
Definition link_pixel (file : string) (lon lat : nat) : M StoreDir unit :=
  (t <- the_table ;;
   match table_lookup t lon lat with
   | Some _ => raise ValueError
   | None => set_table (table_insert t lon lat (TExternal file lon lat))
   end)%monad.

(** [link_files] (main.py 311-320) *)
Definition link_chunk (chunk_path : Path) : M StoreDir unit :=
  (sd <- get ;;
   chunk_hdf <- from_option OSError (sd_chunks sd !! name chunk_path) ;;
   pix <- from_option KeyError (cf_pix chunk_hdf) ;;
   for_each (map_to_list pix) (fun lon_row =>
     for_each (map_to_list (snd lon_row)) (fun lat_obj =>
       link_pixel (name chunk_path) (fst lon_row) (fst lat_obj))))%monad.

Definition link_files (self : HdfStore) : M StoreDir unit :=
  (o <- is_open ;; assert o ;;
   for_each (chunk_paths self) link_chunk)%monad.

(** [reset_pix_links] (main.py 322-325) *)
Definition reset_pix_links : M StoreDir unit :=
  (o <- is_open ;; assert o ;;
   t <- the_table ;;
   match t_pix t with
   | Some _ => set_table (table_set_pix t None)
   | None => ret tt
   end)%monad.

(** [insert_header] (main.py 327-341): creating a header group that
    exists is an error; a closed handle only warns. *)
Definition insert_header (stack : CubeStack) : M StoreDir unit :=
  (o <- is_open ;;
   if o then
     t <- the_table ;;
     (if t_headers t then raise ValueError else ret tt) ;;
     shape <- from_option IndexError (stack_shape stack) ;;
     set_table
       {| t_nchunks := t_nchunks t;
          t_naxis1 := Some (fst (fst shape)); t_naxis2 := Some (snd (fst shape));
          t_lnZ_threshold := t_lnZ_threshold t;
          t_n_max_components := t_n_max_components t;
          t_headers := true; t_pix := t_pix t; t_products := t_products t |}
   else ret tt)%monad.

(** [insert_fitter_pars] (main.py 361-365) *)
Definition insert_fitter_pars (fitter : CubeFitter) : M StoreDir unit :=
  (o <- is_open ;; assert o ;;
   t <- the_table ;;
   set_table
     {| t_nchunks := t_nchunks t; t_naxis1 := t_naxis1 t; t_naxis2 := t_naxis2 t;
        t_lnZ_threshold := Some (lnZ_thresh fitter);
        t_n_max_components := Some (ncomp_max fitter);
        t_headers := t_headers t; t_pix := t_pix t;
        t_products := t_products t |})%monad.

(** [create_dataset] (main.py 352-359), for datasets under one group:
    with [clobber] an existing dataset of that name is deleted first,
    without it the creation fails. *)
Definition create_dataset (dset_name : string) (data : Dataset) (clobber : bool)
  : M StoreDir unit :=
  (assert (0 <? String.length dset_name) ;;
   t <- the_table ;;
   match t_products t !! dset_name with
   | Some _ =>
       if clobber then set_table (table_set_products t (<[dset_name := data]> (t_products t)))
       else raise ValueError
   | None => set_table (table_set_products t (<[dset_name := data]> (t_products t)))
   end)%monad.

(** ** [fit] and [fit_cube] on the store directory *)

(** A worker process: what it raises stays in the process. *)
Definition in_process {S} (m : M S unit) : M S unit :=
  fun s => (fst (m s), Return tt).

Module MainCube.
Section fit_cube.
Variable runner : Runner.
Variable self : CubeFitter.

(** [fit] (main.py 386-426): the chunk file is opened in mode ['a'],
    which creates it when it does not exist. *)
Definition fit (ix : list nat * list nat) (chunk_path : Path) : M StoreDir unit :=
  fun sd =>
    let hdf := default empty_chunk (sd_chunks sd !! name chunk_path) in
    let '(w, r) := Main.fit_pixels runner self ix {| wk_file := hdf; wk_log := [] |} in
    (fst (set_chunk (name chunk_path) (wk_file w) sd), r).

(** [fit_cube] (main.py 428-454) *)
Definition fit_cube (store_name : string) (nproc : nat) : M StoreDir unit :=
  (_ <- from_option IndexError (stack_shape (stack self)) ;;
   store <- HdfStore_init store_name nproc ;;
   insert_header (stack self) ;;
   insert_fitter_pars self ;;
   spatial_shape <- from_option IndexError (stack_spatial_shape (stack self)) ;;
   let indices := get_multiproc_indices spatial_shape (nchunks store) in
   (if nchunks store =? 1 then
      ix <- from_option IndexError (indices !! 0) ;;
      path <- from_option IndexError (chunk_paths store !! 0) ;;
      fit ix path
    else
      for_each (zip indices (chunk_paths store))
        (fun args => in_process (fit (fst args) (snd args)))) ;;
   link_files store ;;
   close)%monad.
End fit_cube.
End MainCube.

(** ** Dense arrays *)

Definition full2 {A} (n m : nat) (v : A) : list (list A) :=
  replicate n (replicate m v).
Definition full3 {A} (n m k : nat) (v : A) : list (list (list A)) :=
  replicate n (full2 m k v).

Definition getitem2 {A} (a : list (list A)) (i j : nat) : option A :=
  row ← a !! i; row !! j.
Definition getitem3 {A} (a : list (list (list A))) (i j k : nat) : option A :=
  plane ← a !! i; getitem2 plane j k.

(** [a[i,j] = v]; [None] is numpy's [IndexError]. *)
Definition setitem2 {A} (a : list (list A)) (i j : nat) (v : A)
  : option (list (list A)) :=
  row ← a !! i; _ ← row !! j; Some (<[i := <[j := v]> row]> a).
Definition setitem3 {A} (a : list (list (list A))) (i j k : nat) (v : A)
  : option (list (list (list A))) :=
  plane ← a !! i; plane' ← setitem2 plane j k v; Some (<[i := plane']> a).

(** [a.transpose()] reverses the axes. *)
Definition transpose2 {A} (d : A) (shape : nat * nat) (a : list (list A))
  : list (list A) :=
  (fun j => (fun i => default d (getitem2 a i j)) <$> seq 0 (fst shape))
    <$> seq 0 (snd shape).
Definition transpose3 {A} (d : A) (shape : nat * nat * nat)
    (a : list (list (list A))) : list (list (list A)) :=
  let '(n0, n1, n2) := shape in
  (fun k => (fun j => (fun i => default d (getitem3 a i j k)) <$> seq 0 n0)
              <$> seq 0 n1)
    <$> seq 0 n2.

(** Elementwise operations on arrays of one shape. *)
Definition map2d {A B} (f : A -> B) (a : list (list A)) : list (list B) :=
  (fun row : list A => f <$> row) <$> a.
Definition zip2d {A B C} (f : A -> B -> C) (a : list (list A)) (b : list (list B))
  : list (list C) :=
  zip_with (zip_with f) a b.

(** A value stored into an [int32] array. *)
Definition wrap32 (z : Z) : Z := ((z + 2147483648) mod 4294967296 - 2147483648)%Z.

(** ** [aggregate_run_attributes] (main.py 467-523)

    Of the per-order maps only the evidence is modelled; the others are
    filled by the same statements from attributes of the same sub-group. *)
Definition aggregate_model (i_lon i_lat : nat)
    (lnz_data : list (list (list Float.t))) (model : nat * SubGroup)
  : M StoreDir (list (list (list Float.t))) :=
  (let subg := snd model in
   ncomp <- from_option KeyError (sg_ncomp subg) ;;
   lnz_data <- (if ncomp =? 1 then
                  null <- from_option KeyError (sg_null_lnZ subg) ;;
                  from_option IndexError (setitem3 lnz_data i_lon i_lat 0 null)
                else ret lnz_data) ;;
   global <- from_option KeyError (sg_global_lnZ subg) ;;
   from_option IndexError (setitem3 lnz_data i_lon i_lat ncomp global))%monad.

Definition aggregate_group
    (acc : list (list Z) * list (list (list Float.t))) (group : PixGroup)
  : M StoreDir (list (list Z) * list (list (list Float.t))) :=
  (let '(nb_data, lnz_data) := acc in
   i_lon <- from_option KeyError (pg_i_lon group) ;;
   i_lat <- from_option KeyError (pg_i_lat group) ;;
   nbest <- from_option KeyError (pg_nbest group) ;;
   nb_data <- from_option IndexError (setitem2 nb_data i_lon i_lat (wrap32 nbest)) ;;
   lnz_data <- fold_m (map_to_list (pg_subs group)) (aggregate_model i_lon i_lat) lnz_data ;;
   ret (nb_data, lnz_data))%monad.

Definition aggregate_run_attributes : M StoreDir unit :=
  (hdf <- the_table ;;
   n_lon <- from_option KeyError (t_naxis1 hdf) ;;
   n_lat <- from_option KeyError (t_naxis2 hdf) ;;
   ncomp_max <- from_option KeyError (t_n_max_components hdf) ;;
   let lnz_data := full3 n_lon n_lat (ncomp_max + 1) Float.NaN in
   let nb_data := full2 n_lon n_lat (-1)%Z in
   sd <- get ;;
   acc <- fold_gen (iter_pix_groups sd) aggregate_group (nb_data, lnz_data) ;;
   create_dataset "nbest" (DInt2 (transpose2 (-1)%Z (n_lon, n_lat) (fst acc))) true ;;
   create_dataset "evidence"
     (DFloat3 (transpose3 Float.NaN (n_lon, n_lat, ncomp_max + 1) (snd acc))) true)%monad.

(** Reading the datasets back. *)
Definition read_int2 (dset_name : string) : M StoreDir (list (list Z)) :=
  (hdf <- the_table ;;
   match t_products hdf !! dset_name with
   | Some (DInt2 a) => ret a
   | Some _ => raise TypeError
   | None => raise KeyError
   end)%monad.
Definition read_float3 (dset_name : string) : M StoreDir (list (list (list Float.t))) :=
  (hdf <- the_table ;;
   match t_products hdf !! dset_name with
   | Some (DFloat3 a) => ret a
   | Some _ => raise TypeError
   | None => raise KeyError
   end)%monad.

(** ** [convolve_evidence]

    [convolve_fft] with the Gaussian kernel of the caller's width is an
    oracle from maps to maps. *)

(** *** main.py 526-573 *)
Module MainConv.
Section convolve.
Variable convolve_fft : list (list Float.t) -> list (list Float.t).

(** One pass of [for i in range(ncomp_max)]:
    [conv_nbest[(conv_nbest == i) & (cdata[i+1] - cdata[i] > lnZ_thresh)] += 1] *)
Definition step (lnZ_thresh : Float.t) (cdata : list (list (list Float.t)))
    (conv_nbest : list (list Z)) (i : nat) : option (list (list Z)) :=
  hi ← cdata !! (i + 1);
  lo ← cdata !! i;
  let mask :=
    zip2d andb (map2d (fun c => (c =? Z.of_nat i)%Z) conv_nbest)
               (zip2d (fun a b => Float.gtb (Float.sub a b) lnZ_thresh) hi lo) in
  Some (zip2d (fun (m : bool) c => if m then wrap32 (c + 1) else c) mask conv_nbest).

Fixpoint steps (lnZ_thresh : Float.t) (cdata : list (list (list Float.t)))
    (conv_nbest : list (list Z)) (range : list nat) : option (list (list Z)) :=
  match range with
  | [] => Some conv_nbest
  | i :: rest =>
      conv_nbest' ← step lnZ_thresh cdata conv_nbest i;
      steps lnZ_thresh cdata conv_nbest' rest
  end.

(** The re-selection, from the smoothed maps and the raw [nbest] map. *)
Definition reselect (ncomp_max : nat) (lnZ_thresh : Float.t)
    (cdata : list (list (list Float.t))) (nbest : list (list Z))
  : option (list (list Z)) :=
  first ← cdata !! 0;
  let conv_nbest := map2d (fun _ => 0%Z) first in
  conv_nbest ← steps lnZ_thresh cdata conv_nbest (seq 0 ncomp_max);
  (* refill the "NaN" values *)
  let conv_nbest :=
    zip2d (fun n c => if (n =? -1)%Z then (-1)%Z else c) nbest conv_nbest in
  (* guard the change in Nbest to no more than +1 *)
  let overshot := zip2d (fun c n => (2 <=? wrap32 (c - n))%Z) conv_nbest nbest in
  Some (zip2d (fun (o : bool) cn => if o then wrap32 (snd cn + 1) else fst cn)
              overshot (zip2d pair conv_nbest nbest)).

Definition convolve_evidence : M StoreDir unit :=
  (hdf <- the_table ;;
   ncomp_max <- from_option KeyError (t_n_max_components hdf) ;;
   lnZ_thresh <- from_option KeyError (t_lnZ_threshold hdf) ;;
   data <- read_float3 "evidence" ;;
   nbest <- read_int2 "nbest" ;;
   let cdata := convolve_fft <$> data in
   conv_nbest <- from_option IndexError (reselect ncomp_max lnZ_thresh cdata nbest) ;;
   create_dataset "conv_nbest" (DInt2 conv_nbest) true ;;
   create_dataset "conv_evidence" (DFloat3 cdata) true)%monad.
End convolve.
End MainConv.

(** *** core.py 554-584 *)
Module CoreConv.
Section convolve.
Variable convolve_fft : list (list Float.t) -> list (list Float.t).

(** [nbest[lnZ_thresh < cdata[i+1] - cdata[i]] = i+1] *)
Definition step (lnZ_thresh : Float.t) (cdata : list (list (list Float.t)))
    (nbest : list (list Z)) (i : nat) : option (list (list Z)) :=
  hi ← cdata !! (i + 1);
  lo ← cdata !! i;
  let mask := zip2d (fun a b => Float.ltb lnZ_thresh (Float.sub a b)) hi lo in
  Some (zip2d (fun (m : bool) n => if m then Z.of_nat (i + 1) else n) mask nbest).

Fixpoint steps (lnZ_thresh : Float.t) (cdata : list (list (list Float.t)))
    (nbest : list (list Z)) (range : list nat) : option (list (list Z)) :=
  match range with
  | [] => Some nbest
  | i :: rest =>
      nbest' ← step lnZ_thresh cdata nbest i;
      steps lnZ_thresh cdata nbest' rest
  end.

Definition reselect (ncomp_max : nat) (lnZ_thresh : Float.t)
    (cdata : list (list (list Float.t))) : option (list (list Z)) :=
  first ← cdata !! 0;
  let nbest := map2d (fun _ => 0%Z) first in
  steps lnZ_thresh cdata nbest (seq 0 ncomp_max).

Definition convolve_evidence : M StoreDir unit :=
  (hdf <- the_table ;;
   ncomp_max <- from_option KeyError (t_n_max_components hdf) ;;
   lnZ_thresh <- from_option KeyError (t_lnZ_threshold hdf) ;;
   data <- read_float3 "evidence" ;;
   let cdata := convolve_fft <$> data in
   nbest <- from_option IndexError (reselect ncomp_max lnZ_thresh cdata) ;;
   create_dataset "conv_evidence" (DFloat3 cdata) true ;;
   create_dataset "conv_nbest" (DInt2 nbest) true)%monad.
End convolve.
End CoreConv.

(** ** A 2 x 2 run

    Four pixels on a 2 x 2 grid, laid out as in the stored map
    (latitude, longitude): A at (lat 0, lon 0), B at (lat 0, lon 1), C at
    (lat 1, lon 0), D at (lat 1, lon 1).  The sampler is a test double
    that recognises a pixel by its first sample and answers from that
    pixel's evidence chain; an order outside the chain gets NaN. *)
Module Scenario.

Definition spectrum (i_lon i_lat : nat) : list Float.t :=
  match i_lon, i_lat with
  | 0, 0 => [Float.of_Z 1; Float.of_Z 0]          (* A *)
  | 1, 0 => [Float.of_Z 2; Float.of_Z 0]          (* B *)
  | 0, 1 => [Float.of_Z 3; Float.NaN]             (* C *)
  | _, _ => [Float.of_Z 4; Float.of_Z 0]          (* D *)
  end.

Definition cube : DataCube :=
  {| dc_shape := (2, 2, 2);
     dc_data := spectrum;
     dc_noise := fun _ _ => Float.of_Z 1 |}.

Definition chain (spec_data : SpecData) : list Float.t :=
  match spec_data with
  | [ (Float.Num q :: _, _) ] =>
      if Qeq_bool q 1 then Float.of_Z <$> [0; 15; 40]%Z
      else if Qeq_bool q 2 then Float.of_Z <$> [0; 5]%Z
      else if Qeq_bool q 4 then Float.of_Z <$> [0; 20; 25]%Z
      else []
  | _ => []
  end.

Definition runner : Runner :=
  {| null_lnZ := fun spec_data => nth 0 (chain spec_data) Float.NaN;
     run_lnZ := fun spec_data ncomp => nth ncomp (chain spec_data) Float.NaN |}.

Definition fitter : CubeFitter :=
  {| stack := {| cubes := [cube] |};
     lnZ_thresh := Float.of_Z 11;
     ncomp_max := 2 |}.

(** Fit the cube with [nproc] workers, reopen the store and aggregate. *)
Definition run (nproc : nat) : M StoreDir unit :=
  (MainCube.fit_cube runner fitter "run/test_cube" nproc ;;
   _ <- HdfStore_init "run/test_cube" 1 ;;
   aggregate_run_attributes)%monad.

(** The [nbest] attribute of a pixel group reached through the table. *)
Definition linked_nbest (sd : StoreDir) (i_lon i_lat : nat) : option Z :=
  t ← sd_table sd;
  match getitem sd t i_lon i_lat with
  | inr (OGroup g) => pg_nbest g
  | _ => None
  end.

Definition product (sd : StoreDir) (dset_name : string) : option Dataset :=
  t ← sd_table sd; t_products t !! dset_name.

End Scenario.

(** ** Smoothing the maps of the 2 x 2 run

    A stand-in for [convolve_fft] with a narrow kernel: finite values
    stay, and a NaN is interpolated from the finite values of its row
    (here: replaced by the first of them). *)
Module Smoothing.

Definition fill_row (row : list Float.t) : list Float.t :=
  match filter (fun x => Float.isfinite x = true) row with
  | [] => row
  | v :: _ => (fun x => if Float.isnan x then v else x) <$> row
  end.

Definition convolve_fft (map2 : list (list Float.t)) : list (list Float.t) :=
  fill_row <$> map2.

(** The store after the 2 x 2 run with one worker. *)
Definition store : StoreDir := fst (Scenario.run 1 empty_dir).

End Smoothing.

(** The store of the 2 x 2 run after its chunk file was lost: the table
    file keeps the links, the directory has no chunk file. *)
Definition lost_chunk : StoreDir :=
  {| sd_table := sd_table Smoothing.store; sd_open := true; sd_chunks := ∅ |}.

(** A sampler whose null-model evidence is NaN, and one whose first
    sampler run returns an infinite evidence. *)
Definition nan_null_runner : Runner :=
  {| null_lnZ := fun _ => Float.NaN;
     run_lnZ := fun _ _ => Float.of_Z 0 |}.

Definition inf_run_runner : Runner :=
  {| null_lnZ := fun _ => Float.of_Z 0;
     run_lnZ := fun _ _ => Float.PosInf |}.

Definition fresh_worker : Worker := {| wk_file := empty_chunk; wk_log := [] |}.

(** A 1 x 1 cube whose only spectrum has an infinite sample, and a
    sampler that finds the same finite evidence for every model. *)
Definition inf_cube : DataCube :=
  {| dc_shape := (1, 1, 2);
     dc_data := fun _ _ => [Float.of_Z 1; Float.PosInf];
     dc_noise := fun _ _ => Float.of_Z 1 |}.

Definition inf_fitter : CubeFitter :=
  {| stack := {| cubes := [inf_cube] |};
     lnZ_thresh := Float.of_Z 11;
     ncomp_max := 2 |}.

Definition flat_runner : Runner :=
  {| null_lnZ := fun _ => Float.of_Z 0;
     run_lnZ := fun _ _ => Float.of_Z 0 |}.

(** The whole run: fit the cube, reopen the store, aggregate. *)
Definition pipeline (runner : Runner) (self : CubeFitter) (store_name : string)
    (nproc : nat) : M StoreDir unit :=
  (MainCube.fit_cube runner self store_name nproc ;;
   _ <- HdfStore_init store_name nproc ;;
   aggregate_run_attributes)%monad.

(** The 2 x 2 run fitted by two workers, reopened, with the links of the
    table file removed again: two chunk files and a table without [/pix]. *)
Definition two_chunks : StoreDir * res HdfStore :=
  (MainCube.fit_cube Scenario.runner Scenario.fitter "run/test_cube" 2 ;;
   store <- HdfStore_init "run/test_cube" 2 ;;
   reset_pix_links ;;
   ret store)%monad empty_dir.

(** ** Vocabulary of the statements *)

(** The file name of chunk [i]. *)
Definition chunk_name (i : nat) : string := "chunk" +:+ pretty i +:+ ".hdf".

(** The increment from order [i] to [i+1] passes the test of
    main.py at cell [(b, l)]. *)
Definition passed (lnZ_thresh : Float.t) (cdata : list (list (list Float.t)))
    (b l i : nat) : Prop :=
  exists hi lo, getitem3 cdata (i + 1) b l = Some hi
    /\ getitem3 cdata i b l = Some lo
    /\ Float.gtb (Float.sub hi lo) lnZ_thresh = true.

(** The raw and the smoothed order at a cell of a store. *)
Definition cell_of (sd : StoreDir) (dset_name : string) (b l : nat) : option Z :=
  match Scenario.product sd dset_name with
  | Some (DInt2 a) => getitem2 a b l
  | _ => None
  end.

Definition smoothed_cell (sd : StoreDir) (i b l : nat) : option Float.t :=
  match Scenario.product sd "conv_evidence" with
  | Some (DFloat3 a) => getitem3 a i b l
  | _ => None
  end.

(** The member [/pix/<lon>/<lat>] of the table file is an external link
    whose chunk file is missing or has nothing at the target path. *)
Definition broken_link (sd : StoreDir) (t : TableFile) (lon lat : nat) : Prop :=
  exists file lon' lat',
    table_lookup t lon lat = Some (TExternal file lon' lat')
    /\ (sd_chunks sd !! file = None
        \/ exists f, sd_chunks sd !! file = Some f
             /\ chunk_lookup f lon' lat' = None).

(** A computation that reads the state and leaves it as it is. *)
Definition reads_only {S A} (m : M S A) : Prop :=
  forall s, exists r, m s = (s, r) /\ r <> Timeout.

(** The attributes [i_lon] and [i_lat] of a pixel group, where present,
    name the cell the group is stored under. *)
Definition attrs_ok (lon lat : nat) (g : PixGroup) : Prop :=
  (forall a, pg_i_lon g = Some a -> a = lon)
  /\ (forall b, pg_i_lat g = Some b -> b = lat).

Definition attrs_ok_at (lon lat : nat) (f : ChunkFile) : Prop :=
  forall g, chunk_lookup f lon lat = Some (OGroup g) -> attrs_ok lon lat g.

(** A worker step at cell [(lon, lat)] leaves every other member of the
    file alone; what it leaves at the cell is what was there or a group,
    whose attributes are truthful if those before were. *)
Definition keeps (lon lat : nat) (w w' : Worker) : Prop :=
  (forall lon' lat', (lon, lat) <> (lon', lat') ->
     chunk_lookup (wk_file w') lon' lat' = chunk_lookup (wk_file w) lon' lat')
  /\ (forall o', chunk_lookup (wk_file w') lon lat = Some o' ->
        chunk_lookup (wk_file w) lon lat = Some o'
        \/ exists g', o' = OGroup g'
             /\ (attrs_ok_at lon lat (wk_file w) -> attrs_ok lon lat g')).

Definition keeping (lon lat : nat) {A} (m : M Worker A) : Prop :=
  forall w, keeps lon lat w (fst (m w)).

(** Some cube of the stack has a NaN among its samples at the cell. *)
Definition has_nan_sample (stack : CubeStack) (i_lon i_lat : nat) : Prop :=
  exists dcube x, dcube ∈ cubes stack /\ x ∈ dc_data dcube i_lon i_lat
    /\ Float.isnan x = true.

(** Every member of the chunk file is a pixel group with truthful
    attributes, stored under a cell whose spectra have no NaN. *)
Definition file_ok (stack : CubeStack) (f : ChunkFile) : Prop :=
  forall lon lat o, chunk_lookup f lon lat = Some o ->
    snd (get_spectra stack lon lat) = false
    /\ exists g, o = OGroup g /\ attrs_ok lon lat g.

(** An event that is in order whatever the outcome: the evidence it
    shows is finite. *)
Definition event_fine (e : event) : Prop :=
  match e with
  | EvNull _ _ x | EvSampler _ _ _ x => Float.isfinite x = true
  | EvThreshTest _ _ _ x y => Float.isfinite x = true /\ Float.isfinite y = true
  | _ => True
  end.

(** An event in the log of a worker that ended with [r]: a non-finite
    null or sampler evidence means the worker died of an assertion, and
    the threshold test only ever saw finite evidence. *)
Definition event_ok {A} (r : res A) (e : event) : Prop :=
  match e with
  | EvNull _ _ x | EvSampler _ _ _ x =>
      Float.isfinite x = false -> r = Raise AssertionError
  | EvThreshTest _ _ _ x y => Float.isfinite x = true /\ Float.isfinite y = true
  | _ => True
  end.

(** The evidence chain of a pixel, as the loop sees it. *)
Section chain.
Variable runner : Runner.
Variable self : CubeFitter.
Variable spec : SpecData.

(** [old_lnZ] when order [n] is tried. *)
Definition prev_lnZ (n : nat) : Float.t :=
  if n =? 1 then null_lnZ runner spec else run_lnZ runner spec (n - 1).

Definition accepted (n : nat) : Prop :=
  Float.isfinite (run_lnZ runner spec n) = true
  /\ Float.ltb (Float.sub (run_lnZ runner spec n) (prev_lnZ n)) (lnZ_thresh self)
     = false.

Definition rejected (n : nat) : Prop :=
  Float.isfinite (run_lnZ runner spec n) = true
  /\ Float.ltb (Float.sub (run_lnZ runner spec n) (prev_lnZ n)) (lnZ_thresh self)
     = true.

(** The sub-group of order [n] after the dumper wrote into it. *)
Definition dumped (n : nat) : SubGroup :=
  Dumper_write n (null_lnZ runner spec) (run_lnZ runner spec n) empty_subgroup.

(** The sub-groups are those of the orders [1..m], all dumped. *)
Definition subs_upto (m : nat) (subs : gmap nat SubGroup) : Prop :=
  forall i, subs !! i = if decide (1 <= i <= m) then Some (dumped i) else None.
End chain.

(** The evidence persisted for order [i] of a pixel group: the
    [global_lnZ] of sub-group [i], and for the null model the [null_lnZ]
    of the order-1 sub-group. *)
Definition log_evidence (g : PixGroup) (i : nat) : option Float.t :=
  if i =? 0 then sg ← pg_subs g !! 1; sg_null_lnZ sg
  else sg ← pg_subs g !! i; sg_global_lnZ sg.

(** The invariant of the data model: with [nbest = k > 0] the fits of
    the orders [1..k] exist and each improved the evidence by at least
    the threshold; a fit of order [k+1], if there is one, did not. *)
Definition evidence_invariant (lnZ_threshold : Float.t) (g : PixGroup) : Prop :=
  forall k : nat, pg_nbest g = Some (Z.of_nat k) -> 0 < k ->
    (forall i, 1 <= i <= k ->
       exists sg x y, pg_subs g !! i = Some sg /\ sg_ncomp sg = Some i
         /\ log_evidence g i = Some x /\ log_evidence g (i - 1) = Some y
         /\ Float.geb (Float.sub x y) lnZ_threshold = true)
    /\ (is_Some (pg_subs g !! (k + 1)) ->
          exists x y, log_evidence g (k + 1) = Some x /\ log_evidence g k = Some y
            /\ Float.ltb (Float.sub x y) lnZ_threshold = true).

(** What a fit leaves in a group it started from nothing: no [nbest]
    yet, or [nbest] with the dumped sub-groups of the orders tried, all
    accepted up to [nbest] and the one after it, if tried, rejected. *)
Definition well_fitted (runner : Runner) (self : CubeFitter) (spec : SpecData)
    (g : PixGroup) : Prop :=
  pg_nbest g = None
  \/ exists nb m,
       pg_nbest g = Some (Z.of_nat nb)
       /\ subs_upto runner spec m (pg_subs g)
       /\ (1 <= nb -> Float.isfinite (null_lnZ runner spec) = true)
       /\ (forall i, 1 <= i <= nb -> accepted runner self spec i)
       /\ (m = nb \/ (m = nb + 1 /\ rejected runner self spec m)).

(** Every pixel group of the chunk file is [well_fitted] for the spectra
    of its cell. *)
Definition all_fitted (runner : Runner) (self : CubeFitter) (f : ChunkFile) : Prop :=
  forall lon lat g, chunk_lookup f lon lat = Some (OGroup g) ->
    well_fitted runner self (fst (get_spectra (stack self) lon lat)) g.

(** Whatever the table file leads to at [/pix/<lon>/<lat>] is a pixel
    group with truthful attributes, at a cell whose spectra have no NaN. *)
Definition linked_ok (stack : CubeStack) (sd : StoreDir) : Prop :=
  forall t lon lat o,
    sd_table sd = Some t -> getitem sd t lon lat = inr o ->
    snd (get_spectra stack lon lat) = false
    /\ exists g, o = OGroup g /\ attrs_ok lon lat g.

(** The chunk files hold what workers wrote, every member of [/pix] in
    the table file is an external link to the same cell of a chunk file,
    and the attributes [naxis1] and [naxis2], once set, are the spatial
    shape of the stack. *)
Definition store_ok (stack : CubeStack) (sd : StoreDir) : Prop :=
  (forall file f, sd_chunks sd !! file = Some f -> file_ok stack f)
  /\ (forall t lon lat n, sd_table sd = Some t -> table_lookup t lon lat = Some n ->
        exists file, n = TExternal file lon lat)
  /\ (forall t n_lon n_lat, sd_table sd = Some t ->
        t_naxis1 t = Some n_lon -> t_naxis2 t = Some n_lat ->
        stack_spatial_shape stack = Some (n_lon, n_lat)).

Definition keeps_store (stack : CubeStack) {A} (m : M StoreDir A) : Prop :=
  forall sd, store_ok stack sd -> store_ok stack (fst (m sd)).

(** The worker after the skip message for a cell. *)
Definition skipped (lon lat : nat) (w : Worker) : Worker :=
  {| wk_file := wk_file w; wk_log := EvSkip lon lat :: wk_log w |}.

(** The members of a [/pix] tree with their cells. *)
Definition members {A} (pix : option (gmap nat (gmap nat A))) : list (nat * nat * A) :=
  match pix with
  | None => []
  | Some pix =>
      lon_row ← map_to_list pix;
      (fun lat_x => (lon_row.1, lat_x.1, lat_x.2)) <$> map_to_list lon_row.2
  end.

Definition lookup2 {A} (pix : option (gmap nat (gmap nat A))) (lon lat : nat)
  : option A :=
  pix ← pix; row ← pix !! lon; row !! lat.

Definition chunk_members (f : ChunkFile) : list (nat * nat * Obj) :=
  members (cf_pix f).

(** The pixel set of a chunk file: the cells it has members for. *)
Definition pixel_set (f : ChunkFile) : list (nat * nat) := fst <$> chunk_members f.

Definition member_group (x : nat * nat * Obj) : option PixGroup :=
  match x.2 with
  | OGroup g => Some g
  | ODataset => None
  end.

(** The chunk file a path names, and the members of all chunk files,
    each with the name of its file. *)
Definition chunk_file (sd : StoreDir) (p : Path) : ChunkFile :=
  default empty_chunk (sd_chunks sd !! name p).

Definition all_links (sd : StoreDir) (paths : list Path)
  : list (string * (nat * nat * Obj)) :=
  p ← paths; (pair (name p)) <$> chunk_members (chunk_file sd p).

Definition all_members (sd : StoreDir) (paths : list Path) : list (nat * nat * Obj) :=
  snd <$> all_links sd paths.

(** The pixel group behind [/pix/<lon>/<lat>] of the table file. *)
Definition resolve_group (sd : StoreDir) (t : TableFile) (lon lat : nat)
  : option PixGroup :=
  match getitem sd t lon lat with
  | inr (OGroup g) => Some g
  | _ => None
  end.

#[global] Instance Path_eq_dec : EqDecision Path.
Proof. solve_decision. Defined.


(** ** Vocabulary for what a store operation leaves alone *)

(** A computation on the store that takes every state to one related to
    it by [R], whatever its outcome. *)
Definition steps_within (R : StoreDir -> StoreDir -> Prop) {A} (m : M StoreDir A) : Prop :=
  forall sd, R sd (fst (m sd)).

(** Two table files that differ at most under [/pix]. *)
Definition same_attrs (t t' : TableFile) : Prop :=
  t_nchunks t' = t_nchunks t /\ t_naxis1 t' = t_naxis1 t /\ t_naxis2 t' = t_naxis2 t
  /\ t_lnZ_threshold t' = t_lnZ_threshold t
  /\ t_n_max_components t' = t_n_max_components t
  /\ t_headers t' = t_headers t /\ t_products t' = t_products t.

(** Linking only adds members under [/pix] of the table file: the chunk
    files, the handle, the attributes and the products stay, and a member
    of [/pix] that was there is still there. *)
Definition links_only (sd sd' : StoreDir) : Prop :=
  sd_chunks sd' = sd_chunks sd
  /\ sd_open sd' = sd_open sd
  /\ match sd_table sd, sd_table sd' with
     | Some t, Some t' =>
         same_attrs t t'
         /\ forall lon lat n, table_lookup t lon lat = Some n ->
              table_lookup t' lon lat = Some n
     | None, None => True
     | _, _ => False
     end.

(** Every member of the chunk file is linked from the table file. *)
Definition chunk_linked (sd : StoreDir) (f : ChunkFile) : Prop :=
  forall lon lat o, chunk_lookup f lon lat = Some o ->
    exists t n, sd_table sd = Some t /\ table_lookup t lon lat = Some n.

(** The table file of a new store after [fit_cube] has written the
    header and the fitter parameters, before any chunk file is linked. *)
Definition header_table (self : CubeFitter) (nproc n_lon n_lat : nat) : TableFile :=
  {| t_nchunks := Some nproc;
     t_naxis1 := Some n_lon; t_naxis2 := Some n_lat;
     t_lnZ_threshold := Some (lnZ_thresh self);
     t_n_max_components := Some (ncomp_max self);
     t_headers := true; t_pix := None; t_products := ∅ |}.

(** The store handle [fit_cube] makes for a new directory. *)
Definition new_store (store_name : string) (nproc : nat) : HdfStore :=
  {| store_name := store_name; store_dir := check_ext store_name "store";
     nchunks := nproc |}.

(** A store operation that leaves the table file and the handle alone. *)
Definition chunks_only (sd sd' : StoreDir) : Prop :=
  sd_table sd' = sd_table sd /\ sd_open sd' = sd_open sd.

(** The table file, if it had the header groups, still exists and has
    them. *)
Definition headers_stay (sd sd' : StoreDir) : Prop :=
  forall t, sd_table sd = Some t -> t_headers t = true ->
    exists t', sd_table sd' = Some t' /\ t_headers t' = true.

(** Every member of the chunk file lies at one of the cells. *)
Definition members_within (cells : list (nat * nat)) (f : ChunkFile) : Prop :=
  forall lon lat o, chunk_lookup f lon lat = Some o -> (lon, lat) ∈ cells.

(** The index arrays and the chunk path of worker [k], as [fit_cube]
    pairs them up. *)
Definition worker_indices (shape : nat * nat) (nproc k : nat) : list nat * list nat :=
  (Numpy.flatten (Numpy.slice_step k nproc (fst (Numpy.indices shape))),
   Numpy.flatten (Numpy.slice_step k nproc (snd (Numpy.indices shape)))).

Definition worker_path (store : HdfStore) (k : nat) : Path :=
  {| parent := store_dir store; name := chunk_name k |}.

(** The chunk file of worker [k] after the workers ran: it exists, its
    members lie at the worker's pixels, and it has no [/pix] group when
    all those pixels have a NaN sample. *)
Definition worker_file_ok (stack : CubeStack) (shape : nat * nat) (nproc : nat)
    (sd : StoreDir) (k : nat) : Prop :=
  exists f, sd_chunks sd !! chunk_name k = Some f
    /\ members_within (chunk_pixels (worker_indices shape nproc k)) f
    /\ ((forall lon lat, (lon, lat) ∈ chunk_pixels (worker_indices shape nproc k) ->
           has_nan_sample stack lon lat) -> cf_pix f = None).

(** What a completed fit leaves in the group of a pixel: the three
    attributes, with [nbest] the number of leading orders that each
    improved the evidence by the threshold, at most [ncomp_max]; the order
    after [nbest], unless [nbest] is [ncomp_max], was tried and rejected;
    and the sub-groups are those of the orders tried, all dumped. *)
Definition fit_outcome (runner : Runner) (self : CubeFitter) (spec : SpecData)
    (lon lat : nat) (g : PixGroup) : Prop :=
  exists nb,
    pg_i_lon g = Some lon /\ pg_i_lat g = Some lat
    /\ pg_nbest g = Some (Z.of_nat nb)
    /\ nb <= ncomp_max self
    /\ (forall i, 1 <= i <= nb -> accepted runner self spec i)
    /\ (nb < ncomp_max self -> rejected runner self spec (nb + 1))
    /\ subs_upto runner spec (Nat.min (nb + 1) (ncomp_max self)) (pg_subs g).

(** A computation that neither reads nor writes the state. *)
Definition pure_step {S A} (m : M S A) : Prop :=
  exists r, r <> Timeout /\ forall s, m s = (s, r).

(** The table file after [aggregate_run_attributes] wrote its products. *)
Definition with_products (t : TableFile) (nb : list (list Z))
    (ev : list (list (list Float.t))) : TableFile :=
  table_set_products t
    (<["evidence" := DFloat3 ev]> (<["nbest" := DInt2 nb]> (t_products t))).

(** The arrays of [aggregate_run_attributes] before the first group. *)
Definition empty_maps (n_lon n_lat ncomp_max : nat)
  : list (list Z) * list (list (list Float.t)) :=
  (full2 n_lon n_lat (-1)%Z, full3 n_lon n_lat (ncomp_max + 1) Float.NaN).

(** A 2-D array of [n] rows of [m] entries, a 3-D array of [k] such
    planes. *)
Definition has_shape2 {A} (n m : nat) (a : list (list A)) : Prop :=
  length a = n /\ Forall (fun row => length row = m) a.
Definition has_shape3 {A} (k n m : nat) (a : list (list (list A))) : Prop :=
  length a = k /\ Forall (has_shape2 n m) a.

(** ** FITS headers

    A header as the code reads it: keyword to value.  Keywords are the
    upper-case ASCII names of the FITS standard, values are logicals,
    integers, floats or strings. *)
Inductive HVal :=
  | HBool (b : bool)
  | HInt (z : Z)
  | HFloat (x : Float.t)
  | HStr (s : string).

Abbreviation Header := (gmap string HVal).

(** How [simple_header] can fail: a keyword is missing ([KeyError]), a
    [CTYPE] value is no string and has no [split] ([AttributeError]), or
    an assertion on the coordinate type fails. *)
Inductive header_error :=
  | HKeyError (k : string)
  | HAttributeError
  | HAssertionError.

Definition simple_keys : list string :=
  ["SIMPLE"; "BITPIX"; "NAXIS"; "NAXIS1"; "NAXIS2"; "WCSAXES";
   "CRPIX1"; "CRPIX2"; "CDELT1"; "CDELT2"; "CUNIT1"; "CUNIT2";
   "CTYPE1"; "CTYPE2"; "CRVAL1"; "CRVAL2"; "RADESYS"; "EQUINOX"].

Definition coord_sys : list string := ["ra"; "dec"; "lon"; "lat"].

(** [{k: self._header[k] for k in keys}]: the first missing keyword
    raises. *)
Fixpoint pick_keys (hdr : Header) (keys : list string) (hdict : Header)
  : header_error + Header :=
  match keys with
  | [] => inr hdict
  | k :: rest =>
      match hdr !! k with
      | None => inl (HKeyError k)
      | Some v => pick_keys hdr rest (<[k := v]> hdict)
      end
  end.

(** [s.split('-')[0]] and [s.lower()] on ASCII strings. *)
Definition dash : Ascii.ascii := Ascii.ascii_of_nat 45.

Fixpoint before_dash (s : string) : string :=
  match s with
  | EmptyString => EmptyString
  | String c rest =>
      if Ascii.eqb c dash then EmptyString else String c (before_dash rest)
  end.

Definition lower_char (c : Ascii.ascii) : Ascii.ascii :=
  let n := Ascii.nat_of_ascii c in
  if (65 <=? n) && (n <=? 90) then Ascii.ascii_of_nat (n + 32) else c.

Fixpoint lower (s : string) : string :=
  match s with
  | EmptyString => EmptyString
  | String c rest => String (lower_char c) (lower rest)
  end.

(** [hdict[key].split('-')[0].lower() in coord_sys] *)
Definition ctype_in_coord_sys (hdict : Header) (key : string)
  : header_error + bool :=
  match hdict !! key with
  | None => inl (HKeyError key)
  | Some (HStr s) => inr (bool_decide (lower (before_dash s) ∈ coord_sys))
  | Some _ => inl HAttributeError
  end.

(** [DataCube.simple_header] (main.py 159-182; core.py 164-187 is the
    same text), which [CubeStack.simple_header] hands on for its first
    cube. *)
Definition simple_header (header : Header) : header_error + Header :=
  match pick_keys header simple_keys ∅ with
  | inl e => inl e
  | inr hdict =>
      let hdict := <["NAXIS" := HInt 2]> hdict in
      let hdict := <["WCSAXES" := HInt 2]> hdict in
      match ctype_in_coord_sys hdict "CTYPE1" with
      | inl e => inl e
      | inr false => inl HAssertionError
      | inr true =>
          match ctype_in_coord_sys hdict "CTYPE2" with
          | inl e => inl e
          | inr false => inl HAssertionError
          | inr true => inr hdict
          end
      end
  end.

(** The header of a cube in equatorial coordinates, and the same with
    galactic axes. *)
Definition equatorial_header : Header :=
  list_to_map
    [("SIMPLE", HBool true); ("BITPIX", HInt (-32)); ("NAXIS", HInt 3);
     ("NAXIS1", HInt 40); ("NAXIS2", HInt 40); ("NAXIS3", HInt 500);
     ("WCSAXES", HInt 3);
     ("CRPIX1", HFloat (Float.of_Z 20)); ("CRPIX2", HFloat (Float.of_Z 20));
     ("CDELT1", HFloat (Float.of_Z (-1))); ("CDELT2", HFloat (Float.of_Z 1));
     ("CUNIT1", HStr "deg"); ("CUNIT2", HStr "deg");
     ("CTYPE1", HStr "RA---SIN"); ("CTYPE2", HStr "DEC--SIN");
     ("CTYPE3", HStr "FREQ");
     ("CRVAL1", HFloat (Float.of_Z 278)); ("CRVAL2", HFloat (Float.of_Z (-8)));
     ("RADESYS", HStr "FK5"); ("EQUINOX", HFloat (Float.of_Z 2000));
     ("BUNIT", HStr "K")].

Definition galactic_header : Header :=
  <["CTYPE1" := HStr "GLON-CAR"]> (<["CTYPE2" := HStr "GLAT-CAR"]> equatorial_header).
Section strided.
Context {A : Type}.
Implicit Types l : list A.

Lemma every_lookup step wait l j :
  1 <= step ->
  Numpy.every step wait l !! j = l !! (wait + j * step).
Proof.
  intros Hs. revert wait j.
  induction l as [|x l IH]; intros wait j; simpl.
  - by rewrite !lookup_nil.
  - destruct wait as [|w].
    + destruct j as [|j]; simpl; [done|].
      rewrite IH. destruct step as [|s]; [lia|]. simpl.
      f_equal. lia.
    + by rewrite IH.
Qed.

Lemma every_sublist step wait l :
  Numpy.every step wait l `sublist_of` l.
Proof.
  revert wait. induction l as [|x l IH]; intros wait; simpl.
  - constructor.
  - destruct wait; [apply sublist_skip | apply sublist_cons]; apply IH.
Qed.

Lemma every_length step wait l :
  1 <= step ->
  length (Numpy.every step wait l) = (length l + step - 1 - wait) / step.
Proof.
  intros Hs. revert wait.
  induction l as [|x l IH]; intros wait; cbn [Numpy.every length].
  - symmetry. apply Nat.div_small. lia.
  - destruct wait as [|w]; cbn [length]; rewrite IH.
    + replace (S (length l) + step - 1 - 0) with
        (length l + step - 1 - (step - 1) + 1 * step) by lia.
      rewrite Nat.div_add by lia. lia.
    + f_equal. lia.
Qed.
End strided.

Lemma every_fmap {A B} (f : A -> B) step wait (l : list A) :
  Numpy.every step wait (f <$> l) = f <$> Numpy.every step wait l.
Proof.
  revert wait. induction l as [|x l IH]; intros wait; simpl; [done|].
  destruct wait; simpl; by rewrite IH.
Qed.

Lemma elem_of_every_seq step i n x :
  1 <= step -> i < step ->
  x ∈ Numpy.every step i (seq 0 n) <-> x < n /\ x mod step = i.
Proof.
  intros Hs Hi. rewrite list_elem_of_lookup. split.
  - intros [j Hj]. rewrite every_lookup in Hj by done.
    apply lookup_seq in Hj as [-> Hlt]. split; [lia|].
    simpl. rewrite Nat.Div0.mod_add. by apply Nat.mod_small.
  - intros [Hx Hm]. exists (x / step).
    rewrite every_lookup by done.
    apply lookup_seq. split; [|pose proof (Nat.div_mod_eq x step); nia].
    pose proof (Nat.div_mod_eq x step). simpl. nia.
Qed.

Lemma every_seq_NoDup step i n : NoDup (Numpy.every step i (seq 0 n)).
Proof. eapply sublist_NoDup; [apply NoDup_seq | apply every_sublist]. Qed.

Lemma zip_rows (n_lat : nat) (rows : list nat) :
  zip (Numpy.flatten ((fun i => replicate n_lat i) <$> rows))
      (Numpy.flatten ((fun _ => seq 0 n_lat) <$> rows))
  = rows ≫= (fun lon => (pair lon) <$> seq 0 n_lat).
Proof.
  unfold Numpy.flatten.
  induction rows as [|r rows IH]; [done|].
  cbn [fmap list_fmap concat mbind list_bind].
  rewrite zip_with_app by (by rewrite length_replicate, length_seq).
  rewrite IH. f_equal.
  generalize 0. clear IH.
  induction n_lat as [|n IHn]; intros k; simpl; [done|]. by rewrite IHn.
Qed.

Lemma get_multiproc_indices_lookup shape nproc i :
  i < nproc ->
  get_multiproc_indices shape nproc !! i
  = Some (Numpy.flatten (Numpy.slice_step i nproc (fst (Numpy.indices shape))),
          Numpy.flatten (Numpy.slice_step i nproc (snd (Numpy.indices shape)))).
Proof.
  intros Hi. unfold get_multiproc_indices. destruct shape as [n0 n1]. simpl.
  rewrite list_lookup_fmap, lookup_seq_lt by done. done.
Qed.

Lemma chunk_pixels_strided shape nproc i ix :
  get_multiproc_indices shape nproc !! i = Some ix ->
  chunk_pixels ix = strided_cells shape nproc i.
Proof.
  intros Hix.
  assert (i < nproc) as Hi.
  { apply lookup_lt_Some in Hix. unfold get_multiproc_indices in Hix.
    destruct shape. simpl in Hix. by rewrite length_fmap, length_seq in Hix. }
  rewrite get_multiproc_indices_lookup in Hix by done.
  injection Hix as <-. destruct shape as [n0 n1].
  unfold chunk_pixels, strided_cells, Numpy.slice_step. simpl.
  rewrite (every_fmap (fun i => replicate n1 i)).
  rewrite (every_fmap (fun _ => seq 0 n1)).
  apply zip_rows.
Qed.

Lemma elem_of_strided_cells n_lon n_lat nproc i lon lat :
  1 <= nproc -> i < nproc ->
  (lon, lat) ∈ strided_cells (n_lon, n_lat) nproc i
  <-> lon < n_lon /\ lat < n_lat /\ lon mod nproc = i.
Proof.
  intros Hn Hi. unfold strided_cells, Numpy.slice_step. simpl.
  rewrite list_elem_of_bind. split.
  - intros (r & Hin & Hr). apply list_elem_of_fmap in Hin as (c & [= -> ->] & Hc).
    apply elem_of_every_seq in Hr as [? ?]; [|done..].
    apply elem_of_seq in Hc. lia.
  - intros (Hlon & Hlat & Hm). exists lon. split.
    + apply list_elem_of_fmap. exists lat. split; [done|]. apply elem_of_seq. lia.
    + by apply elem_of_every_seq.
Qed.

Lemma strided_cells_NoDup shape nproc i : NoDup (strided_cells shape nproc i).
Proof.
  unfold strided_cells, Numpy.slice_step. apply NoDup_bind.
  - intros x1 x2 [a b] _ _ H1 H2.
    apply list_elem_of_fmap in H1 as (? & [= -> ->] & _).
    by apply list_elem_of_fmap in H2 as (? & [= -> _] & _).
  - intros x _. apply NoDup_fmap; [by intros ?? [=]|]. apply NoDup_seq.
  - apply every_seq_NoDup.
Qed.

Lemma strided_cells_length n_lon n_lat nproc i :
  1 <= nproc ->
  length (strided_cells (n_lon, n_lat) nproc i)
  = n_lat * ((n_lon + nproc - 1 - i) / nproc).
Proof.
  intros Hn. unfold strided_cells, Numpy.slice_step. simpl.
  pose proof (every_length nproc i (seq 0 n_lon) Hn) as Hlen.
  rewrite length_seq in Hlen. rewrite <- Hlen. clear Hlen.
  induction (Numpy.every nproc i (seq 0 n_lon)) as [|r rows IH]; [simpl; lia|].
  rewrite bind_cons, length_app, length_fmap, length_seq, IH. simpl. lia.
Qed.

Lemma grid_cells_NoDup shape : NoDup (grid_cells shape).
Proof.
  unfold grid_cells. apply NoDup_bind.
  - intros x1 x2 [a b] _ _ H1 H2.
    apply list_elem_of_fmap in H1 as (? & [= -> ->] & _).
    by apply list_elem_of_fmap in H2 as (? & [= -> _] & _).
  - intros x _. apply NoDup_fmap; [by intros ?? [=]|]. apply NoDup_seq.
  - apply NoDup_seq.
Qed.

Lemma elem_of_grid_cells n_lon n_lat lon lat :
  (lon, lat) ∈ grid_cells (n_lon, n_lat) <-> lon < n_lon /\ lat < n_lat.
Proof.
  unfold grid_cells. simpl. rewrite list_elem_of_bind. split.
  - intros (r & Hin & Hr). apply list_elem_of_fmap in Hin as (c & [= -> ->] & Hc).
    apply elem_of_seq in Hr, Hc. lia.
  - intros [? ?]. exists lon. split; [|apply elem_of_seq; lia].
    apply list_elem_of_fmap. exists lat. split; [done|]. apply elem_of_seq. lia.
Qed.

Lemma concat_fmap_bind {A B} (f : A -> list B) (l : list A) :
  concat (f <$> l) = l ≫= f.
Proof.
  induction l as [|x l IH]; [done|].
  rewrite fmap_cons, bind_cons. simpl. by rewrite IH.
Qed.

Lemma all_chunks_strided shape nproc :
  chunk_pixels <$> get_multiproc_indices shape nproc
  = strided_cells shape nproc <$> seq 0 nproc.
Proof.
  apply list_eq. intros i. rewrite !list_lookup_fmap.
  destruct (decide (i < nproc)) as [Hi|Hi].
  - rewrite get_multiproc_indices_lookup, lookup_seq_lt by done. simpl.
    f_equal. eapply chunk_pixels_strided, get_multiproc_indices_lookup, Hi.
  - rewrite (lookup_ge_None_2 (seq 0 nproc)) by (rewrite length_seq; lia).
    rewrite lookup_ge_None_2; [done|].
    unfold get_multiproc_indices. destruct shape. simpl.
    rewrite length_fmap, length_seq. lia.
Qed.

(** C7. For every 2-D grid shape and every [nproc >= 1],
    [get_multiproc_indices] returns [nproc] index sets; set [i] is the
    strided selection [i::nproc] of the longitude rows (a cell belongs to
    it exactly when its longitude is congruent to [i] modulo [nproc]); the
    sets are pairwise disjoint, their sizes differ by at most one row of
    [n_lat] cells, and together they list every grid cell exactly once. *)
Theorem get_multiproc_indices_partition (n_lon n_lat nproc : nat) :
  1 <= nproc ->
  let idx := get_multiproc_indices (n_lon, n_lat) nproc in
  length idx = nproc
  /\ (forall i ix, idx !! i = Some ix ->
        chunk_pixels ix = strided_cells (n_lon, n_lat) nproc i
        /\ NoDup (chunk_pixels ix)
        /\ (forall lon lat, (lon, lat) ∈ chunk_pixels ix
              <-> lon < n_lon /\ lat < n_lat /\ lon mod nproc = i)
        /\ length (chunk_pixels ix) = n_lat * ((n_lon + nproc - 1 - i) / nproc))
  /\ (forall i j ixi ixj, idx !! i = Some ixi -> idx !! j = Some ixj ->
        length (chunk_pixels ixi) <= length (chunk_pixels ixj) + n_lat)
  /\ (forall i j ixi ixj p, idx !! i = Some ixi -> idx !! j = Some ixj ->
        i <> j -> p ∈ chunk_pixels ixi -> p ∉ chunk_pixels ixj)
  /\ concat (chunk_pixels <$> idx) ≡ₚ grid_cells (n_lon, n_lat).
Proof.
  intros Hn idx.
  assert (length idx = nproc) as Hlen.
  { unfold idx, get_multiproc_indices. simpl. by rewrite length_fmap, length_seq. }
  assert (forall i ix, idx !! i = Some ix ->
            i < nproc /\ chunk_pixels ix = strided_cells (n_lon, n_lat) nproc i) as Hch.
  { intros i ix Hix. split; [apply lookup_lt_Some in Hix; lia|].
    by apply chunk_pixels_strided. }
  split; [done|]. split; [|split; [|split]].
  - intros i ix Hix. destruct (Hch _ _ Hix) as [Hi ->].
    split; [done|]. split; [apply strided_cells_NoDup|].
    split; [intros; by apply elem_of_strided_cells | by apply strided_cells_length].
  - intros i j ixi ixj Hi Hj.
    destruct (Hch _ _ Hi) as [Hi' ->]. destruct (Hch _ _ Hj) as [Hj' ->].
    rewrite !strided_cells_length by done.
    assert ((n_lon + nproc - 1 - i) / nproc <= (n_lon + nproc - 1 - j) / nproc + 1);
      [|nia].
    rewrite <- (Nat.div_add _ 1 nproc) by lia.
    apply Nat.Div0.div_le_mono. lia.
  - intros i j ixi ixj [lon lat] Hi Hj Hne.
    destruct (Hch _ _ Hi) as [Hi' ->]. destruct (Hch _ _ Hj) as [Hj' ->].
    rewrite !elem_of_strided_cells by done. lia.
  - unfold idx. rewrite all_chunks_strided.
    apply NoDup_Permutation.
    + rewrite concat_fmap_bind.
      apply NoDup_bind; [| intros; apply strided_cells_NoDup | apply NoDup_seq].
      intros i j [lon lat] Hi Hj.
      apply elem_of_seq in Hi, Hj.
      rewrite !elem_of_strided_cells by lia. lia.
    + apply grid_cells_NoDup.
    + intros [lon lat]. rewrite elem_of_grid_cells.
      rewrite concat_fmap_bind, list_elem_of_bind. split.
      * intros (i & Hin & Hi). apply elem_of_seq in Hi.
        apply elem_of_strided_cells in Hin; lia.
      * intros Hc. exists (lon mod nproc).
        assert (lon mod nproc < nproc) by (apply Nat.mod_upper_bound; lia).
        split; [apply elem_of_strided_cells; lia | apply elem_of_seq; lia].
Qed.

Lemma get_multiproc_indices_partition_witness :
  let idx := get_multiproc_indices (5, 2) 3 in
  idx = [ ([0; 0; 3; 3], [0; 1; 0; 1]);
          ([1; 1; 4; 4], [0; 1; 0; 1]);
          ([2; 2], [0; 1]) ]
  /\ concat (chunk_pixels <$> idx) ≡ₚ grid_cells (5, 2).
Proof.
  split; [reflexivity|].
  apply (get_multiproc_indices_partition 5 2 3). lia.
Defined.

(** ** Evidence values: order facts *)

Lemma float_not_lt_ge (x y thr : Float.t) :
  Float.isfinite x = true -> Float.isfinite y = true ->
  Float.isnan thr = false ->
  Float.ltb (Float.sub x y) thr = false ->
  Float.leb thr (Float.sub x y) = true.
Proof.
  destruct x as [a| | |], y as [b| | |], thr as [t| | |]; simpl; try done.
  intros _ _ _ H. apply negb_false_iff in H.
  apply Qle_bool_iff in H. by apply Qle_bool_iff.
Qed.

Lemma float_lt_not_ge (x thr : Float.t) :
  Float.ltb x thr = true -> Float.leb thr x = false.
Proof.
  destruct x as [a| | |], thr as [t| | |]; simpl; try done.
  intros H. apply negb_true_iff in H.
  destruct (Qle_bool t a) eqn:E; [|done]. congruence.
Qed.

(** ** Members of a chunk file *)

Lemma chunk_lookup_insert f lon lat o lon' lat' :
  chunk_lookup (chunk_insert f lon lat o) lon' lat'
  = if decide (lon = lon' /\ lat = lat') then Some o else chunk_lookup f lon' lat'.
Proof.
  unfold chunk_lookup, chunk_insert. simpl.
  destruct (decide (lon = lon')) as [->|Hlon].
  - rewrite lookup_insert_eq. simpl.
    destruct (decide (lat = lat')) as [->|Hlat].
    + rewrite lookup_insert_eq. by rewrite decide_True.
    + rewrite lookup_insert_ne by done. rewrite decide_False by (by intros [_ ?]).
      destruct (cf_pix f) as [pix|]; simpl; [|done].
      by destruct (pix !! lon').
  - rewrite lookup_insert_ne by done. rewrite decide_False by (by intros [? _]).
    by destruct (cf_pix f).
Qed.

Lemma chunk_lookup_insert_eq f lon lat o :
  chunk_lookup (chunk_insert f lon lat o) lon lat = Some o.
Proof. rewrite chunk_lookup_insert. by rewrite decide_True. Qed.

Lemma chunk_lookup_insert_ne f lon lat o lon' lat' :
  (lon, lat) <> (lon', lat') ->
  chunk_lookup (chunk_insert f lon lat o) lon' lat' = chunk_lookup f lon' lat'.
Proof.
  intros Hne. rewrite chunk_lookup_insert. rewrite decide_False; [done|].
  intros [-> ->]. done.
Qed.

Lemma chunk_lookup_empty lon lat : chunk_lookup empty_chunk lon lat = None.
Proof. done. Qed.

(** ** C10: the persisted number of chunks *)

(** C10. When the table file already carries the attribute [nchunks],
    the constructor ignores its [nchunks] argument: the store adopts the
    persisted value, the table file is left as it was, the chunk paths are
    [<store_dir>/chunk<i>.hdf] for [i] below the persisted value, and a
    reopening with any other argument gives the same chunk paths. *)
Theorem HdfStore_init_adopts_nchunks (sd : StoreDir) (t : TableFile)
    (n : nat) (name1 : string) (arg1 arg2 : nat) :
  sd_table sd = Some t ->
  t_nchunks t = Some n ->
  exists sd1 store1 sd2 store2,
    HdfStore_init name1 arg1 sd = (sd1, Return store1)
    /\ nchunks store1 = n
    /\ sd_table sd1 = Some t
    /\ chunk_paths store1
       = (fun i => {| parent := check_ext name1 "store"; name := chunk_name i |})
           <$> seq 0 n
    /\ HdfStore_init name1 arg2 sd1 = (sd2, Return store2)
    /\ nchunks store2 = n
    /\ chunk_paths store2 = chunk_paths store1.
Proof.
  intros Ht Hn.
  unfold HdfStore_init, bind, get, set_table, set_open, modify, ret.
  simpl. rewrite Ht. simpl. rewrite Hn.
  eexists _, _, _, _. split; [reflexivity|]. simpl. rewrite Hn.
  repeat split; reflexivity.
Qed.

Lemma HdfStore_init_adopts_nchunks_witness :
  let t := table_set_nchunks empty_table 3 in
  let sd := {| sd_table := Some t; sd_open := false; sd_chunks := ∅ |} in
  exists sd1 store1 sd2 store2,
    HdfStore_init "run/test_cube" 8 sd = (sd1, Return store1)
    /\ nchunks store1 = 3
    /\ sd_table sd1 = Some t
    /\ chunk_paths store1
       = (fun i => {| parent := "run/test_cube.store"; name := chunk_name i |})
           <$> seq 0 3
    /\ HdfStore_init "run/test_cube" 1 sd1 = (sd2, Return store2)
    /\ nchunks store2 = 3
    /\ chunk_paths store2 = chunk_paths store1.
Proof.
  intros t sd.
  exact (HdfStore_init_adopts_nchunks sd t 3 "run/test_cube" 8 1
           eq_refl eq_refl).
Defined.

(** The first opening of a fresh directory persists the argument, and
    later openings keep it. *)
Lemma HdfStore_init_fresh (sd : StoreDir) (name1 : string) (arg : nat) :
  sd_table sd = None ->
  exists sd1,
    HdfStore_init name1 arg sd
    = (sd1, Return {| store_name := name1; store_dir := check_ext name1 "store";
                      nchunks := arg |})
    /\ sd_table sd1 = Some (table_set_nchunks empty_table arg)
    /\ sd_open sd1 = true /\ sd_chunks sd1 = sd_chunks sd.
Proof.
  intros Ht.
  unfold HdfStore_init, bind, get, set_table, set_open, modify, ret.
  simpl. rewrite Ht. simpl. eexists. split; [reflexivity|]. done.
Qed.

(** ** C1: the 2 x 2 run *)


(** ** Re-selection on smoothed maps *)

Section arrays.
Context {A B C : Type}.

Lemma getitem2_zip2d (f : A -> B -> C) a b i j :
  getitem2 (zip2d f a b) i j
  = match getitem2 a i j, getitem2 b i j with
    | Some x, Some y => Some (f x y)
    | _, _ => None
    end.
Proof.
  unfold getitem2, zip2d. rewrite lookup_zip_with.
  destruct (a !! i) as [ra|]; simpl; [|done].
  destruct (b !! i) as [rb|]; simpl.
  - rewrite lookup_zip_with. destruct (ra !! j), (rb !! j); done.
  - by destruct (ra !! j).
Qed.

Lemma getitem2_map2d (f : A -> B) a i j :
  getitem2 (map2d f a) i j = f <$> getitem2 a i j.
Proof.
  unfold getitem2, map2d. rewrite list_lookup_fmap.
  destruct (a !! i) as [ra|]; simpl; [|done]. by rewrite list_lookup_fmap.
Qed.
End arrays.

Lemma wrap32_small (z : Z) :
  (-2147483648 <= z < 2147483648)%Z -> wrap32 z = z.
Proof.
  intros Hz. unfold wrap32.
  rewrite Z.mod_small by lia. lia.
Qed.

Lemma getitem3_layer {A} (a : list (list (list A))) i j k plane :
  a !! i = Some plane -> getitem3 a i j k = getitem2 plane j k.
Proof. intros H. unfold getitem3. by rewrite H. Qed.

Section main_reselect.
Variable lnZ_thresh : Float.t.
Variable cdata : list (list (list Float.t)).
Variables b l : nat.

Lemma main_step_cell conv conv' i c' :
  MainConv.step lnZ_thresh cdata conv i = Some conv' ->
  getitem2 conv' b l = Some c' ->
  exists c, getitem2 conv b l = Some c
    /\ ((c = Z.of_nat i /\ passed lnZ_thresh cdata b l i /\ c' = wrap32 (c + 1))
        \/ ((c <> Z.of_nat i \/ ~ passed lnZ_thresh cdata b l i) /\ c' = c)).
Proof.
  unfold MainConv.step. intros Hstep Hc'.
  destruct (cdata !! (i + 1)) as [hi|] eqn:Hhi; simpl in Hstep; [|done].
  destruct (cdata !! i) as [lo|] eqn:Hlo; simpl in Hstep; [|done].
  injection Hstep as <-.
  rewrite getitem2_zip2d, getitem2_zip2d, getitem2_map2d, getitem2_zip2d in Hc'.
  destruct (getitem2 conv b l) as [c|] eqn:Hc; simpl in Hc'; [|done].
  destruct (getitem2 hi b l) as [x|] eqn:Hx; simpl in Hc'; [|done].
  destruct (getitem2 lo b l) as [y|] eqn:Hy; simpl in Hc'; [|done].
  injection Hc' as <-. exists c. split; [done|].
  destruct (Z.eqb_spec c (Z.of_nat i)) as [Heq|Hne]; simpl.
  - destruct (Float.gtb (Float.sub x y) lnZ_thresh) eqn:Hgt.
    + left. split; [done|]. split; [|done]. exists x, y.
      by rewrite (getitem3_layer _ _ _ _ _ Hhi), (getitem3_layer _ _ _ _ _ Hlo).
    + right. split; [|done]. right. intros (x' & y' & Hx' & Hy' & Hp).
      rewrite (getitem3_layer _ _ _ _ _ Hhi) in Hx'.
      rewrite (getitem3_layer _ _ _ _ _ Hlo) in Hy'. congruence.
  - right. split; [by left|done].
Qed.

(** Walking the orders [s, s+1, ..., s+k-1]: a cell that stands at
    [s] climbs while the increments pass and stops at the first that
    fails; a cell below [s] has stopped and stays. *)
Lemma main_steps_cell k : forall s conv conv' c',
  (Z.of_nat (s + k) < 2147483647)%Z ->
  MainConv.steps lnZ_thresh cdata conv (seq s k) = Some conv' ->
  getitem2 conv' b l = Some c' ->
  exists c, getitem2 conv b l = Some c
    /\ ((c < Z.of_nat s)%Z -> c' = c)
    /\ (c = Z.of_nat s ->
          (Z.of_nat s <= c' <= Z.of_nat (s + k))%Z
          /\ (forall i, s <= i -> (Z.of_nat i < c')%Z -> passed lnZ_thresh cdata b l i)
          /\ ((c' < Z.of_nat (s + k))%Z ->
                forall i, Z.of_nat i = c' -> ~ passed lnZ_thresh cdata b l i)).
Proof.
  induction k as [|k IH]; intros s conv conv' c' Hbound Hsteps Hc'.
  - simpl in Hsteps. injection Hsteps as <-. exists c'. split; [done|].
    split; [done|]. intros ->. split; [lia|]. split; intros; lia.
  - simpl in Hsteps.
    destruct (MainConv.step lnZ_thresh cdata conv s) as [conv1|] eqn:Hstep;
      simpl in Hsteps; [|done].
    destruct (IH (S s) conv1 conv' c' ltac:(lia) Hsteps Hc')
      as (c1 & Hc1 & Hlow & Hat).
    destruct (main_step_cell _ _ _ _ Hstep Hc1) as (c & Hc & Hcase).
    exists c. split; [done|]. split.
    + intros Hlt. destruct Hcase as [(-> & _)|[_ ->]]; [lia|]. apply Hlow. lia.
    + intros ->. destruct Hcase as [(_ & Hp & ->)|[[?|Hnp] ->]]; [| done |].
      * rewrite wrap32_small in Hat by lia.
        destruct Hat as (Hr & Hall & Hstop); [lia|].
        split; [lia|]. split.
        -- intros i Hi Hlt. destruct (decide (i = s)) as [->|]; [done|].
           apply Hall; lia.
        -- intros Hlt. apply Hstop. lia.
      * rewrite (Hlow ltac:(lia)). split; [lia|]. split; [intros; lia|].
        intros _ i Hi. by replace i with s by lia.
Qed.
End main_reselect.

(** [MainConv.reselect] at one cell: the walk from 0, the refill of the
    sentinel and the guard. *)
Lemma main_reselect_cell ncomp_max lnZ_thresh cdata nbest conv b l n c :
  (Z.of_nat ncomp_max < 2147483647)%Z ->
  (-1 <= n < 2147483648)%Z ->
  MainConv.reselect ncomp_max lnZ_thresh cdata nbest = Some conv ->
  getitem2 nbest b l = Some n ->
  getitem2 conv b l = Some c ->
  exists w,
    (0 <= w <= Z.of_nat ncomp_max)%Z
    /\ (forall i, (Z.of_nat i < w)%Z -> passed lnZ_thresh cdata b l i)
    /\ ((w < Z.of_nat ncomp_max)%Z ->
          forall i, Z.of_nat i = w -> ~ passed lnZ_thresh cdata b l i)
    /\ c = (if decide (n = -1) then -1 else Z.min w (n + 1))%Z.
Proof.
  intros Hmax Hn. unfold MainConv.reselect. intros Hres Hnb Hc.
  destruct (cdata !! 0) as [first|] eqn:Hfirst; simpl in Hres; [|done].
  destruct (MainConv.steps lnZ_thresh cdata _ (seq 0 ncomp_max))
    as [conv1|] eqn:Hsteps; simpl in Hres; [|done].
  injection Hres as <-.
  rewrite getitem2_zip2d, getitem2_zip2d, getitem2_zip2d, getitem2_zip2d,
    getitem2_zip2d, Hnb in Hc.
  destruct (getitem2 conv1 b l) as [w|] eqn:Hw; simpl in Hc; [|done].
  injection Hc as <-.
  destruct (main_steps_cell lnZ_thresh cdata b l ncomp_max 0 _ _ _
              ltac:(simpl; lia) Hsteps Hw) as (c0 & Hc0 & _ & Hat).
  rewrite getitem2_map2d in Hc0.
  destruct (getitem2 first b l); simpl in Hc0; [|done].
  injection Hc0 as <-.
  destruct (Hat eq_refl) as (Hr & Hall & Hstop). simpl in Hr.
  exists w. split; [lia|]. split; [intros; apply Hall; lia|].
  split; [intros; by apply Hstop|].
  destruct (Z.eqb_spec n (-1)) as [->|Hne].
  - rewrite decide_True by done. simpl. done.
  - rewrite decide_False by done.
    rewrite wrap32_small by lia.
    destruct (Z.leb_spec 2 (w - n)); [rewrite wrap32_small by lia|]; lia.
Qed.

(** main.py keeps what C3 asks: the smoothed order exceeds the raw one by
    at most 1 where the raw order is not the sentinel, and it is the
    sentinel exactly where the raw order is. *)
Lemma main_reselect_clamped ncomp_max lnZ_thresh cdata nbest conv b l n c :
  (Z.of_nat ncomp_max < 2147483647)%Z ->
  (-1 <= n < 2147483648)%Z ->
  MainConv.reselect ncomp_max lnZ_thresh cdata nbest = Some conv ->
  getitem2 nbest b l = Some n ->
  getitem2 conv b l = Some c ->
  (n <> -1 -> c <= n + 1)%Z /\ (c = -1 <-> n = -1)%Z.
Proof.
  intros Hmax Hn Hres Hnb Hc.
  destruct (main_reselect_cell _ _ _ _ _ _ _ _ _ Hmax Hn Hres Hnb Hc)
    as (w & Hw & _ & _ & ->).
  destruct (decide (n = -1)%Z); lia.
Qed.

(** main.py keeps what C4 asks: every increment below the selected order
    passed the threshold test. *)
Lemma main_reselect_prefix ncomp_max lnZ_thresh cdata nbest conv b l n c :
  (Z.of_nat ncomp_max < 2147483647)%Z ->
  (-1 <= n < 2147483648)%Z ->
  MainConv.reselect ncomp_max lnZ_thresh cdata nbest = Some conv ->
  getitem2 nbest b l = Some n ->
  getitem2 conv b l = Some c ->
  forall i, (Z.of_nat i < c)%Z -> passed lnZ_thresh cdata b l i.
Proof.
  intros Hmax Hn Hres Hnb Hc i Hi.
  destruct (main_reselect_cell _ _ _ _ _ _ _ _ _ Hmax Hn Hres Hnb Hc)
    as (w & Hw & Hall & _ & ->).
  apply Hall. destruct (decide (n = -1)%Z); lia.
Qed.

(** *** core.py on the maps of the 2 x 2 run *)

(** C3, at the failing input.  On the maps of the 2 x 2 run,
    [convolve_evidence] of core.py has no guard and no refill: the cell
    with raw order 0 gets the smoothed order 2, and the unfit cell (raw
    order -1) gets the smoothed order 1. *)
Theorem core_convolve_evidence_overshoots :
  let '(sd, r) := CoreConv.convolve_evidence Smoothing.convolve_fft Smoothing.store in
  r = Return tt
  /\ Scenario.product sd "nbest" = Some (DInt2 [[2; 0]; [-1; 1]]%Z)
  /\ Scenario.product sd "conv_nbest" = Some (DInt2 [[2; 2]; [1; 1]]%Z)
  /\ cell_of sd "nbest" 0 1 = Some 0%Z /\ cell_of sd "conv_nbest" 0 1 = Some 2%Z
  /\ cell_of sd "nbest" 1 0 = Some (-1)%Z /\ cell_of sd "conv_nbest" 1 0 = Some 1%Z.
Proof. vm_compute. repeat split; reflexivity. Qed.

(** C4, at the failing input.  On the same maps core.py selects the
    smoothed order 2 at a cell whose increment from order 0 to order 1 is
    5, below the threshold 11, because the increment from 1 to 2 is 35:
    the last passing increment decides, whatever came before it. *)
Theorem core_convolve_evidence_later_increment :
  let '(sd, r) := CoreConv.convolve_evidence Smoothing.convolve_fft Smoothing.store in
  r = Return tt
  /\ smoothed_cell sd 0 0 1 = Some (Float.of_Z 0)
  /\ smoothed_cell sd 1 0 1 = Some (Float.of_Z 5)
  /\ smoothed_cell sd 2 0 1 = Some (Float.of_Z 40)
  /\ Float.ltb (Float.of_Z 11) (Float.sub (Float.of_Z 5) (Float.of_Z 0)) = false
  /\ Float.ltb (Float.of_Z 11) (Float.sub (Float.of_Z 40) (Float.of_Z 5)) = true
  /\ cell_of sd "conv_nbest" 0 1 = Some 2%Z.
Proof. vm_compute. repeat split; reflexivity. Qed.

(** main.py on the same maps: the smoothed orders are the raw ones. *)
Lemma main_convolve_evidence_scenario :
  let '(sd, r) := MainConv.convolve_evidence Smoothing.convolve_fft Smoothing.store in
  r = Return tt
  /\ Scenario.product sd "conv_nbest" = Some (DInt2 [[2; 0]; [-1; 1]]%Z).
Proof. vm_compute. split; reflexivity. Qed.

(** ** Traversal of the linked store *)

Lemma reads_only_ret {S A} (a : A) : reads_only (ret (S:=S) a).
Proof. intros s. by exists (Return a). Qed.

Lemma reads_only_raise {S A} e : reads_only (raise (S:=S) (A:=A) e).
Proof. intros s. by exists (Raise e). Qed.

Lemma reads_only_from_option {S A} e (o : option A) :
  reads_only (from_option (S:=S) e o).
Proof. destruct o; [apply reads_only_ret | apply reads_only_raise]. Qed.

Lemma reads_only_bind {S A B} (m : M S A) (k : A -> M S B) :
  reads_only m -> (forall a, reads_only (k a)) -> reads_only (bind m k).
Proof.
  intros Hm Hk s. unfold bind. destruct (Hm s) as (r & -> & Hr).
  destruct r as [a|e|]; [apply Hk | by exists (Raise e) | done].
Qed.

Lemma reads_only_fold_m {S A B} (l : list A) (body : B -> A -> M S B) b :
  (forall b x, reads_only (body b x)) -> reads_only (fold_m l body b).
Proof.
  intros Hbody. revert b. induction l as [|x l IH]; intros b; simpl.
  - apply reads_only_ret.
  - apply reads_only_bind; [apply Hbody | apply IH].
Qed.

Lemma reads_only_aggregate_group acc group :
  reads_only (aggregate_group acc group).
Proof.
  unfold aggregate_group. destruct acc as [nb lnz].
  repeat (apply reads_only_bind; [apply reads_only_from_option | intros ?]).
  apply reads_only_bind; [|intros; apply reads_only_ret].
  apply reads_only_fold_m. intros lnz' model. unfold aggregate_model.
  apply reads_only_bind; [apply reads_only_from_option | intros ?].
  apply reads_only_bind.
  - destruct (_ =? 1); [|apply reads_only_ret].
    apply reads_only_bind; [apply reads_only_from_option | intros ?].
    apply reads_only_from_option.
  - intros ?. apply reads_only_bind; [apply reads_only_from_option | intros ?].
    apply reads_only_from_option.
Qed.

Lemma getitem_error sd t lon lat e :
  getitem sd t lon lat = inl e -> e = KeyError.
Proof.
  unfold getitem.
  destruct (table_lookup t lon lat) as [[o|file lon' lat']|]; [done| |congruence].
  destruct (sd_chunks sd !! file) as [f|]; [|congruence].
  destruct (chunk_lookup f lon' lat'); congruence.
Qed.

Lemma getitem_broken sd t lon lat :
  broken_link sd t lon lat -> getitem sd t lon lat = inl KeyError.
Proof.
  intros (file & lon' & lat' & Hl & Hbroken). unfold getitem. rewrite Hl.
  destruct Hbroken as [->|(f & -> & ->)]; done.
Qed.

(** The guards [lon_pix is None] and [lat_pix is None] never fire:
    whatever ends the traversal is the [KeyError] of a failed lookup. *)
Lemma iter_lat_error sd t lon (ks : list nat) e :
  snd (iter_lat sd t lon (Some <$> ks)) = Some e -> e = KeyError.
Proof.
  induction ks as [|k ks IH]; simpl; [done|].
  destruct (getitem sd t lon k) as [e'|[g|]] eqn:Hget; simpl.
  - intros [= <-]. by eapply getitem_error.
  - done.
  - done.
Qed.

Lemma iter_lat_broken sd t lon (ks : list nat) lat :
  lat ∈ ks -> broken_link sd t lon lat ->
  snd (iter_lat sd t lon (Some <$> ks)) = Some KeyError.
Proof.
  intros Hin Hbroken. induction ks as [|k ks IH]; [by apply elem_of_nil in Hin|].
  simpl. destruct (getitem sd t lon k) as [e'|[g|]] eqn:Hget; simpl.
  - f_equal. by eapply getitem_error.
  - apply IH. apply elem_of_cons in Hin as [->|]; [|done].
    rewrite (getitem_broken _ _ _ _ Hbroken) in Hget. done.
  - apply IH. apply elem_of_cons in Hin as [->|]; [|done].
    rewrite (getitem_broken _ _ _ _ Hbroken) in Hget. done.
Qed.

Lemma iter_lon_error sd t pix (ks : list nat) e :
  snd (iter_lon sd t pix (Some <$> ks)) = Some e -> e = KeyError.
Proof.
  induction ks as [|k ks IH]; simpl; [done|].
  destruct (pix !! k) as [row|]; simpl; [|congruence].
  unfold gen_seq, member_names.
  destruct (snd (iter_lat sd t k _)) as [e'|] eqn:Hlat; simpl.
  - rewrite Hlat. intros [= <-]. by eapply iter_lat_error.
  - done.
Qed.

Lemma iter_lon_broken sd t pix (ks : list nat) lon lat row :
  lon ∈ ks -> pix !! lon = Some row -> is_Some (row !! lat) ->
  broken_link sd t lon lat ->
  snd (iter_lon sd t pix (Some <$> ks)) = Some KeyError.
Proof.
  intros Hin Hrow Hlat Hbroken.
  induction ks as [|k ks IH]; [by apply elem_of_nil in Hin|].
  simpl. destruct (pix !! k) as [row'|] eqn:Hk; simpl; [|done].
  unfold gen_seq.
  destruct (snd (iter_lat sd t k (member_names row'))) as [e'|] eqn:Hl; simpl.
  - rewrite Hl. f_equal. by eapply iter_lat_error.
  - apply elem_of_cons in Hin as [->|Hin]; [|by apply IH].
    exfalso. rewrite Hrow in Hk. injection Hk as <-.
    unfold member_names in Hl.
    rewrite (iter_lat_broken sd t k _ lat) in Hl; [done| |done].
    destruct Hlat as [x Hx].
    apply list_elem_of_fmap. exists (lat, x). split; [done|].
    by apply elem_of_map_to_list.
Qed.

Lemma table_lookup_Some t lon lat n :
  table_lookup t lon lat = Some n ->
  exists pix row, t_pix t = Some pix /\ pix !! lon = Some row /\ row !! lat = Some n.
Proof.
  unfold table_lookup. destruct (t_pix t) as [pix|]; simpl; [|done].
  destruct (pix !! lon) as [row|] eqn:Hrow; simpl; [|done].
  intros Hn. by exists pix, row.
Qed.

Lemma iter_pix_groups_error sd e :
  sd_open sd = true -> is_Some (sd_table sd) ->
  snd (iter_pix_groups sd) = Some e -> e = KeyError.
Proof.
  intros Hopen [t Ht]. unfold iter_pix_groups. rewrite Hopen, Ht.
  destruct (t_pix t) as [pix|]; simpl; [|congruence].
  apply iter_lon_error.
Qed.

(** C6. When a member of [/pix] in the table file is an external link
    whose chunk file or target group is missing, the traversal by
    [iter_pix_groups] does not skip it: it ends with an exception (the
    [KeyError] of the failed lookup), and [aggregate_run_attributes]
    aborts with an exception, leaving the store as it was - no dataset is
    written. *)
Theorem iter_pix_groups_broken_link (sd : StoreDir) (t : TableFile) (lon lat : nat) :
  sd_open sd = true ->
  sd_table sd = Some t ->
  broken_link sd t lon lat ->
  snd (iter_pix_groups sd) = Some KeyError
  /\ exists e, aggregate_run_attributes sd = (sd, Raise e).
Proof.
  intros Hopen Ht Hbroken.
  assert (snd (iter_pix_groups sd) = Some KeyError) as Hgen.
  { unfold iter_pix_groups. rewrite Hopen, Ht.
    destruct Hbroken as (file & lon' & lat' & Hl & Hb).
    destruct (table_lookup_Some _ _ _ _ Hl) as (pix & row & -> & Hrow & Hlat).
    unfold member_names.
    apply (iter_lon_broken sd t pix _ lon lat row); [|done|by eexists|].
    - apply list_elem_of_fmap. exists (lon, row). split; [done|].
      by apply elem_of_map_to_list.
    - by exists file, lon', lat'. }
  split; [done|].
  unfold aggregate_run_attributes, the_table, bind, get, from_option, ret, raise.
  rewrite Ht.
  destruct (t_naxis1 t) as [n_lon|]; [|by eexists].
  destruct (t_naxis2 t) as [n_lat|]; [|by eexists].
  destruct (t_n_max_components t) as [nmax|]; [|by eexists].
  unfold fold_gen, bind. rewrite Hgen.
  destruct (reads_only_fold_m (fst (iter_pix_groups sd)) aggregate_group
              (full2 n_lon n_lat (-1)%Z, full3 n_lon n_lat (nmax + 1) Float.NaN)
              reads_only_aggregate_group sd) as (r & -> & Hr).
  destruct r as [acc|e|]; [by eexists | by eexists | done].
Qed.

Lemma iter_pix_groups_broken_link_witness :
  snd (iter_pix_groups lost_chunk) = Some KeyError
  /\ exists e, aggregate_run_attributes lost_chunk = (lost_chunk, Raise e).
Proof.
  apply (iter_pix_groups_broken_link lost_chunk
           (default empty_table (sd_table lost_chunk)) 0 0).
  - reflexivity.
  - vm_compute. reflexivity.
  - exists "chunk0.hdf", 0, 0. split; [vm_compute; reflexivity|].
    left. reflexivity.
Defined.

(** ** The worker: what a fit may touch *)

Section keeping.
Variables lon lat : nat.

Lemma keeps_refl w : keeps lon lat w w.
Proof. split; [done|]. intros o' Ho. by left. Qed.

Lemma keeps_attrs_ok_at w w' :
  keeps lon lat w w' ->
  attrs_ok_at lon lat (wk_file w) -> attrs_ok_at lon lat (wk_file w').
Proof.
  intros [_ K] Hok g Hg. destruct (K _ Hg) as [Hsame|(g' & [= <-] & Hg')].
  - by apply Hok.
  - by apply Hg'.
Qed.

Lemma keeps_trans w1 w2 w3 :
  keeps lon lat w1 w2 -> keeps lon lat w2 w3 -> keeps lon lat w1 w3.
Proof.
  intros H12 H23. pose proof (keeps_attrs_ok_at _ _ H12) as Hat.
  destruct H12 as [F1 K1], H23 as [F2 K2]. split.
  - intros lon' lat' Hne. by rewrite F2, F1.
  - intros o' Ho. destruct (K2 _ Ho) as [Hsame|(g' & -> & Hg')].
    + by apply K1.
    + right. exists g'. split; [done|]. auto.
Qed.

Lemma keeps_log w e :
  keeps lon lat w {| wk_file := wk_file w; wk_log := e :: wk_log w |}.
Proof. split; [done|]. intros o' Ho. by left. Qed.

Lemma keeping_ret {A} (a : A) : keeping lon lat (ret a).
Proof. intros w. apply keeps_refl. Qed.

Lemma keeping_raise {A} e : keeping lon lat (raise (A:=A) e).
Proof. intros w. apply keeps_refl. Qed.

Lemma keeping_timeout {A} : keeping lon lat (timeout (A:=A)).
Proof. intros w. apply keeps_refl. Qed.

Lemma keeping_assert c : keeping lon lat (assert c).
Proof. destruct c; [apply keeping_ret | apply keeping_raise]. Qed.

Lemma keeping_from_option {A} e (o : option A) : keeping lon lat (from_option e o).
Proof. destruct o; [apply keeping_ret | apply keeping_raise]. Qed.

Lemma keeping_log e : keeping lon lat (log e).
Proof. intros w. apply keeps_log. Qed.

Lemma keeping_bind {A B} (m : M Worker A) (k : A -> M Worker B) :
  keeping lon lat m -> (forall a, keeping lon lat (k a)) ->
  keeping lon lat (bind m k).
Proof.
  intros Hm Hk w. unfold bind. specialize (Hm w).
  destruct (m w) as [w1 [a|e|]]; simpl in *; [|done..].
  eapply keeps_trans; [done|]. apply Hk.
Qed.

Lemma keeps_insert w g :
  (attrs_ok_at lon lat (wk_file w) -> attrs_ok lon lat g) ->
  keeps lon lat w
    {| wk_file := chunk_insert (wk_file w) lon lat (OGroup g);
       wk_log := wk_log w |}.
Proof.
  intros Hg. split; simpl.
  - intros lon' lat' Hne. by rewrite chunk_lookup_insert_ne.
  - intros o'. rewrite chunk_lookup_insert_eq. intros [= <-].
    right. by exists g.
Qed.

Lemma keeping_require_group : keeping lon lat (require_group lon lat).
Proof.
  intros w. unfold require_group, bind, get, set_file, modify, ret, raise.
  destruct (chunk_lookup (wk_file w) lon lat) as [[g|]|] eqn:Hl; simpl;
    [apply keeps_refl..|].
  apply keeps_insert. intros _. by split.
Qed.

Lemma keeping_create_group n : keeping lon lat (create_group lon lat n).
Proof.
  intros w.
  unfold create_group, read_group, write_group, bind, get, set_file, modify,
    ret, raise.
  destruct (chunk_lookup (wk_file w) lon lat) as [[g|]|] eqn:Hl; simpl;
    [|apply keeps_refl..].
  destruct (pg_subs g !! n); simpl; [apply keeps_refl|].
  apply keeps_insert. intros Hok. exact (Hok g Hl).
Qed.

Lemma keeping_run_multinest n x y : keeping lon lat (run_multinest lon lat n x y).
Proof.
  intros w.
  unfold run_multinest, log, read_group, write_group, bind, get, set_file,
    modify, ret, raise. simpl.
  destruct (chunk_lookup (wk_file w) lon lat) as [[g|]|] eqn:Hl; simpl;
    [|apply keeps_log..].
  eapply keeps_trans;
    [|apply (keeps_insert {| wk_file := wk_file w; wk_log := _ :: wk_log w |})].
  - apply keeps_log.
  - intros Hok. exact (Hok g Hl).
Qed.

Lemma keeping_set_pixel_attrs nb : keeping lon lat (set_pixel_attrs lon lat nb).
Proof.
  intros w.
  unfold set_pixel_attrs, read_group, write_group, bind, get, set_file, modify,
    ret, raise.
  destruct (chunk_lookup (wk_file w) lon lat) as [[g|]|] eqn:Hl; simpl;
    [|apply keeps_refl..].
  apply keeps_insert. intros _. split; simpl; congruence.
Qed.

Variable runner : Runner.
Variable self : CubeFitter.

Lemma keeping_core_fit_while fuel spec : forall ncomp nbest old,
  keeping lon lat (Core.fit_while runner self fuel lon lat spec ncomp nbest old).
Proof.
  induction fuel as [|fuel IH]; intros ncomp nbest old; simpl;
    (destruct (ncomp <=? ncomp_max self); [|apply keeping_ret]).
  - apply keeping_timeout.
  - repeat (apply keeping_bind; intros;
            first [ apply keeping_log | apply keeping_create_group
                  | apply keeping_run_multinest | apply keeping_assert | idtac ]).
    destruct (Float.ltb _ _); [apply keeping_ret | apply IH].
Qed.

Lemma keeping_main_fit_while fuel spec : forall ncomp nbest old,
  keeping lon lat (Main.fit_while runner self fuel lon lat spec ncomp nbest old).
Proof.
  induction fuel as [|fuel IH]; intros ncomp nbest old; simpl;
    (destruct (ncomp <=? ncomp_max self); [|apply keeping_ret]).
  - apply keeping_timeout.
  - apply keeping_bind; [apply keeping_log | intros _].
    apply keeping_bind; [apply keeping_create_group | intros _].
    apply keeping_bind.
    { destruct (ncomp =? 1); [|apply keeping_ret].
      apply keeping_bind; [apply keeping_log | intros _].
      apply keeping_bind; [apply keeping_assert | intros _]. apply keeping_ret. }
    intros old'.
    apply keeping_bind; [apply keeping_run_multinest | intros _].
    apply keeping_bind; [apply keeping_assert | intros _].
    apply keeping_bind; [apply keeping_from_option | intros o].
    apply keeping_bind; [apply keeping_log | intros _].
    destruct (Float.ltb _ _); [apply keeping_ret | apply IH].
Qed.
End keeping.

(** [has_nans] is true exactly when some cube has a NaN sample. *)
Lemma get_spectra_has_nans stack lon lat :
  snd (get_spectra stack lon lat) = true <-> has_nan_sample stack lon lat.
Proof.
  unfold get_spectra, has_nan_sample.
  assert (forall l acc,
    snd (foldl (fun acc dcube =>
           let '(spec, has_nans) := cube_get_spectra dcube lon lat in
           (fst acc ++ [spec], snd acc || has_nans)) acc l) = true
    <-> snd acc = true \/
        exists dcube x, dcube ∈ l /\ x ∈ dc_data dcube lon lat
          /\ Float.isnan x = true) as Hgen.
  { induction l as [|c l IH]; intros acc; simpl.
    - split; [by left|]. intros [?|(c & x & Hin & _)]; [done|].
      by apply elem_of_nil in Hin.
    - rewrite IH. simpl. rewrite orb_true_iff, existsb_exists. split.
      + intros [[?|(x & Hx & Hnan)]|(c' & x & Hin & Hx)].
        * by left.
        * right. exists c, x. split; [by left|]. by rewrite list_elem_of_In.
        * right. exists c', x. split; [by right|]. done.
      + intros [?|(c' & x & Hin & Hx & Hnan)]; [by left; left|].
        apply elem_of_cons in Hin as [->|Hin].
        * left. right. exists x. by rewrite <- list_elem_of_In.
        * right. by exists c', x. }
  rewrite Hgen. simpl. split; [by intros [?|?] | by right].
Qed.

Section fit_pixel.
Variable runner : Runner.
Variable self : CubeFitter.

(** A pixel with a NaN sample is skipped: the file is left as it is
    and the loop goes on. *)
Lemma main_fit_pixel_skip lon lat w :
  snd (get_spectra (stack self) lon lat) = true ->
  Main.fit_pixel runner self (lon, lat) w
  = ({| wk_file := wk_file w; wk_log := EvSkip lon lat :: wk_log w |}, Return tt).
Proof.
  intros Hnan. unfold Main.fit_pixel.
  destruct (get_spectra (stack self) lon lat) as [spec h]. simpl in Hnan.
  by subst h.
Qed.

Lemma core_fit_pixel_skip lon lat w :
  snd (get_spectra (stack self) lon lat) = true ->
  Core.fit_pixel runner self (lon, lat) w
  = ({| wk_file := wk_file w; wk_log := EvSkip lon lat :: wk_log w |}, Return tt).
Proof.
  intros Hnan. unfold Core.fit_pixel.
  destruct (get_spectra (stack self) lon lat) as [spec h]. simpl in Hnan.
  by subst h.
Qed.

Lemma keeping_main_fit_pixel lon lat :
  keeping lon lat (Main.fit_pixel runner self (lon, lat)).
Proof.
  unfold Main.fit_pixel.
  destruct (get_spectra (stack self) lon lat) as [spec [|]];
    [apply keeping_log|].
  apply keeping_bind; [apply keeping_require_group | intros _].
  apply keeping_bind; [apply keeping_main_fit_while | intros nb].
  apply keeping_set_pixel_attrs.
Qed.

Lemma keeping_core_fit_pixel lon lat :
  keeping lon lat (Core.fit_pixel runner self (lon, lat)).
Proof.
  unfold Core.fit_pixel.
  destruct (get_spectra (stack self) lon lat) as [spec [|]];
    [apply keeping_log|].
  apply keeping_bind; [apply keeping_require_group | intros _].
  apply keeping_bind; [apply keeping_log | intros _].
  apply keeping_bind; [apply keeping_assert | intros _].
  apply keeping_bind; [apply keeping_core_fit_while | intros nb].
  apply keeping_set_pixel_attrs.
Qed.

Lemma keeps_file_ok lon lat w w' :
  snd (get_spectra (stack self) lon lat) = false ->
  keeps lon lat w w' ->
  file_ok (stack self) (wk_file w) -> file_ok (stack self) (wk_file w').
Proof.
  intros Hnan Hk Hok lon' lat' o Ho.
  destruct (decide ((lon, lat) = (lon', lat'))) as [[= <- <-]|Hne].
  - split; [done|]. destruct Hk as [_ K].
    destruct (K _ Ho) as [Hsame|(g' & -> & Hg')].
    + by apply Hok in Hsame as [_ ?].
    + exists g'. split; [done|]. apply Hg'. intros g Hg.
      apply Hok in Hg as [_ (g0 & [= <-] & ?)]. done.
  - destruct Hk as [F _]. rewrite F in Ho by done. by apply Hok.
Qed.

Lemma main_fit_pixel_file_ok p w :
  file_ok (stack self) (wk_file w) ->
  file_ok (stack self) (wk_file (fst (Main.fit_pixel runner self p w))).
Proof.
  destruct p as [lon lat]. intros Hok.
  destruct (snd (get_spectra (stack self) lon lat)) eqn:Hnan.
  - by rewrite main_fit_pixel_skip.
  - eapply keeps_file_ok; [done | apply keeping_main_fit_pixel | done].
Qed.

Lemma main_fit_pixels_file_ok ix w :
  file_ok (stack self) (wk_file w) ->
  file_ok (stack self) (wk_file (fst (Main.fit_pixels runner self ix w))).
Proof.
  unfold Main.fit_pixels. generalize (chunk_pixels ix). intros l. revert w.
  induction l as [|p l IH]; intros w Hok; simpl; [done|].
  unfold bind. pose proof (main_fit_pixel_file_ok p w Hok) as Hp.
  destruct (Main.fit_pixel runner self p w) as [w1 [[]|e|]]; simpl in *;
    [by apply IH | done | done].
Qed.
End fit_pixel.

(** ** The fitting loop *)

Lemma event_fine_ok {A} (r : res A) e : event_fine e -> event_ok r e.
Proof. destruct e; simpl; try done. all: congruence. Qed.

Lemma event_ok_return {A B} (a : A) (r : res B) e :
  event_ok (Return a) e -> event_ok r e.
Proof.
  destruct e; simpl; try done.
  all: intros H Hx; by specialize (H Hx).
Qed.

(** Stepping through a computation. *)
Lemma bind_ext {S A B} (m : M S A) (k1 k2 : A -> M S B) s :
  (forall a s', k1 a s' = k2 a s') -> bind m k1 s = bind m k2 s.
Proof. intros H. unfold bind. destruct (m s) as [s' [a|e|]]; auto. Qed.

Lemma bind_ret_l {S A B} (a : A) (k : A -> M S B) s : bind (ret a) k s = k a s.
Proof. done. Qed.

Lemma bind_raise_l {S A B} e (k : A -> M S B) s :
  bind (raise e) k s = (s, Raise e).
Proof. done. Qed.

Lemma bind_Return {S A B} (m : M S A) (k : A -> M S B) s s' a :
  m s = (s', Return a) -> bind m k s = k a s'.
Proof. intros H. unfold bind. by rewrite H. Qed.

Lemma bind_Raise {S A B} (m : M S A) (k : A -> M S B) s s' e :
  m s = (s', Raise e) -> bind m k s = (s', Raise e).
Proof. intros H. unfold bind. by rewrite H. Qed.

Section primitives.
Variables lon lat : nat.

Lemma create_group_eq w n g :
  chunk_lookup (wk_file w) lon lat = Some (OGroup g) ->
  create_group lon lat n w
  = match pg_subs g !! n with
    | Some _ => (w, Raise ValueError)
    | None =>
        ({| wk_file := chunk_insert (wk_file w) lon lat
              (OGroup (set_subs g (<[n := empty_subgroup]> (pg_subs g))));
            wk_log := wk_log w |}, Return tt)
    end.
Proof.
  intros Hl.
  unfold create_group, read_group, write_group, bind, get, set_file, modify,
    ret, raise.
  rewrite Hl. by destruct (pg_subs g !! n).
Qed.

Lemma create_group_no_group w n :
  (forall g, chunk_lookup (wk_file w) lon lat <> Some (OGroup g)) ->
  create_group lon lat n w = (w, Raise KeyError).
Proof.
  intros Hl.
  unfold create_group, read_group, write_group, bind, get, set_file, modify,
    ret, raise.
  destruct (chunk_lookup (wk_file w) lon lat) as [[g|]|] eqn:E; try done.
  by destruct (Hl g).
Qed.

Lemma create_group_cases w n :
  (exists e, create_group lon lat n w = (w, Raise e))
  \/ (exists g, chunk_lookup (wk_file w) lon lat = Some (OGroup g)
         /\ pg_subs g !! n = None
         /\ create_group lon lat n w
            = ({| wk_file := chunk_insert (wk_file w) lon lat
                    (OGroup (set_subs g (<[n := empty_subgroup]> (pg_subs g))));
                  wk_log := wk_log w |}, Return tt)).
Proof.
  destruct (chunk_lookup (wk_file w) lon lat) as [o|] eqn:Hl;
    [destruct o as [g|]|].
  - rewrite (create_group_eq w n g Hl).
    destruct (pg_subs g !! n) eqn:Hn; [left; by eexists|].
    right. by exists g.
  - left. exists KeyError. apply create_group_no_group. congruence.
  - left. exists KeyError. apply create_group_no_group. congruence.
Qed.

Lemma run_multinest_eq w n x y g :
  chunk_lookup (wk_file w) lon lat = Some (OGroup g) ->
  run_multinest lon lat n x y w
  = ({| wk_file := chunk_insert (wk_file w) lon lat
          (OGroup (set_subs g (alter (Dumper_write n x y) n (pg_subs g))));
        wk_log := EvSampler lon lat n y :: wk_log w |}, Return tt).
Proof.
  intros Hl.
  unfold run_multinest, log, read_group, write_group, bind, get, set_file,
    modify, ret, raise. simpl. by rewrite Hl.
Qed.

Lemma set_pixel_attrs_eq w nb g :
  chunk_lookup (wk_file w) lon lat = Some (OGroup g) ->
  set_pixel_attrs lon lat nb w
  = ({| wk_file := chunk_insert (wk_file w) lon lat
          (OGroup {| pg_i_lon := Some lon; pg_i_lat := Some lat;
                     pg_nbest := Some (Z.of_nat nb); pg_subs := pg_subs g |});
        wk_log := wk_log w |}, Return tt).
Proof.
  intros Hl.
  unfold set_pixel_attrs, read_group, write_group, bind, get, set_file, modify,
    ret, raise.
  by rewrite Hl.
Qed.

Lemma require_group_absent w :
  chunk_lookup (wk_file w) lon lat = None ->
  require_group lon lat w
  = ({| wk_file := chunk_insert (wk_file w) lon lat (OGroup empty_group);
        wk_log := wk_log w |}, Return tt).
Proof.
  intros Hl. unfold require_group, bind, get, set_file, modify, ret, raise.
  by rewrite Hl.
Qed.
End primitives.

Section loop.
Variable runner : Runner.
Variable self : CubeFitter.
Variables lon lat : nat.
Variable spec : SpecData.

(** From the second order on, the loop of main.py is the loop of
    core.py. *)
Lemma main_core_fit_while fuel : forall ncomp nbest old w,
  2 <= ncomp ->
  Main.fit_while runner self fuel lon lat spec ncomp nbest (Some old) w
  = Core.fit_while runner self fuel lon lat spec ncomp nbest old w.
Proof.
  induction fuel as [|fuel IH]; intros ncomp nbest old w Hn; simpl;
    (destruct (ncomp <=? ncomp_max self); [|done]); [done|].
  assert ((ncomp =? 1) = false) as -> by (apply Nat.eqb_neq; lia).
  apply bind_ext; intros _ w1. apply bind_ext; intros _ w2.
  rewrite bind_ret_l.
  apply bind_ext; intros _ w3. apply bind_ext; intros _ w4.
  change (from_option UnboundLocalError (Some old)) with (ret (S:=Worker) old).
  rewrite bind_ret_l.
  apply bind_ext; intros _ w5.
  destruct (Float.ltb _ _); [done|]. apply IH. lia.
Qed.

(** What the loop of core.py adds to the log. *)
Lemma core_fit_while_log fuel : forall ncomp nbest old w w' r,
  Float.isfinite old = true ->
  Core.fit_while runner self fuel lon lat spec ncomp nbest old w = (w', r) ->
  exists new, wk_log w' = new ++ wk_log w /\ Forall (event_ok r) new.
Proof.
  induction fuel as [|fuel IH]; intros ncomp nbest old w w' r Hold; simpl;
    (destruct (ncomp <=? ncomp_max self);
     [|intros [= <- <-]; by exists []]); [intros [= <- <-]; by exists []|].
  erewrite bind_Return by reflexivity.
  set (w1 := {| wk_file := wk_file w; wk_log := EvTry lon lat ncomp :: wk_log w |}).
  destruct (create_group_cases lon lat w1 ncomp) as [(e & Hc)|(g & Hl & Hn & Hc)].
  { rewrite (bind_Raise _ _ _ _ _ Hc). intros [= <- <-].
    exists [EvTry lon lat ncomp]. split; [done|]. by repeat constructor. }
  rewrite (bind_Return _ _ _ _ _ Hc).
  erewrite bind_Return by (apply run_multinest_eq; simpl;
                           apply chunk_lookup_insert_eq).
  destruct (Float.isfinite (run_lnZ runner spec ncomp)) eqn:Hfin.
  2: { erewrite bind_Raise by reflexivity. intros [= <- <-].
       exists [EvSampler lon lat ncomp (run_lnZ runner spec ncomp);
               EvTry lon lat ncomp].
       split; [done|]. by repeat constructor. }
  erewrite bind_Return by reflexivity.
  erewrite bind_Return by reflexivity.
  destruct (Float.ltb _ _).
  - intros [= <- <-]. eexists [_; _; _]. split; [reflexivity|].
    repeat constructor; simpl; congruence.
  - intros Hrun. destruct (IH _ _ _ _ _ _ Hfin Hrun) as (new & Hlog & Hok).
    exists (new ++ [EvThreshTest lon lat ncomp (run_lnZ runner spec ncomp) old;
                    EvSampler lon lat ncomp (run_lnZ runner spec ncomp);
                    EvTry lon lat ncomp]).
    split; [rewrite Hlog; simpl; by rewrite <- app_assoc|].
    apply Forall_app. split; [done|].
    repeat constructor; simpl; congruence.
Qed.

(** The same for the loop of main.py, entered at order 1. *)
Lemma main_fit_while_log fuel : forall old w w' r,
  Main.fit_while runner self fuel lon lat spec 1 0 old w = (w', r) ->
  exists new, wk_log w' = new ++ wk_log w /\ Forall (event_ok r) new.
Proof.
  destruct fuel as [|fuel]; intros old w w' r; cbn -[Nat.leb];
    (destruct (1 <=? ncomp_max self);
     [|intros [= <- <-]; by exists []]); [intros [= <- <-]; by exists []|].
  erewrite bind_Return by reflexivity.
  set (w1 := {| wk_file := wk_file w; wk_log := EvTry lon lat 1 :: wk_log w |}).
  destruct (create_group_cases lon lat w1 1) as [(e & Hc)|(g & Hl & Hn & Hc)].
  { rewrite (bind_Raise _ _ _ _ _ Hc). intros [= <- <-].
    exists [EvTry lon lat 1]. split; [done|]. by repeat constructor. }
  rewrite (bind_Return _ _ _ _ _ Hc).
  destruct (Float.isfinite (null_lnZ runner spec)) eqn:Hnull.
  2: { erewrite bind_Raise by reflexivity. intros [= <- <-].
       exists [EvNull lon lat (null_lnZ runner spec); EvTry lon lat 1].
       split; [done|]. by repeat constructor. }
  erewrite bind_Return by reflexivity.
  erewrite bind_Return by (apply run_multinest_eq; simpl;
                           apply chunk_lookup_insert_eq).
  destruct (Float.isfinite (run_lnZ runner spec 1)) eqn:Hfin.
  2: { erewrite bind_Raise by reflexivity. intros [= <- <-].
       exists [EvSampler lon lat 1 (run_lnZ runner spec 1);
               EvNull lon lat (null_lnZ runner spec); EvTry lon lat 1].
       split; [done|]. repeat constructor; simpl; congruence. }
  erewrite bind_Return by reflexivity.
  erewrite bind_Return by reflexivity.
  erewrite bind_Return by reflexivity.
  destruct (Float.ltb _ _).
  - intros [= <- <-]. eexists [_; _; _; _]. split; [reflexivity|].
    repeat constructor; simpl; congruence.
  - rewrite main_core_fit_while by lia. intros Hrun.
    destruct (core_fit_while_log _ _ _ _ _ _ _ Hfin Hrun) as (new & Hlog & Hok).
    exists (new ++ [EvThreshTest lon lat 1 (run_lnZ runner spec 1)
                      (null_lnZ runner spec);
                    EvSampler lon lat 1 (run_lnZ runner spec 1);
                    EvNull lon lat (null_lnZ runner spec);
                    EvTry lon lat 1]).
    split; [rewrite Hlog; simpl; by rewrite <- app_assoc|].
    apply Forall_app. split; [done|].
    repeat constructor; simpl; congruence.
Qed.

(** The loop of core.py on a group that so far holds the dumped
    sub-groups of the orders below [ncomp]. *)
Lemma core_fit_while_fresh fuel : forall ncomp w g w' r,
  1 <= ncomp -> ncomp_max self + 1 <= fuel + ncomp ->
  chunk_lookup (wk_file w) lon lat = Some (OGroup g) ->
  subs_upto runner spec (ncomp - 1) (pg_subs g) ->
  Core.fit_while runner self fuel lon lat spec ncomp (ncomp - 1)
    (prev_lnZ runner spec ncomp) w = (w', r) ->
  exists g' m,
    chunk_lookup (wk_file w') lon lat = Some (OGroup g')
    /\ pg_i_lon g' = pg_i_lon g /\ pg_i_lat g' = pg_i_lat g
    /\ pg_nbest g' = pg_nbest g
    /\ subs_upto runner spec m (pg_subs g')
    /\ match r with
       | Return nb =>
           ncomp - 1 <= nb
           /\ (forall i, ncomp <= i <= nb -> accepted runner self spec i)
           /\ ((m = nb /\ ncomp_max self <= nb)
               \/ (m = nb + 1 /\ rejected runner self spec m /\ ncomp <= m))
       | Raise e =>
           e = AssertionError /\ ncomp <= m
           /\ Float.isfinite (run_lnZ runner spec m) = false
           /\ (forall i, ncomp <= i < m -> accepted runner self spec i)
       | Timeout => False
       end.
Proof.
  induction fuel as [|fuel IH]; intros ncomp w g w' r Hn Hfuel Hl Hsubs; simpl;
    (destruct (Nat.leb_spec ncomp (ncomp_max self)) as [Hle|Hgt]; [lia||idtac|]).
  1,3: (intros [= <- <-]; exists g, (ncomp - 1);
        do 5 (split; [done|]); split; [lia|]; split; [intros; lia|];
        left; lia).
  erewrite bind_Return by reflexivity.
  erewrite bind_Return
    by (rewrite (create_group_eq lon lat _ ncomp g) by done;
        rewrite (Hsubs ncomp), decide_False by lia; reflexivity).
  erewrite bind_Return by (apply run_multinest_eq; simpl;
                           apply chunk_lookup_insert_eq).
  set (subs3 := alter _ ncomp _).
  assert (subs_upto runner spec ncomp subs3) as Hsubs3.
  { intros i. unfold subs3. destruct (decide (i = ncomp)) as [->|Hne].
    - rewrite lookup_alter_eq. simpl. rewrite lookup_insert_eq. simpl.
      by rewrite decide_True by lia.
    - rewrite lookup_alter_ne by done. simpl. rewrite lookup_insert_ne by done.
      rewrite (Hsubs i). repeat case_decide; done || lia. }
  destruct (Float.isfinite (run_lnZ runner spec ncomp)) eqn:Hfin.
  2: { erewrite bind_Raise by reflexivity. intros [= <- <-].
       eexists _, ncomp. split; [simpl; apply chunk_lookup_insert_eq|].
       simpl. do 3 (split; [done|]). split; [exact Hsubs3|].
       split; [done|]. split; [lia|]. split; [done|]. intros; lia. }
  erewrite bind_Return by reflexivity.
  erewrite bind_Return by reflexivity.
  destruct (Float.ltb _ _) eqn:Hlt.
  - intros [= <- <-].
    eexists _, ncomp. split; [simpl; apply chunk_lookup_insert_eq|].
    simpl. do 3 (split; [done|]). split; [exact Hsubs3|].
    split; [lia|]. split; [intros; lia|].
    right. split; [lia|]. split; [by split | lia].
  - intros Hrun.
    assert (prev_lnZ runner spec (ncomp + 1) = run_lnZ runner spec ncomp) as Hprev.
    { unfold prev_lnZ. replace (ncomp + 1 =? 1) with false
        by (symmetry; apply Nat.eqb_neq; lia).
      f_equal. lia. }
    match type of Hrun with
    | Core.fit_while _ _ _ _ _ _ _ _ _ ?w5 = _ =>
        pose proof (IH (ncomp + 1) w5 _ w' r ltac:(lia) ltac:(lia)
                      (chunk_lookup_insert_eq _ _ _ _)) as IH'
    end.
    rewrite Hprev in IH'. replace (ncomp + 1 - 1) with ncomp in IH' by lia.
    destruct (IH' Hsubs3 Hrun) as (g' & m & Hl' & Hlon & Hlat & Hnb & Hsubs' & Hr).
    exists g', m. split; [done|]. simpl in Hlon, Hlat, Hnb.
    do 4 (split; [done|]).
    assert (accepted runner self spec ncomp) as Hacc by by split.
    destruct r as [nb|e|]; [| |done].
    + destruct Hr as (Hlo & Hall & Hend). split; [lia|]. split.
      * intros i Hi. destruct (decide (i = ncomp)) as [->|]; [done|].
        apply Hall. lia.
      * destruct Hend as [[-> ?]|(-> & ? & ?)]; [left; by split|right].
        split; [done|]. split; [done|lia].
    + destruct Hr as (-> & Hm & Hbad & Hall).
      split; [done|]. split; [lia|]. split; [done|].
      intros i Hi. destruct (decide (i = ncomp)) as [->|]; [done|].
      apply Hall. lia.
Qed.
End loop.

(** ** Non-finite evidence is fatal *)

Lemma event_ok_raise {A B} e ev :
  event_ok (Raise e : res A) ev -> event_ok (Raise e : res B) ev.
Proof.
  destruct ev; simpl; try done.
  all: intros H Hx; specialize (H Hx); congruence.
Qed.

Lemma event_ok_transfer {A B} (r : res A) (r' : res B) ev :
  (r = Raise AssertionError -> r' = Raise AssertionError) ->
  event_ok r ev -> event_ok r' ev.
Proof. destruct ev; simpl; auto. Qed.

Lemma require_group_cases lon lat w :
  exists w1 r1, require_group lon lat w = (w1, r1)
    /\ wk_log w1 = wk_log w
    /\ (r1 = Raise TypeError
        \/ r1 = Return tt /\ exists g, chunk_lookup (wk_file w1) lon lat = Some (OGroup g)).
Proof.
  unfold require_group, bind, get, set_file, modify, ret, raise.
  destruct (chunk_lookup (wk_file w) lon lat) as [[g|]|] eqn:Hl; simpl.
  - exists w, (Return tt). split; [done|]. split; [done|]. right. eauto.
  - exists w, (Raise TypeError). auto.
  - eexists _, (Return tt). split; [done|]. split; [done|]. right.
    split; [done|]. exists empty_group. simpl. apply chunk_lookup_insert_eq.
Qed.

Lemma set_pixel_attrs_log lon lat nb w :
  wk_log (fst (set_pixel_attrs lon lat nb w)) = wk_log w
  /\ snd (set_pixel_attrs lon lat nb w) <> Raise AssertionError
  /\ snd (set_pixel_attrs lon lat nb w) <> Timeout.
Proof.
  unfold set_pixel_attrs, read_group, write_group, bind, get, set_file, modify,
    ret, raise.
  by destruct (chunk_lookup (wk_file w) lon lat) as [[g|]|].
Qed.

Section fatal.
Variable runner : Runner.
Variable self : CubeFitter.

(** The log and the outcome of one pixel, both versions. *)
Lemma finish_pixel_log lon lat (w w3 w' : Worker) (r3 : res nat) (r : res unit)
    (pre new : list event) :
  wk_log w3 = new ++ pre ++ wk_log w ->
  Forall event_fine pre ->
  Forall (event_ok r3) new ->
  (w', r) = match r3 with
            | Return nb => set_pixel_attrs lon lat nb w3
            | Raise e => (w3, Raise e)
            | Timeout => (w3, Timeout)
            end ->
  exists new', wk_log w' = new' ++ wk_log w /\ Forall (event_ok r) new'.
Proof.
  intros Hlog Hpre Hnew Hr. exists (new ++ pre).
  assert (Forall (event_ok r) pre) as Hpre'.
  { eapply Forall_impl; [done|]. intros e. apply event_fine_ok. }
  destruct r3 as [nb|e|].
  - destruct (set_pixel_attrs_log lon lat nb w3) as (Hl & _).
    rewrite <- Hr in Hl. simpl in Hl. rewrite Hl, Hlog, app_assoc.
    split; [done|]. apply Forall_app. split; [|done].
    eapply Forall_impl; [done|]. intros ev. apply event_ok_return.
  - injection Hr as -> ->. rewrite Hlog, app_assoc. split; [done|].
    apply Forall_app. split; [|done].
    eapply Forall_impl; [done|]. intros ev. apply event_ok_raise.
  - injection Hr as -> ->. rewrite Hlog, app_assoc. split; [done|].
    apply Forall_app. split; [|done].
    eapply Forall_impl; [done|]. intros ev. by apply event_ok_transfer.
Qed.

Lemma core_fit_pixel_log p w w' r :
  Core.fit_pixel runner self p w = (w', r) ->
  exists new, wk_log w' = new ++ wk_log w /\ Forall (event_ok r) new.
Proof.
  destruct p as [lon lat]. unfold Core.fit_pixel.
  destruct (get_spectra (stack self) lon lat) as [spectra [|]].
  { intros [= <- <-]. exists [EvSkip lon lat]. split; [done|].
    by repeat constructor. }
  destruct (require_group_cases lon lat w) as (w1 & r1 & Hreq & Hlog1 & Hr1).
  destruct Hr1 as [->|[-> _]].
  { rewrite (bind_Raise _ _ _ _ _ Hreq). intros [= <- <-]. exists [].
    split; [done|]. constructor. }
  rewrite (bind_Return _ _ _ _ _ Hreq).
  erewrite bind_Return by reflexivity.
  destruct (Float.isfinite (null_lnZ runner spectra)) eqn:Hnull.
  2: { erewrite bind_Raise by reflexivity. intros [= <- <-].
       exists [EvNull lon lat (null_lnZ runner spectra)].
       split; [simpl; by rewrite Hlog1|]. by repeat constructor. }
  erewrite bind_Return by reflexivity.
  unfold bind.
  destruct (Core.fit_while _ _ _ _ _ _ _ _ _ _) as [w3 r3] eqn:Hloop.
  destruct (core_fit_while_log _ _ _ _ _ _ _ _ _ _ _ _ Hnull Hloop)
    as (new & Hlog3 & Hok3).
  intros Hr. symmetry in Hr.
  eapply (finish_pixel_log lon lat w w3 w' r3 r
            [EvNull lon lat (null_lnZ runner spectra)] new); [| |done|done].
  - rewrite Hlog3. simpl. by rewrite Hlog1.
  - by repeat constructor.
Qed.

Lemma main_fit_pixel_log p w w' r :
  Main.fit_pixel runner self p w = (w', r) ->
  exists new, wk_log w' = new ++ wk_log w /\ Forall (event_ok r) new.
Proof.
  destruct p as [lon lat]. unfold Main.fit_pixel.
  destruct (get_spectra (stack self) lon lat) as [spectra [|]].
  { intros [= <- <-]. exists [EvSkip lon lat]. split; [done|].
    by repeat constructor. }
  destruct (require_group_cases lon lat w) as (w1 & r1 & Hreq & Hlog1 & Hr1).
  destruct Hr1 as [->|[-> _]].
  { rewrite (bind_Raise _ _ _ _ _ Hreq). intros [= <- <-]. exists [].
    split; [done|]. constructor. }
  rewrite (bind_Return _ _ _ _ _ Hreq).
  unfold bind.
  destruct (Main.fit_while _ _ _ _ _ _ _ _ _ _) as [w3 r3] eqn:Hloop.
  destruct (main_fit_while_log _ _ _ _ _ _ _ _ _ _ Hloop)
    as (new & Hlog3 & Hok3).
  intros Hr. symmetry in Hr.
  eapply (finish_pixel_log lon lat w w3 w' r3 r [] new); [| |done|done].
  - rewrite Hlog3. simpl. by rewrite Hlog1.
  - constructor.
Qed.

Lemma for_each_log (body : nat * nat -> M Worker unit) (l : list (nat * nat)) :
  (forall p w w' r, body p w = (w', r) ->
     exists new, wk_log w' = new ++ wk_log w /\ Forall (event_ok r) new) ->
  forall w w' r, for_each l body w = (w', r) ->
    exists new, wk_log w' = new ++ wk_log w /\ Forall (event_ok r) new.
Proof.
  intros Hbody. induction l as [|p l IH]; intros w w' r; simpl.
  - intros [= <- <-]. by exists [].
  - unfold bind. destruct (body p w) as [w1 r1] eqn:Hp.
    destruct (Hbody _ _ _ _ Hp) as (new1 & Hlog1 & Hok1).
    destruct r1 as [[]|e|].
    + intros Hrest. destruct (IH _ _ _ Hrest) as (new & Hlog & Hok).
      exists (new ++ new1). rewrite Hlog, Hlog1, app_assoc. split; [done|].
      apply Forall_app. split; [done|].
      eapply Forall_impl; [done|]. intros ev. apply event_ok_return.
    + intros [= <- <-]. by exists new1.
    + intros [= <- <-]. by exists new1.
Qed.
End fatal.

Section first_order.
Variable runner : Runner.
Variable self : CubeFitter.
Variables lon lat : nat.
Variable w : Worker.
Hypothesis no_nans : snd (get_spectra (stack self) lon lat) = false.
Hypothesis fresh : chunk_lookup (wk_file w) lon lat = None.

Let spec := fst (get_spectra (stack self) lon lat).

Lemma core_null_fatal :
  Float.isfinite (null_lnZ runner spec) = false ->
  snd (Core.fit_pixel runner self (lon, lat) w) = Raise AssertionError.
Proof using no_nans fresh.
  intros Hnull. unfold Core.fit_pixel. subst spec.
  destruct (get_spectra (stack self) lon lat) as [spectra h]; simpl in *.
  subst h. rewrite (bind_Return _ _ _ _ _ (require_group_absent lon lat w fresh)).
  erewrite bind_Return by reflexivity.
  rewrite Hnull. by erewrite bind_Raise by reflexivity.
Qed.

Lemma main_null_fatal :
  1 <= ncomp_max self ->
  Float.isfinite (null_lnZ runner spec) = false ->
  snd (Main.fit_pixel runner self (lon, lat) w) = Raise AssertionError.
Proof using no_nans fresh.
  intros Hmax Hnull. unfold Main.fit_pixel. subst spec.
  destruct (get_spectra (stack self) lon lat) as [spectra h]; simpl in *.
  subst h. rewrite (bind_Return _ _ _ _ _ (require_group_absent lon lat w fresh)).
  destruct (ncomp_max self) as [|m] eqn:Hm; [lia|].
  cbn -[Nat.leb]. rewrite Hm.
  replace (1 <=? S m) with true by (symmetry; apply Nat.leb_le; lia).
  unfold bind at 1.
  erewrite bind_Return by reflexivity.
  erewrite bind_Return
    by (rewrite (create_group_eq lon lat _ 1 empty_group)
          by (simpl; apply chunk_lookup_insert_eq); reflexivity).
  rewrite Hnull. by erewrite bind_Raise by reflexivity.
Qed.

Lemma core_sampler_fatal :
  1 <= ncomp_max self ->
  Float.isfinite (null_lnZ runner spec) = true ->
  Float.isfinite (run_lnZ runner spec 1) = false ->
  snd (Core.fit_pixel runner self (lon, lat) w) = Raise AssertionError.
Proof using no_nans fresh.
  intros Hmax Hnull Hrun. unfold Core.fit_pixel. subst spec.
  destruct (get_spectra (stack self) lon lat) as [spectra h]; simpl in *.
  subst h. rewrite (bind_Return _ _ _ _ _ (require_group_absent lon lat w fresh)).
  erewrite bind_Return by reflexivity.
  rewrite Hnull. erewrite bind_Return by reflexivity.
  destruct (ncomp_max self) as [|m] eqn:Hm; [lia|].
  cbn -[Nat.leb]. rewrite Hm.
  replace (1 <=? S m) with true by (symmetry; apply Nat.leb_le; lia).
  unfold bind at 1.
  erewrite bind_Return by reflexivity.
  erewrite bind_Return
    by (rewrite (create_group_eq lon lat _ 1 empty_group)
          by (simpl; apply chunk_lookup_insert_eq); reflexivity).
  erewrite bind_Return by (apply run_multinest_eq; simpl;
                           apply chunk_lookup_insert_eq).
  rewrite Hrun. by erewrite bind_Raise by reflexivity.
Qed.

Lemma main_sampler_fatal :
  1 <= ncomp_max self ->
  Float.isfinite (null_lnZ runner spec) = true ->
  Float.isfinite (run_lnZ runner spec 1) = false ->
  snd (Main.fit_pixel runner self (lon, lat) w) = Raise AssertionError.
Proof using no_nans fresh.
  intros Hmax Hnull Hrun. unfold Main.fit_pixel. subst spec.
  destruct (get_spectra (stack self) lon lat) as [spectra h]; simpl in *.
  subst h. rewrite (bind_Return _ _ _ _ _ (require_group_absent lon lat w fresh)).
  destruct (ncomp_max self) as [|m] eqn:Hm; [lia|].
  cbn -[Nat.leb]. rewrite Hm.
  replace (1 <=? S m) with true by (symmetry; apply Nat.leb_le; lia).
  unfold bind at 1.
  erewrite bind_Return by reflexivity.
  erewrite bind_Return
    by (rewrite (create_group_eq lon lat _ 1 empty_group)
          by (simpl; apply chunk_lookup_insert_eq); reflexivity).
  rewrite Hnull. erewrite bind_Return by reflexivity.
  erewrite bind_Return by (apply run_multinest_eq; simpl;
                           apply chunk_lookup_insert_eq).
  rewrite Hrun. by erewrite bind_Raise by reflexivity.
Qed.
End first_order.

(** C9. In the fitting loop of both versions a non-finite null-model
    evidence or sampler evidence is fatal.  Whatever the worker is given,
    every reading of a null evidence and every sampler run in its log that
    shows a non-finite value ended the worker with [AssertionError], and
    every evaluation of the threshold test in its log had a finite
    [run_lnZ] and a finite [old_lnZ].  On a pixel without NaN samples
    that is not yet in the file: a non-finite null evidence raises
    [AssertionError] (in main.py the null evidence is read inside the loop,
    so there [ncomp_max >= 1] is needed), and so does a non-finite first
    sampler evidence. *)
Theorem nonfinite_evidence_is_fatal (runner : Runner) (self : CubeFitter)
    (ix : list nat * list nat) (f : ChunkFile) :
  (let '(w', r) := Main.fit_pixels runner self ix {| wk_file := f; wk_log := [] |} in
   Forall (event_ok r) (wk_log w'))
  /\ (let '(w', r) := Core.fit_pixels runner self ix {| wk_file := f; wk_log := [] |} in
      Forall (event_ok r) (wk_log w'))
  /\ (forall lon lat w,
        snd (get_spectra (stack self) lon lat) = false ->
        chunk_lookup (wk_file w) lon lat = None ->
        let spec := fst (get_spectra (stack self) lon lat) in
        (Float.isfinite (null_lnZ runner spec) = false ->
           snd (Core.fit_pixel runner self (lon, lat) w) = Raise AssertionError)
        /\ (1 <= ncomp_max self ->
            Float.isfinite (null_lnZ runner spec) = false ->
              snd (Main.fit_pixel runner self (lon, lat) w) = Raise AssertionError)
        /\ (1 <= ncomp_max self ->
            Float.isfinite (null_lnZ runner spec) = true ->
            Float.isfinite (run_lnZ runner spec 1) = false ->
              snd (Main.fit_pixel runner self (lon, lat) w) = Raise AssertionError
              /\ snd (Core.fit_pixel runner self (lon, lat) w) = Raise AssertionError)).
Proof.
  split; [|split].
  - destruct (Main.fit_pixels _ _ _ _) as [w' r] eqn:Hrun.
    apply (for_each_log (Main.fit_pixel runner self) _
             (main_fit_pixel_log runner self)) in Hrun as (new & Hlog & Hok).
    simpl in Hlog. by rewrite Hlog, app_nil_r.
  - destruct (Core.fit_pixels _ _ _ _) as [w' r] eqn:Hrun.
    apply (for_each_log (Core.fit_pixel runner self) _
             (core_fit_pixel_log runner self)) in Hrun as (new & Hlog & Hok).
    simpl in Hlog. by rewrite Hlog, app_nil_r.
  - intros lon lat w Hnan Hfresh spec. split; [|split].
    + by apply core_null_fatal.
    + by apply main_null_fatal.
    + intros. split; [by apply main_sampler_fatal | by apply core_sampler_fatal].
Qed.

Lemma nonfinite_evidence_is_fatal_witness :
  snd (Core.fit_pixel nan_null_runner Scenario.fitter (0, 0) fresh_worker)
    = Raise AssertionError
  /\ snd (Main.fit_pixel nan_null_runner Scenario.fitter (0, 0) fresh_worker)
    = Raise AssertionError
  /\ snd (Main.fit_pixel inf_run_runner Scenario.fitter (0, 0) fresh_worker)
    = Raise AssertionError
  /\ snd (Core.fit_pixel inf_run_runner Scenario.fitter (0, 0) fresh_worker)
    = Raise AssertionError.
Proof.
  pose proof (nonfinite_evidence_is_fatal nan_null_runner Scenario.fitter
                ([], []) empty_chunk) as (_ & _ & Hnan).
  pose proof (nonfinite_evidence_is_fatal inf_run_runner Scenario.fitter
                ([], []) empty_chunk) as (_ & _ & Hinf).
  specialize (Hnan 0 0 fresh_worker eq_refl eq_refl) as (Hc & Hm & _).
  specialize (Hinf 0 0 fresh_worker eq_refl eq_refl) as (_ & _ & Hs).
  split; [apply Hc; reflexivity|]. split; [apply Hm; [simpl; lia | reflexivity]|].
  apply Hs; [simpl; lia | reflexivity | reflexivity].
Defined.

(** ** The evidence chain of a persisted pixel *)

Lemma well_fitted_invariant runner self spec g :
  Float.isnan (lnZ_thresh self) = false ->
  well_fitted runner self spec g ->
  evidence_invariant (lnZ_thresh self) g.
Proof.
  intros Hthr [Hnone|(nb & m & Hnb & Hsubs & Hnull & Hacc & Hend)] k Hk Hpos.
  { congruence. }
  rewrite Hnb in Hk. injection Hk as Hk. apply Nat2Z.inj in Hk. subst k.
  assert (nb <= m) as Hm by (destruct Hend as [->|[-> _]]; lia).
  assert (forall i, 1 <= i <= m -> log_evidence g i = Some (run_lnZ runner spec i))
    as Hglobal.
  { intros i Hi. unfold log_evidence.
    replace (i =? 0) with false by (symmetry; apply Nat.eqb_neq; lia).
    rewrite (Hsubs i), decide_True by lia. done. }
  assert (1 <= m -> log_evidence g 0 = Some (null_lnZ runner spec)) as Hzero.
  { intros H1. unfold log_evidence. simpl.
    rewrite (Hsubs 1), decide_True by lia. done. }
  assert (forall i, 1 <= i <= m ->
            log_evidence g (i - 1) = Some (prev_lnZ runner spec i)) as Hprev.
  { intros i Hi. unfold prev_lnZ. destruct (Nat.eqb_spec i 1) as [->|Hne].
    - apply Hzero. lia.
    - apply Hglobal. lia. }
  assert (forall i, 1 <= i <= nb + 1 ->
            Float.isfinite (prev_lnZ runner spec i) = true) as Hfin.
  { intros i Hi. unfold prev_lnZ.
    destruct (Nat.eqb_spec i 1) as [->|Hne]; [apply Hnull; lia|].
    apply Hacc. lia. }
  split.
  - intros i Hi. exists (dumped runner spec i), (run_lnZ runner spec i),
      (prev_lnZ runner spec i).
    split; [rewrite (Hsubs i), decide_True by lia; done|].
    split; [done|]. split; [apply Hglobal; lia|]. split; [apply Hprev; lia|].
    destruct (Hacc i Hi) as [Hrun Hlt].
    apply float_not_lt_ge; auto. apply Hfin. lia.
  - intros [sg Hsg]. rewrite (Hsubs (nb + 1)) in Hsg.
    case_decide as Hin; [|done].
    destruct Hend as [->|[-> [Hrun Hlt]]]; [lia|].
    exists (run_lnZ runner spec (nb + 1)), (prev_lnZ runner spec (nb + 1)).
    split; [apply Hglobal; lia|]. split; [|done].
    replace nb with (nb + 1 - 1) at 1 by lia. apply Hprev. lia.
Qed.

Lemma subs_upto_empty runner spec : subs_upto runner spec 0 ∅.
Proof. intros i. rewrite lookup_empty. by rewrite decide_False by lia. Qed.

Lemma subs_upto_first runner spec :
  subs_upto runner spec 1
    (alter (Dumper_write 1 (null_lnZ runner spec) (run_lnZ runner spec 1)) 1
       (<[1 := empty_subgroup]> ∅)).
Proof.
  intros i. destruct (decide (i = 1)) as [->|Hne].
  - rewrite lookup_alter_eq, lookup_insert_eq. simpl. done.
  - rewrite lookup_alter_ne, lookup_insert_ne, lookup_empty by done.
    by rewrite decide_False by lia.
Qed.

(** The end of both versions: the loop's outcome, then the three
    attributes. *)
Lemma finish_pixel_fitted runner self spec lon lat (w3 w' : Worker) (r3 : res nat) (r : res unit) g3 m :
  chunk_lookup (wk_file w3) lon lat = Some (OGroup g3) ->
  pg_nbest g3 = None ->
  subs_upto runner spec m (pg_subs g3) ->
  match r3 with
  | Return nb =>
      (1 <= nb -> Float.isfinite (null_lnZ runner spec) = true)
      /\ (forall i, 1 <= i <= nb -> accepted runner self spec i)
      /\ (m = nb \/ (m = nb + 1 /\ rejected runner self spec m))
  | _ => True
  end ->
  match r3 with
  | Return nb => set_pixel_attrs lon lat nb w3
  | Raise e => (w3, Raise e)
  | Timeout => (w3, Timeout)
  end = (w', r) ->
  forall g', chunk_lookup (wk_file w') lon lat = Some (OGroup g') ->
    well_fitted runner self spec g'.
Proof.
  intros Hl Hnone Hsubs Hr3 Hr g' Hg'.
  destruct r3 as [nb|e|].
  - rewrite (set_pixel_attrs_eq lon lat w3 nb g3 Hl) in Hr.
    injection Hr as <- <-. simpl in Hg'.
    rewrite chunk_lookup_insert_eq in Hg'. injection Hg' as <-.
    right. exists nb, m. simpl. destruct Hr3 as (Hnull & Hacc & Hend). done.
  - injection Hr as <- <-. left. congruence.
  - injection Hr as <- <-. left. congruence.
Qed.

Section fresh_pixel.
Variable runner : Runner.
Variable self : CubeFitter.
Variables lon lat : nat.
Variable w : Worker.
Hypothesis no_nans : snd (get_spectra (stack self) lon lat) = false.
Hypothesis fresh : chunk_lookup (wk_file w) lon lat = None.

Let spec := fst (get_spectra (stack self) lon lat).

Lemma core_fit_pixel_fresh w' r :
  Core.fit_pixel runner self (lon, lat) w = (w', r) ->
  r <> Timeout
  /\ forall g', chunk_lookup (wk_file w') lon lat = Some (OGroup g') ->
       well_fitted runner self spec g'.
Proof using no_nans fresh.
  unfold Core.fit_pixel. subst spec.
  destruct (get_spectra (stack self) lon lat) as [spectra h]; simpl in *.
  subst h. rewrite (bind_Return _ _ _ _ _ (require_group_absent lon lat w fresh)).
  erewrite bind_Return by reflexivity.
  destruct (Float.isfinite (null_lnZ runner spectra)) eqn:Hnull.
  2: { erewrite bind_Raise by reflexivity. intros [= <- <-]. split; [done|].
       intros g'. simpl. rewrite chunk_lookup_insert_eq. intros [= <-].
       by left. }
  erewrite bind_Return by reflexivity.
  unfold bind.
  destruct (Core.fit_while _ _ _ _ _ _ _ _ _ _) as [w3 r3] eqn:Hloop.
  apply (core_fit_while_fresh runner self lon lat spectra (ncomp_max self) 1
           _ empty_group) in Hloop
    as (g3 & m & Hl3 & _ & _ & Hnb3 & Hsubs3 & Hr3);
    [| lia | lia | simpl; apply chunk_lookup_insert_eq | apply subs_upto_empty].
  intros Hr. split.
  { destruct r3 as [nb|e|]; [|by injection Hr as <- <-|done].
    rewrite (set_pixel_attrs_eq lon lat w3 nb g3 Hl3) in Hr. by injection Hr as <- <-. }
  eapply (finish_pixel_fitted runner self spectra lon lat w3 w' r3 r g3 m);
    try done.
  destruct r3 as [nb|e|]; [|done..].
  destruct Hr3 as (_ & Hacc & Hend). split; [done|]. split; [done|].
  destruct Hend as [[-> _]|(-> & ? & _)]; auto.
Qed.

Lemma main_fit_pixel_fresh w' r :
  Main.fit_pixel runner self (lon, lat) w = (w', r) ->
  r <> Timeout
  /\ forall g', chunk_lookup (wk_file w') lon lat = Some (OGroup g') ->
       well_fitted runner self spec g'.
Proof using no_nans fresh.
  unfold Main.fit_pixel. subst spec.
  destruct (get_spectra (stack self) lon lat) as [spectra h]; simpl in *.
  subst h. rewrite (bind_Return _ _ _ _ _ (require_group_absent lon lat w fresh)).
  destruct (ncomp_max self) as [|mx] eqn:Hmax.
  { cbn. rewrite Hmax. cbn.
    rewrite (set_pixel_attrs_eq lon lat _ 0 empty_group)
      by (simpl; apply chunk_lookup_insert_eq).
    intros [= <- <-]. split; [done|]. intros g'. simpl.
    rewrite chunk_lookup_insert_eq. intros [= <-].
    right. exists 0, 0. simpl. split; [done|]. split; [apply subs_upto_empty|].
    split; [lia|]. split; [intros; lia | by left]. }
  cbn -[Nat.leb]. rewrite Hmax.
  replace (1 <=? S mx) with true by (symmetry; apply Nat.leb_le; lia).
  unfold bind at 1.
  erewrite bind_Return by reflexivity.
  erewrite bind_Return
    by (rewrite (create_group_eq lon lat _ 1 empty_group)
          by (simpl; apply chunk_lookup_insert_eq); reflexivity).
  destruct (Float.isfinite (null_lnZ runner spectra)) eqn:Hnull.
  2: { erewrite bind_Raise by reflexivity. intros [= <- <-]. split; [done|].
       intros g'. simpl. rewrite chunk_lookup_insert_eq. intros [= <-].
       by left. }
  erewrite bind_Return by reflexivity.
  erewrite bind_Return by (apply run_multinest_eq; simpl;
                           apply chunk_lookup_insert_eq).
  destruct (Float.isfinite (run_lnZ runner spectra 1)) eqn:Hfin.
  2: { erewrite bind_Raise by reflexivity. intros [= <- <-]. split; [done|].
       intros g'. simpl. rewrite chunk_lookup_insert_eq. intros [= <-].
       by left. }
  erewrite bind_Return by reflexivity.
  erewrite bind_Return by reflexivity.
  erewrite bind_Return by reflexivity.
  destruct (Float.ltb _ _) eqn:Hlt.
  - unfold ret. cbv beta iota.
    erewrite set_pixel_attrs_eq by (simpl; apply chunk_lookup_insert_eq).
    intros [= <- <-]. split; [done|]. intros g'. simpl.
    rewrite chunk_lookup_insert_eq. intros [= <-].
    right. exists 0, 1. simpl. split; [done|]. split; [apply subs_upto_first|].
    split; [lia|]. split; [intros; lia|]. right. split; [done|]. by split.
  - rewrite main_core_fit_while by lia.
    destruct (Core.fit_while _ _ _ _ _ _ _ _ _ _) as [w3 r3] eqn:Hloop.
    match type of Hloop with
    | Core.fit_while _ _ _ _ _ _ _ _ _ ?w2 = _ =>
        pose proof (core_fit_while_fresh runner self lon lat spectra mx 2 w2 _
                      w3 r3 ltac:(lia) ltac:(lia)
                      (chunk_lookup_insert_eq _ _ _ _)
                      (subs_upto_first runner spectra) Hloop)
          as (g3 & m & Hl3 & _ & _ & Hnb3 & Hsubs3 & Hr3)
    end.
    intros Hr. split.
    { destruct r3 as [nb|e|]; [|by injection Hr as <- <-|done].
      rewrite (set_pixel_attrs_eq lon lat w3 nb g3 Hl3) in Hr.
      by injection Hr as <- <-. }
    eapply (finish_pixel_fitted runner self spectra lon lat w3 w' r3 r g3 m);
      try done.
    destruct r3 as [nb|e|]; [|done..].
    destruct Hr3 as (Hnb & Hacc & Hend). split; [done|]. split.
    + intros i Hi. destruct (decide (i = 1)) as [->|]; [by split|].
      apply Hacc. lia.
    + destruct Hend as [[-> _]|(-> & ? & _)]; auto.
Qed.
End fresh_pixel.

Section worker_invariant.
Variable runner : Runner.
Variable self : CubeFitter.
Variable body : nat * nat -> M Worker unit.
Hypothesis body_keeping : forall lon lat, keeping lon lat (body (lon, lat)).
Hypothesis body_skip : forall lon lat w,
  snd (get_spectra (stack self) lon lat) = true ->
  wk_file (fst (body (lon, lat) w)) = wk_file w
  /\ snd (body (lon, lat) w) = Return tt.
Hypothesis body_fresh : forall lon lat w w' r,
  snd (get_spectra (stack self) lon lat) = false ->
  chunk_lookup (wk_file w) lon lat = None ->
  body (lon, lat) w = (w', r) ->
  r <> Timeout
  /\ forall g', chunk_lookup (wk_file w') lon lat = Some (OGroup g') ->
       well_fitted runner self (fst (get_spectra (stack self) lon lat)) g'.

Lemma for_each_fitted l : NoDup l -> forall w w' r,
  (forall p, p ∈ l -> chunk_lookup (wk_file w) p.1 p.2 = None) ->
  all_fitted runner self (wk_file w) ->
  for_each l body w = (w', r) ->
  r <> Timeout /\ all_fitted runner self (wk_file w').
Proof using body_keeping body_skip body_fresh.
  induction 1 as [|[lon lat] l Hnotin Hnd IH]; intros w w' r Hfresh Hall; simpl.
  { by intros [= <- <-]. }
  unfold bind. destruct (body (lon, lat) w) as [w1 r1] eqn:Hbody.
  assert (chunk_lookup (wk_file w) lon lat = None) as Hp
    by (apply (Hfresh (lon, lat)); by left).
  assert (r1 <> Timeout /\ all_fitted runner self (wk_file w1)
          /\ forall q, q ∈ l -> chunk_lookup (wk_file w1) q.1 q.2 = None)
    as (Hr1 & Hall1 & Hfresh1).
  { pose proof (body_keeping lon lat w) as [Hframe _]. rewrite Hbody in Hframe.
    simpl in Hframe.
    destruct (snd (get_spectra (stack self) lon lat)) eqn:Hnan.
    - destruct (body_skip lon lat w Hnan) as [Hfile Hret].
      rewrite Hbody in Hfile, Hret. simpl in Hfile, Hret. subst r1.
      split; [done|]. rewrite Hfile. split; [done|].
      intros q Hq. apply Hfresh. by right.
    - destruct (body_fresh lon lat w w1 r1 Hnan Hp Hbody) as [Hr1 Hfit].
      split; [done|]. split.
      + intros a b g Hg.
        destruct (decide ((lon, lat) = (a, b))) as [[= <- <-]|Hne]; [by apply Hfit|].
        rewrite Hframe in Hg by done. by apply Hall.
      + intros [a b] Hq. simpl. rewrite Hframe.
        * apply (Hfresh (a, b)). by right.
        * intros [= <- <-]. done. }
  destruct r1 as [[]|e|]; [|by intros [= <- <-]|done].
  intros Hrest. by eapply IH.
Qed.
End worker_invariant.



(** ** Aggregation of [nbest] *)

Lemma iter_lat_yields sd t lon (ks : list nat) g :
  g ∈ fst (iter_lat sd t lon (Some <$> ks)) ->
  exists lat, getitem sd t lon lat = inr (OGroup g).
Proof.
  induction ks as [|k ks IH]; simpl; [by intros ?%elem_of_nil|].
  destruct (getitem sd t lon k) as [e|[g'|]] eqn:Hget; simpl.
  - by intros ?%elem_of_nil.
  - intros [->|Hin]%elem_of_cons; [by exists k | by apply IH].
  - apply IH.
Qed.

Lemma iter_lon_yields sd t pix (ks : list nat) g :
  g ∈ fst (iter_lon sd t pix (Some <$> ks)) ->
  exists lon lat, getitem sd t lon lat = inr (OGroup g).
Proof.
  induction ks as [|k ks IH]; simpl; [by intros ?%elem_of_nil|].
  destruct (pix !! k) as [row|]; simpl; [|by intros ?%elem_of_nil].
  unfold gen_seq, member_names.
  destruct (snd (iter_lat sd t k _)) as [e|] eqn:Hlat; simpl.
  - intros Hin. exists k. by eapply iter_lat_yields.
  - intros [Hin|Hin]%elem_of_app; [|by apply IH].
    exists k. by eapply iter_lat_yields.
Qed.

Lemma iter_pix_groups_yields sd g :
  g ∈ fst (iter_pix_groups sd) ->
  exists t lon lat, sd_table sd = Some t /\ getitem sd t lon lat = inr (OGroup g).
Proof.
  unfold iter_pix_groups.
  destruct (sd_open sd); [|by intros ?%elem_of_nil].
  destruct (sd_table sd) as [t|]; [|by intros ?%elem_of_nil].
  destruct (t_pix t) as [pix|]; [|by intros ?%elem_of_nil].
  intros (lon & lat & Hget)%iter_lon_yields. by exists t, lon, lat.
Qed.

Lemma getitem2_setitem2 {A} (a a' : list (list A)) i j v i' j' :
  setitem2 a i j v = Some a' ->
  getitem2 a' i' j'
  = if decide (i = i' /\ j = j') then Some v else getitem2 a i' j'.
Proof.
  unfold setitem2, getitem2.
  destruct (a !! i) as [row|] eqn:Hrow; simpl; [|done].
  destruct (row !! j) as [x|] eqn:Hx; simpl; [|done].
  intros [= <-].
  destruct (decide (i = i')) as [<-|Hi].
  - rewrite list_lookup_insert_eq by by eapply lookup_lt_Some.
    simpl. destruct (decide (j = j')) as [<-|Hj].
    + rewrite list_lookup_insert_eq by by eapply lookup_lt_Some.
      by rewrite decide_True.
    + rewrite list_lookup_insert_ne by done. rewrite Hrow. simpl.
      by rewrite decide_False by (by intros [_ ?]).
  - rewrite list_lookup_insert_ne by done.
    by rewrite decide_False by (by intros [? _]).
Qed.

Lemma getitem2_full2 {A} n m (v : A) i j :
  i < n -> j < m -> getitem2 (full2 n m v) i j = Some v.
Proof.
  intros Hi Hj. unfold getitem2, full2.
  rewrite lookup_replicate_2 by done. simpl. by rewrite lookup_replicate_2.
Qed.

Lemma getitem2_transpose2 {A} (d : A) n m a i j :
  i < n -> j < m ->
  getitem2 (transpose2 d (n, m) a) j i = Some (default d (getitem2 a i j)).
Proof.
  intros Hi Hj. unfold transpose2, getitem2 at 1. simpl.
  rewrite list_lookup_fmap, lookup_seq_lt by done. simpl.
  rewrite list_lookup_fmap, lookup_seq_lt by done. done.
Qed.

Section nbest_map.
Variables lon lat : nat.

Lemma aggregate_group_other acc g acc' sd sd' :
  aggregate_group acc g sd = (sd', Return acc') ->
  (pg_i_lon g, pg_i_lat g) <> (Some lon, Some lat) ->
  getitem2 (fst acc') lon lat = getitem2 (fst acc) lon lat.
Proof.
  unfold aggregate_group. destruct acc as [nb lnz]. intros H Hne.
  destruct (pg_i_lon g) as [a|]; cbn [from_option] in H;
    [rewrite bind_ret_l in H | by rewrite bind_raise_l in H].
  destruct (pg_i_lat g) as [b|]; cbn [from_option] in H;
    [rewrite bind_ret_l in H | by rewrite bind_raise_l in H].
  destruct (pg_nbest g) as [v|]; cbn [from_option] in H;
    [rewrite bind_ret_l in H | by rewrite bind_raise_l in H].
  destruct (setitem2 nb a b (wrap32 v)) as [nb'|] eqn:Hset; cbn [from_option] in H;
    [rewrite bind_ret_l in H | by rewrite bind_raise_l in H].
  unfold bind in H.
  destruct (fold_m _ _ _ _) as [sd1 [lnz'|e|]]; [|done..].
  injection H as <- <-. simpl.
  rewrite (getitem2_setitem2 _ _ _ _ _ _ _ Hset).
  rewrite decide_False; [done|]. intros [-> ->]. done.
Qed.

Lemma fold_aggregate_other (gs : list PixGroup) : forall acc acc' sd sd',
  fold_m gs aggregate_group acc sd = (sd', Return acc') ->
  (forall g, g ∈ gs -> (pg_i_lon g, pg_i_lat g) <> (Some lon, Some lat)) ->
  getitem2 (fst acc') lon lat = getitem2 (fst acc) lon lat.
Proof.
  induction gs as [|g gs IH]; intros acc acc' sd sd'; simpl.
  - by intros [= <- <-].
  - unfold bind.
    destruct (aggregate_group acc g sd) as [sd1 [acc1|e|]] eqn:Hg; [|done..].
    intros Hrest Hall. rewrite (IH _ _ _ _ Hrest).
    + eapply aggregate_group_other; [done|]. apply Hall. by left.
    + intros g' Hg'. apply Hall. by right.
Qed.
End nbest_map.

Lemma the_table_eq sd t : sd_table sd = Some t -> the_table sd = (sd, Return t).
Proof. intros Ht. unfold the_table, bind, get. by rewrite Ht. Qed.

Lemma the_table_missing sd :
  sd_table sd = None -> the_table sd = (sd, Raise ValueError).
Proof. intros Ht. unfold the_table, bind, get. by rewrite Ht. Qed.

Lemma create_dataset_clobber dset_name data sd t :
  sd_table sd = Some t ->
  0 < String.length dset_name ->
  create_dataset dset_name data true sd
  = ({| sd_table := Some (table_set_products t (<[dset_name := data]> (t_products t)));
        sd_open := sd_open sd; sd_chunks := sd_chunks sd |}, Return tt).
Proof.
  intros Ht Hlen. unfold create_dataset.
  replace (0 <? String.length dset_name) with true
    by (symmetry; by apply Nat.ltb_lt).
  erewrite bind_Return by reflexivity.
  rewrite (bind_Return _ _ _ _ _ (the_table_eq sd t Ht)).
  by destruct (t_products t !! dset_name).
Qed.

(** In a store whose links lead to groups written by the workers, the
    aggregated [nbest] map keeps the fill value -1 at a cell whose spectra
    have a NaN. *)
Lemma aggregate_nbest_unfit stack sd sd' lon lat :
  linked_ok stack sd ->
  snd (get_spectra stack lon lat) = true ->
  aggregate_run_attributes sd = (sd', Return tt) ->
  exists t n_lon n_lat a,
    sd_table sd = Some t
    /\ t_naxis1 t = Some n_lon /\ t_naxis2 t = Some n_lat
    /\ sd_chunks sd' = sd_chunks sd
    /\ Scenario.product sd' "nbest" = Some (DInt2 a)
    /\ (lon < n_lon -> lat < n_lat -> getitem2 a lat lon = Some (-1)%Z).
Proof.
  intros Hok Hnan. unfold aggregate_run_attributes.
  destruct (sd_table sd) as [t|] eqn:Ht;
    [rewrite (bind_Return _ _ _ _ _ (the_table_eq sd t Ht))
    |by rewrite (bind_Raise _ _ _ _ _ (the_table_missing sd Ht))].
  destruct (t_naxis1 t) as [n_lon|] eqn:Hn1; cbn [from_option];
    [rewrite bind_ret_l | by rewrite bind_raise_l].
  destruct (t_naxis2 t) as [n_lat|] eqn:Hn2; cbn [from_option];
    [rewrite bind_ret_l | by rewrite bind_raise_l].
  destruct (t_n_max_components t) as [nmax|] eqn:Hn3; cbn [from_option];
    [rewrite bind_ret_l | by rewrite bind_raise_l].
  erewrite bind_Return by reflexivity.
  unfold fold_gen. unfold bind at 1. unfold bind at 1.
  destruct (reads_only_fold_m (fst (iter_pix_groups sd)) aggregate_group
              (full2 n_lon n_lat (-1)%Z, full3 n_lon n_lat (nmax + 1) Float.NaN)
              reads_only_aggregate_group sd) as (r & Hfold & Hr).
  rewrite Hfold. destruct r as [acc|e|]; [|done..].
  destruct (snd (iter_pix_groups sd)) as [e|] eqn:Hgen; [done|].
  unfold ret at 1. cbv beta iota.
  erewrite bind_Return
    by (apply (create_dataset_clobber _ _ _ t); [done | simpl; lia]).
  erewrite create_dataset_clobber; [|simpl; reflexivity|simpl; lia].
  intros [= <-]. exists t, n_lon, n_lat, (transpose2 (-1)%Z (n_lon, n_lat) acc.1).
  do 4 (split; [done|]). split.
  { unfold Scenario.product. cbn [sd_table mbind option_bind t_products
      table_set_products].
    rewrite lookup_insert_ne by done. apply lookup_insert_eq. }
  intros Hlon Hlat. rewrite getitem2_transpose2 by done.
  rewrite (fold_aggregate_other lon lat _ _ _ _ _ Hfold).
  - simpl. by rewrite getitem2_full2.
  - intros g Hg [= Hglon Hglat].
    apply iter_pix_groups_yields in Hg as (t' & a & b & Ht' & Hget).
    destruct (Hok _ _ _ _ Ht' Hget) as (Hab & g' & [= <-] & Halon & Halat).
    apply Halon in Hglon. apply Halat in Hglat. subst. congruence.
Qed.

(** ** What [fit_cube] leaves in the store *)

Lemma store_ok_linked stack sd : store_ok stack sd -> linked_ok stack sd.
Proof.
  intros (Hfiles & Hlinks & _) t lon lat o Ht. unfold getitem.
  destruct (table_lookup t lon lat) as [n|] eqn:Hn; [|done].
  destruct (Hlinks _ _ _ _ Ht Hn) as [file ->].
  destruct (sd_chunks sd !! file) as [f|] eqn:Hf; [|done].
  destruct (chunk_lookup f lon lat) as [o'|] eqn:Ho; [|done].
  intros [= <-]. by eapply Hfiles.
Qed.

Lemma store_ok_empty stack : store_ok stack empty_dir.
Proof. split; [intros file f; simpl; by rewrite lookup_empty | by split]. Qed.

Lemma table_lookup_insert t lon lat n lon' lat' :
  table_lookup (table_insert t lon lat n) lon' lat'
  = if decide (lon = lon' /\ lat = lat') then Some n else table_lookup t lon' lat'.
Proof.
  unfold table_lookup, table_insert. simpl.
  destruct (decide (lon = lon')) as [->|Hlon].
  - rewrite lookup_insert_eq. simpl.
    destruct (decide (lat = lat')) as [->|Hlat].
    + rewrite lookup_insert_eq. by rewrite decide_True.
    + rewrite lookup_insert_ne by done. rewrite decide_False by (by intros [_ ?]).
      destruct (t_pix t) as [pix|]; simpl; [|done].
      by destruct (pix !! lon').
  - rewrite lookup_insert_ne by done. rewrite decide_False by (by intros [? _]).
    by destruct (t_pix t).
Qed.

Section keeps_store.
Variable stack : CubeStack.

(** A step that leaves the chunk files alone and the members of [/pix]
    and the shape attributes as they were (or makes a table file without
    any). *)
Lemma store_ok_update sd sd' :
  sd_chunks sd' = sd_chunks sd ->
  (forall t', sd_table sd' = Some t' ->
     (t_pix t' = None /\ t_naxis1 t' = None)
     \/ exists t, sd_table sd = Some t /\ t_pix t' = t_pix t
          /\ t_naxis1 t' = t_naxis1 t /\ t_naxis2 t' = t_naxis2 t) ->
  store_ok stack sd -> store_ok stack sd'.
Proof.
  intros Hchunks Htable (Hfiles & Hlinks & Hshape). split; [|split].
  - rewrite Hchunks. apply Hfiles.
  - intros t' lon lat n Ht' Hn.
    destruct (Htable _ Ht') as [[Hnone _]|(t & Ht & Hpix & _)].
    + unfold table_lookup in Hn. by rewrite Hnone in Hn.
    + apply (Hlinks t); [done|]. unfold table_lookup in *. by rewrite <- Hpix.
  - intros t' n_lon n_lat Ht' H1 H2.
    destruct (Htable _ Ht') as [[_ Hnone]|(t & Ht & _ & Hn1 & Hn2)].
    + congruence.
    + apply (Hshape t); congruence.
Qed.

Lemma keeps_store_ret {A} (a : A) : keeps_store stack (ret a).
Proof. by intros sd. Qed.

Lemma keeps_store_raise {A} e : keeps_store stack (raise (A:=A) e).
Proof. by intros sd. Qed.

Lemma keeps_store_from_option {A} e (o : option A) :
  keeps_store stack (from_option e o).
Proof. destruct o; [apply keeps_store_ret | apply keeps_store_raise]. Qed.

Lemma keeps_store_assert c : keeps_store stack (assert c).
Proof. destruct c; [apply keeps_store_ret | apply keeps_store_raise]. Qed.

Lemma keeps_store_get : keeps_store stack get.
Proof. by intros sd. Qed.

Lemma keeps_store_bind {A B} (m : M StoreDir A) (k : A -> M StoreDir B) :
  keeps_store stack m -> (forall a, keeps_store stack (k a)) ->
  keeps_store stack (bind m k).
Proof.
  intros Hm Hk sd Hok. unfold bind. specialize (Hm sd Hok).
  destruct (m sd) as [sd1 [a|e|]]; simpl in *; [|done..]. by apply Hk.
Qed.

Lemma keeps_store_for_each {A} (l : list A) (body : A -> M StoreDir unit) :
  (forall x, keeps_store stack (body x)) -> keeps_store stack (for_each l body).
Proof.
  intros Hbody. induction l as [|x l IH]; simpl; [apply keeps_store_ret|].
  apply keeps_store_bind; [apply Hbody | by intros _].
Qed.

Lemma keeps_store_in_process (m : M StoreDir unit) :
  keeps_store stack m -> keeps_store stack (in_process m).
Proof. intros Hm sd Hok. unfold in_process. simpl. by apply Hm. Qed.

Lemma keeps_store_is_open : keeps_store stack is_open.
Proof. by intros sd. Qed.

Lemma keeps_store_the_table : keeps_store stack the_table.
Proof.
  intros sd Hok. unfold the_table, bind, get.
  by destruct (sd_table sd).
Qed.

Lemma keeps_store_set_open b : keeps_store stack (set_open b).
Proof.
  intros sd. apply store_ok_update; simpl; [done|].
  intros t' Ht'. right. by exists t'.
Qed.

Lemma keeps_store_close : keeps_store stack close.
Proof. apply keeps_store_set_open. Qed.

Lemma keeps_store_HdfStore_init nm n : keeps_store stack (HdfStore_init nm n).
Proof.
  intros sd. unfold HdfStore_init, bind, get, set_table, set_open, modify, ret.
  simpl. destruct (sd_table sd) as [t|] eqn:Ht; simpl.
  - destruct (t_nchunks t); simpl; apply store_ok_update; simpl; try done.
    all: intros t' [= <-]; right; by exists t.
  - apply store_ok_update; simpl; [done|]. intros t' [= <-]. by left.
Qed.

Lemma stack_shapes st n0 n1 n2 :
  stack_shape st = Some (n0, n1, n2) -> stack_spatial_shape st = Some (n0, n1).
Proof.
  unfold stack_shape, stack_spatial_shape, dc_spatial_shape.
  destruct (head (cubes st)) as [c|]; simpl; [|done].
  by intros [= ->].
Qed.

Lemma keeps_store_insert_header : keeps_store stack (insert_header stack).
Proof.
  intros sd. unfold insert_header, is_open, the_table, bind, get, set_table,
    modify, ret, raise, from_option.
  destruct (sd_open sd); simpl; [|done].
  destruct (sd_table sd) as [t|] eqn:Ht; simpl; [|done].
  destruct (t_headers t); simpl; [done|].
  destruct (stack_shape stack) as [[[n0 n1] n2]|] eqn:Hshape; simpl; [|done].
  intros (Hfiles & Hlinks & _). split; [done|]. split; simpl.
  - intros t' lon lat n [= <-] Hn. apply (Hlinks t); [done | exact Hn].
  - intros t' n_lon n_lat [= <-]. simpl. intros [= <-] [= <-].
    by eapply stack_shapes.
Qed.

Lemma keeps_store_insert_fitter_pars fitter :
  keeps_store stack (insert_fitter_pars fitter).
Proof.
  intros sd. unfold insert_fitter_pars, is_open, the_table, bind, get,
    set_table, modify, ret, raise, from_option, assert.
  destruct (sd_open sd); simpl; [|done].
  destruct (sd_table sd) as [t|] eqn:Ht; simpl; [|done].
  apply store_ok_update; simpl; [done|]. intros t' [= <-]. right. by exists t.
Qed.

Lemma keeps_store_link_pixel file lon lat :
  keeps_store stack (link_pixel file lon lat).
Proof.
  intros sd Hok. unfold link_pixel.
  destruct (sd_table sd) as [t|] eqn:Ht;
    [rewrite (bind_Return _ _ _ _ _ (the_table_eq sd t Ht))
    |by rewrite (bind_Raise _ _ _ _ _ (the_table_missing sd Ht))].
  destruct (table_lookup t lon lat) eqn:Hl; simpl; [done|].
  destruct Hok as (Hfiles & Hlinks & Hshape). split; [done|]. split; simpl.
  - intros t' a b n [= <-].
    rewrite table_lookup_insert. case_decide as Hab.
    + destruct Hab as [-> ->]. intros [= <-]. by exists file.
    + by apply Hlinks.
  - intros t' n_lon n_lat [= <-]. simpl. by apply Hshape.
Qed.

Lemma keeps_store_link_files store : keeps_store stack (link_files store).
Proof.
  unfold link_files.
  apply keeps_store_bind; [apply keeps_store_is_open | intros o].
  apply keeps_store_bind; [apply keeps_store_assert | intros _].
  apply keeps_store_for_each. intros p. unfold link_chunk.
  apply keeps_store_bind; [apply keeps_store_get | intros sd].
  apply keeps_store_bind; [apply keeps_store_from_option | intros f].
  apply keeps_store_bind; [apply keeps_store_from_option | intros pix].
  apply keeps_store_for_each. intros lon_row.
  apply keeps_store_for_each. intros lat_obj.
  apply keeps_store_link_pixel.
Qed.
End keeps_store.

Section fit_cube_store.
Variable runner : Runner.
Variable self : CubeFitter.

Lemma keeps_store_fit ix path :
  keeps_store (stack self) (MainCube.fit runner self ix path).
Proof.
  intros sd (Hfiles & Hlinks & Hshape). unfold MainCube.fit.
  set (hdf := default empty_chunk (sd_chunks sd !! name path)).
  assert (file_ok (stack self) hdf) as Hhdf.
  { unfold hdf. destruct (sd_chunks sd !! name path) as [f|] eqn:Hf; simpl.
    - by eapply Hfiles.
    - intros lon lat o. by rewrite chunk_lookup_empty. }
  pose proof (main_fit_pixels_file_ok runner self ix
                {| wk_file := hdf; wk_log := [] |} Hhdf) as Hw.
  destruct (Main.fit_pixels _ _ _ _) as [w r]. simpl in *.
  split; simpl; [|by split].
  intros file f. destruct (decide (name path = file)) as [<-|Hne].
  - rewrite lookup_insert_eq. by intros [= <-].
  - rewrite lookup_insert_ne by done. apply Hfiles.
Qed.

Lemma keeps_store_fit_cube nm nproc :
  keeps_store (stack self) (MainCube.fit_cube runner self nm nproc).
Proof.
  unfold MainCube.fit_cube.
  apply keeps_store_bind; [apply keeps_store_from_option | intros _].
  apply keeps_store_bind; [apply keeps_store_HdfStore_init | intros store].
  apply keeps_store_bind; [apply keeps_store_insert_header | intros _].
  apply keeps_store_bind; [apply keeps_store_insert_fitter_pars | intros _].
  apply keeps_store_bind; [apply keeps_store_from_option | intros shape].
  apply keeps_store_bind.
  { destruct (nchunks store =? 1).
    - apply keeps_store_bind; [apply keeps_store_from_option | intros ix].
      apply keeps_store_bind; [apply keeps_store_from_option | intros path].
      apply keeps_store_fit.
    - apply keeps_store_for_each. intros args.
      apply keeps_store_in_process, keeps_store_fit. }
  intros _.
  apply keeps_store_bind; [apply keeps_store_link_files | intros _].
  apply keeps_store_close.
Qed.
End fit_cube_store.

(** ** Pixels with bad samples *)




(** ** Linking the chunk files *)

Section members.
Context {A : Type}.
Implicit Types pix : option (gmap nat (gmap nat A)).

Lemma elem_of_members pix lon lat x :
  (lon, lat, x) ∈ members pix <-> lookup2 pix lon lat = Some x.
Proof.
  unfold members, lookup2. destruct pix as [pix|]; simpl.
  2: { split; [by intros ?%elem_of_nil | done]. }
  rewrite list_elem_of_bind. split.
  - intros ([lon' row] & Hin & Hrow). simpl in Hin.
    apply list_elem_of_fmap in Hin as ([lat' x'] & [= -> -> ->] & Hx).
    apply elem_of_map_to_list in Hrow, Hx. by rewrite Hrow.
  - destruct (pix !! lon) as [row|] eqn:Hrow; simpl; [|done].
    intros Hx. exists (lon, row). split; [|by apply elem_of_map_to_list].
    simpl. apply list_elem_of_fmap. exists (lat, x). split; [done|].
    by apply elem_of_map_to_list.
Qed.

Lemma members_NoDup pix : NoDup (members pix).
Proof.
  unfold members. destruct pix as [pix|]; [|constructor].
  apply NoDup_bind.
  - intros [lon1 row1] [lon2 row2] [[lon lat] x] H1 H2 Hy1 Hy2. simpl in *.
    apply list_elem_of_fmap in Hy1 as ([? ?] & [= -> -> ->] & _).
    apply list_elem_of_fmap in Hy2 as ([? ?] & [= -> _ _] & _).
    apply elem_of_map_to_list in H1, H2. congruence.
  - intros [lon row] _. simpl. apply NoDup_fmap_2; [|apply NoDup_map_to_list].
    intros [a x] [b y] [= -> ->]. done.
  - apply NoDup_map_to_list.
Qed.

Lemma members_keys_NoDup pix : NoDup (fst <$> members pix).
Proof.
  apply NoDup_fmap_fst; [|apply members_NoDup].
  intros [lon lat] x1 x2 H1%elem_of_members H2%elem_of_members. congruence.
Qed.
End members.

Lemma chunk_lookup_lookup2 f lon lat :
  chunk_lookup f lon lat = lookup2 (cf_pix f) lon lat.
Proof. done. Qed.

Lemma table_lookup_lookup2 t lon lat :
  table_lookup t lon lat = lookup2 (t_pix t) lon lat.
Proof. done. Qed.

Lemma elem_of_chunk_members f lon lat o :
  (lon, lat, o) ∈ chunk_members f <-> chunk_lookup f lon lat = Some o.
Proof. apply elem_of_members. Qed.

Lemma elem_of_pixel_set f lon lat :
  (lon, lat) ∈ pixel_set f <-> is_Some (chunk_lookup f lon lat).
Proof.
  unfold pixel_set. rewrite list_elem_of_fmap. split.
  - intros ([[a b] o] & [= <- <-] & Hin). apply elem_of_chunk_members in Hin.
    by eexists.
  - intros [o Ho]. exists (lon, lat, o). split; [done|].
    by apply elem_of_chunk_members.
Qed.

(** *** Chunk paths are pairwise distinct *)

Lemma string_length_append (s1 s2 : string) :
  String.length (s1 +:+ s2) = String.length s1 + String.length s2.
Proof. induction s1 as [|c s1 IH]; simpl; [done|]. by rewrite IH. Qed.

Lemma string_append_inj_r (s1 s2 t : string) : s1 +:+ t = s2 +:+ t -> s1 = s2.
Proof.
  revert s2. induction s1 as [|c s1 IH]; intros [|d s2]; simpl; intros H.
  - done.
  - apply (f_equal String.length) in H.
    rewrite ?string_length_append in H. simpl in H.
    rewrite ?string_length_append in H. lia.
  - apply (f_equal String.length) in H.
    rewrite ?string_length_append in H. simpl in H.
    rewrite ?string_length_append in H. lia.
  - injection H as -> H. f_equal. by apply IH.
Qed.

Lemma chunk_name_inj i j : chunk_name i = chunk_name j -> i = j.
Proof.
  unfold chunk_name. intros H. apply String.app_inj in H.
  apply string_append_inj_r in H. by apply pretty_nat_inj in H.
Qed.

Lemma chunk_paths_names self :
  name <$> chunk_paths self = chunk_name <$> seq 0 (nchunks self).
Proof. unfold chunk_paths. by rewrite <- list_fmap_compose. Qed.

Lemma chunk_paths_names_NoDup self : NoDup (name <$> chunk_paths self).
Proof.
  rewrite chunk_paths_names. apply NoDup_fmap_2_strong; [|apply NoDup_seq].
  intros i j _ _. apply chunk_name_inj.
Qed.

Lemma chunk_paths_NoDup self : NoDup (chunk_paths self).
Proof. eapply NoDup_fmap_1, chunk_paths_names_NoDup. Qed.

(** *** Loops over lists built from lists *)

Lemma bind_assoc {S A B C} (m : M S A) (k : A -> M S B) (h : B -> M S C) s :
  bind (bind m k) h s = bind m (fun a => bind (k a) h) s.
Proof. unfold bind. by destruct (m s) as [s1 [a|e|]]. Qed.

Lemma for_each_app {S A} (l1 l2 : list A) (body : A -> M S unit) s :
  for_each (l1 ++ l2) body s
  = bind (for_each l1 body) (fun _ => for_each l2 body) s.
Proof.
  revert s. induction l1 as [|x l1 IH]; intros s; simpl; [done|].
  rewrite bind_assoc. apply bind_ext. intros _ s'. apply IH.
Qed.

Lemma for_each_fmap {S A B} (g : A -> B) (l : list A) (body : B -> M S unit) s :
  for_each (g <$> l) body s = for_each l (fun x => body (g x)) s.
Proof.
  revert s. induction l as [|x l IH]; intros s; simpl; [done|].
  apply bind_ext. intros _ s'. apply IH.
Qed.

Lemma for_each_bind {S A B} (l : list A) (f : A -> list B) (body : B -> M S unit) s :
  for_each (l ≫= f) body s = for_each l (fun x => for_each (f x) body) s.
Proof.
  revert s. induction l as [|x l IH]; intros s; [done|].
  rewrite bind_cons, for_each_app. simpl. apply bind_ext. intros _ s'. apply IH.
Qed.

Lemma for_each_ext {S A} (l : list A) (body1 body2 : A -> M S unit) s :
  (forall x s', body1 x s' = body2 x s') ->
  for_each l body1 s = for_each l body2 s.
Proof.
  intros Hext. revert s. induction l as [|x l IH]; intros s; simpl; [done|].
  unfold bind. rewrite Hext. destruct (body2 x s) as [s1 [[]|e|]]; auto.
Qed.

(** *** The links of one chunk file, then of all *)

Lemma link_members file (ms : list (nat * nat * Obj)) : forall sd t,
  sd_table sd = Some t ->
  NoDup (fst <$> ms) ->
  (forall x, x ∈ ms -> table_lookup t x.1.1 x.1.2 = None) ->
  exists sd' t',
    for_each ms (fun x => link_pixel file x.1.1 x.1.2) sd = (sd', Return tt)
    /\ sd_table sd' = Some t' /\ sd_open sd' = sd_open sd
    /\ sd_chunks sd' = sd_chunks sd
    /\ forall a b, table_lookup t' a b
         = if decide ((a, b) ∈ fst <$> ms) then Some (TExternal file a b)
           else table_lookup t a b.
Proof.
  induction ms as [|[[a0 b0] o] ms IH]; intros sd t Ht Hnd Habsent.
  { exists sd, t. simpl. by do 4 (split; [done|]). }
  rewrite fmap_cons in Hnd. apply NoDup_cons in Hnd as [Hnotin Hnd]. simpl in *.
  assert (link_pixel file a0 b0 sd
          = ({| sd_table := Some (table_insert t a0 b0 (TExternal file a0 b0));
                sd_open := sd_open sd; sd_chunks := sd_chunks sd |}, Return tt))
    as Hlink.
  { unfold link_pixel. rewrite (bind_Return _ _ _ _ _ (the_table_eq sd t Ht)).
    pose proof (Habsent (a0, b0, o) ltac:(by left)) as Hnone. simpl in Hnone.
    by rewrite Hnone. }
  rewrite (bind_Return _ _ _ _ _ Hlink).
  destruct (IH {| sd_table := Some (table_insert t a0 b0 (TExternal file a0 b0));
                  sd_open := sd_open sd; sd_chunks := sd_chunks sd |}
               (table_insert t a0 b0 (TExternal file a0 b0)) eq_refl Hnd)
    as (sd' & t' & Hrun & Ht' & Hopen & Hchunks & Hlook).
  { intros [[a b] o'] Hx. simpl. rewrite table_lookup_insert.
    rewrite decide_False.
    - by apply (Habsent (a, b, o')); right.
    - intros [-> ->]. apply Hnotin. apply list_elem_of_fmap.
      by exists (a, b, o'). }
  exists sd', t'. split; [done|]. do 3 (split; [done|]).
  intros a b. rewrite Hlook, table_lookup_insert.
  destruct (decide ((a, b) ∈ fst <$> ms)) as [Hin|Hnin].
  - rewrite decide_True; [done|]. by right.
  - destruct (decide (a0 = a /\ b0 = b)) as [[-> ->]|Hne].
    + rewrite decide_True; [done|]. by left.
    + rewrite decide_False; [done|].
      intros [[= -> ->]|?]%elem_of_cons; [by apply Hne | done].
Qed.

Lemma link_chunk_members p sd f pix :
  sd_chunks sd !! name p = Some f -> cf_pix f = Some pix ->
  link_chunk p sd
  = for_each (chunk_members f) (fun x => link_pixel (name p) x.1.1 x.1.2) sd.
Proof.
  intros Hf Hpix. unfold link_chunk.
  erewrite bind_Return by reflexivity. rewrite Hf. simpl.
  rewrite bind_ret_l, Hpix. simpl. rewrite bind_ret_l.
  unfold chunk_members, members. rewrite Hpix, for_each_bind.
  apply for_each_ext. intros [lon row] s'. simpl. by rewrite for_each_fmap.
Qed.

Lemma all_links_cons sd p paths :
  all_links sd (p :: paths)
  = ((pair (name p)) <$> chunk_members (chunk_file sd p)) ++ all_links sd paths.
Proof. done. Qed.

Lemma all_links_chunks sd sd' paths :
  sd_chunks sd' = sd_chunks sd -> all_links sd' paths = all_links sd paths.
Proof. intros H. unfold all_links, chunk_file. by rewrite H. Qed.

Lemma link_chunks_spec paths : forall sd t,
  sd_table sd = Some t ->
  (forall p, p ∈ paths ->
     exists f pix, sd_chunks sd !! name p = Some f /\ cf_pix f = Some pix) ->
  NoDup ((fun y => y.2.1) <$> all_links sd paths) ->
  (forall y, y ∈ all_links sd paths -> table_lookup t y.2.1.1 y.2.1.2 = None) ->
  exists sd' t',
    for_each paths link_chunk sd = (sd', Return tt)
    /\ sd_table sd' = Some t' /\ sd_open sd' = sd_open sd
    /\ sd_chunks sd' = sd_chunks sd
    /\ forall a b n,
         table_lookup t' a b = Some n
         <-> (table_lookup t a b = Some n
              \/ exists file o, (file, (a, b, o)) ∈ all_links sd paths
                   /\ n = TExternal file a b).
Proof.
  induction paths as [|p paths IH]; intros sd t Ht Hfiles Hnd Habsent.
  { exists sd, t. simpl. do 4 (split; [done|]). intros a b n. split; [by left|].
    intros [?|(file & o & Hin & _)]; [done|]. by apply elem_of_nil in Hin. }
  destruct (Hfiles p) as (f & pix & Hf & Hpix); [by left|].
  assert (chunk_file sd p = f) as Hcf by (unfold chunk_file; by rewrite Hf).
  rewrite all_links_cons, Hcf in Hnd, Habsent.
  rewrite fmap_app in Hnd. apply NoDup_app in Hnd as (Hnd1 & Hdisj & Hnd2).
  rewrite <- list_fmap_compose in Hnd1, Hdisj.
  destruct (link_members (name p) (chunk_members f) sd t Ht Hnd1)
    as (sd1 & t1 & Hrun1 & Ht1 & Hopen1 & Hchunks1 & Hlook1).
  { intros x Hx. apply (Habsent (name p, x)). apply elem_of_app. left.
    apply list_elem_of_fmap. by exists x. }
  assert (link_chunk p sd = (sd1, Return tt)) as Hl
    by (rewrite (link_chunk_members p sd f pix Hf Hpix); exact Hrun1).
  cbn [for_each]. rewrite (bind_Return _ _ _ _ _ Hl).
  destruct (IH sd1 t1 Ht1) as (sd' & t' & Hrun & Ht' & Hopen & Hchunks & Hlook).
  - intros q Hq. rewrite Hchunks1. apply Hfiles. by right.
  - by rewrite (all_links_chunks sd sd1).
  - rewrite (all_links_chunks sd sd1) by done. intros y Hy.
    rewrite Hlook1. rewrite decide_False.
    + apply Habsent. apply elem_of_app. by right.
    + intros Hin. apply (Hdisj _ Hin). apply list_elem_of_fmap.
      exists y. by destruct y as [? [[? ?] ?]].
  - exists sd', t'. split; [done|]. split; [done|].
    split; [congruence|]. split; [congruence|].
    intros a b n. rewrite Hlook, Hlook1.
    rewrite (all_links_chunks sd sd1), all_links_cons, Hcf by done.
    split.
    + intros [Hone|(file & o & Hin & ->)].
      * case_decide as Hkey; [|by left].
        injection Hone as <-. right.
        apply list_elem_of_fmap in Hkey as ([[a' b'] o] & [= <- <-] & Hin).
        exists (name p), o. split; [|done]. apply elem_of_app. left.
        apply list_elem_of_fmap. by exists (a, b, o).
      * right. exists file, o. split; [|done]. apply elem_of_app. by right.
    + intros [Hold|(file & o & Hin & ->)].
      * left. rewrite decide_False; [done|]. intros Hkey.
        apply list_elem_of_fmap in Hkey as ([[a' b'] o] & [= <- <-] & Hin).
        assert (table_lookup t a b = None) as Hnone; [|congruence].
        apply (Habsent (name p, (a, b, o))).
        apply elem_of_app. left. apply list_elem_of_fmap. by exists (a, b, o).
      * apply elem_of_app in Hin as [Hin|Hin].
        -- apply list_elem_of_fmap in Hin as (x & [= <- <-] & Hx).
           left. rewrite decide_True; [done|].
           apply list_elem_of_fmap. by exists (a, b, o).
        -- right. by exists file, o.
Qed.

(** *** The traversal of a table file whose links all resolve *)

Lemma omap_fmap {A B C} (f : B -> option C) (g : A -> B) (l : list A) :
  omap f (g <$> l) = omap (fun x => f (g x)) l.
Proof. induction l as [|x l IH]; [done|]. csimpl. by rewrite IH. Qed.

Lemma omap_ext_elem {A B} (f g : A -> option B) (l : list A) :
  (forall x, x ∈ l -> f x = g x) -> omap f l = omap g l.
Proof.
  induction l as [|x l IH]; intros Hext; [done|]. csimpl.
  rewrite (Hext x) by by left. rewrite IH; [done|].
  intros y Hy. apply Hext. by right.
Qed.

Lemma fmap_bind_list {A B C} (f : B -> C) (g : A -> list B) (l : list A) :
  f <$> (l ≫= g) = l ≫= (fun x => f <$> g x).
Proof.
  induction l as [|x l IH]; [done|]. by rewrite !bind_cons, fmap_app, IH.
Qed.

Lemma NoDup_fmap_elem_inj {A B} (f : A -> B) (l : list A) x y :
  NoDup (f <$> l) -> x ∈ l -> y ∈ l -> f x = f y -> x = y.
Proof.
  induction l as [|z l IH]; [by intros _ ?%elem_of_nil|].
  rewrite fmap_cons. intros [Hnotin Hnd]%NoDup_cons.
  intros [->|Hx]%elem_of_cons [->|Hy]%elem_of_cons Heq; auto.
  - destruct Hnotin. rewrite Heq. apply list_elem_of_fmap. by exists y.
  - destruct Hnotin. rewrite <- Heq. apply list_elem_of_fmap. by exists x.
Qed.

Lemma iter_lat_resolved sd t lon (ks : list nat) :
  (forall k, k ∈ ks -> exists o, getitem sd t lon k = inr o) ->
  iter_lat sd t lon (Some <$> ks) = (omap (resolve_group sd t lon) ks, None).
Proof.
  induction ks as [|k ks IH]; intros Hres; [done|].
  rewrite fmap_cons. cbn [iter_lat]. csimpl.
  destruct (Hres k) as [o Ho]; [by left|].
  unfold resolve_group at 1. rewrite Ho.
  rewrite IH by (intros k' Hk'; apply Hres; by right).
  by destruct o.
Qed.

Lemma iter_lon_resolved sd t pix (rows : list (nat * gmap nat TNode)) :
  (forall lr, lr ∈ rows -> pix !! lr.1 = Some lr.2) ->
  (forall lr k, lr ∈ rows -> k ∈ (map_to_list lr.2).*1 ->
     exists o, getitem sd t lr.1 k = inr o) ->
  iter_lon sd t pix (Some <$> rows.*1)
  = (omap (fun x => resolve_group sd t x.1.1 x.1.2)
       (rows ≫= fun lr => (fun lx => (lr.1, lx.1, lx.2)) <$> map_to_list lr.2),
     None).
Proof.
  induction rows as [|[lon row] rows IH]; intros Hrows Hres; [done|].
  rewrite !fmap_cons. cbn [iter_lon fst].
  pose proof (Hrows (lon, row) ltac:(by left)) as Hrow. simpl in Hrow.
  rewrite Hrow.
  unfold member_names. rewrite iter_lat_resolved
    by (intros k Hk; apply (Hres (lon, row)); [by left | done]).
  rewrite IH; [|intros lr Hlr; apply Hrows; by right
              |intros lr k Hlr Hk; apply (Hres lr); [by right | done]].
  rewrite bind_cons, omap_app. unfold gen_seq. cbn [fst snd]. f_equal. f_equal.
  by rewrite !omap_fmap.
Qed.

Lemma iter_pix_groups_resolved sd t :
  sd_open sd = true -> sd_table sd = Some t -> is_Some (t_pix t) ->
  (forall a b n, table_lookup t a b = Some n -> exists o, getitem sd t a b = inr o) ->
  iter_pix_groups sd
  = (omap (fun x => resolve_group sd t x.1.1 x.1.2) (members (t_pix t)), None).
Proof.
  intros Hopen Ht [pix Hpix] Hres. unfold iter_pix_groups.
  rewrite Hopen, Ht, Hpix. unfold member_names, members.
  apply iter_lon_resolved.
  - intros [lon row] Hlr. by apply elem_of_map_to_list.
  - intros [lon row] k Hlr Hk. simpl in *.
    apply list_elem_of_fmap in Hk as ([k' n] & -> & Hn).
    apply elem_of_map_to_list in Hlr, Hn.
    apply (Hres lon k' n). unfold table_lookup. rewrite Hpix. simpl.
    by rewrite Hlr.
Qed.

Lemma elem_of_all_links sd paths file a b o :
  (file, (a, b, o)) ∈ all_links sd paths
  <-> exists p, p ∈ paths /\ file = name p
        /\ chunk_lookup (chunk_file sd p) a b = Some o.
Proof.
  unfold all_links. rewrite list_elem_of_bind. split.
  - intros (p & Hin & Hp). apply list_elem_of_fmap in Hin as (x & [= -> <-] & Hx).
    exists p. split; [done|]. split; [done|]. by apply elem_of_chunk_members.
  - intros (p & Hp & -> & Ho). exists p. split; [|done].
    apply list_elem_of_fmap. exists (a, b, o). split; [done|].
    by apply elem_of_chunk_members.
Qed.

(** C8. Take an open store whose table file has no [/pix] yet, whose
    chunk files all exist with a [/pix] group, hold pairwise-disjoint pixel
    sets and together at least one pixel.  Then [link_files] succeeds and
    leaves the chunk files as they are, and [iter_pix_groups] on the linked
    store runs to its end without an exception and yields exactly the pixel
    groups of all chunk files: the same groups with the same multiplicities
    as the union, none twice and none left out. *)
Theorem link_files_enumerates_union (self : HdfStore) (sd : StoreDir) (t : TableFile) :
  sd_open sd = true ->
  sd_table sd = Some t ->
  t_pix t = None ->
  (forall p, p ∈ chunk_paths self ->
     exists f pix, sd_chunks sd !! name p = Some f /\ cf_pix f = Some pix) ->
  (forall p q c, p ∈ chunk_paths self -> q ∈ chunk_paths self -> p <> q ->
     c ∈ pixel_set (chunk_file sd p) -> c ∉ pixel_set (chunk_file sd q)) ->
  all_members sd (chunk_paths self) <> [] ->
  exists sd' gs,
    link_files self sd = (sd', Return tt)
    /\ sd_chunks sd' = sd_chunks sd
    /\ iter_pix_groups sd' = (gs, None)
    /\ gs ≡ₚ omap member_group (all_members sd (chunk_paths self)).
Proof.
  intros Hopen Ht Hpix Hfiles Hdisj Hne.
  set (paths := chunk_paths self) in *.
  assert (forall a b, table_lookup t a b = None) as Hempty.
  { intros a b. unfold table_lookup. by rewrite Hpix. }
  assert (NoDup ((fun y => y.2.1) <$> all_links sd paths)) as Hkeys.
  { unfold all_links. rewrite fmap_bind_list. apply NoDup_bind.
    - intros p q c Hp Hq Hcp Hcq.
      rewrite <- list_fmap_compose in Hcp, Hcq.
      destruct (decide (p = q)) as [|Hpq]; [done|].
      by destruct (Hdisj p q c Hp Hq Hpq).
    - intros p _. rewrite <- list_fmap_compose. apply members_keys_NoDup.
    - apply chunk_paths_NoDup. }
  destruct (link_chunks_spec paths sd t Ht Hfiles Hkeys)
    as (sd' & t' & Hrun & Ht' & Hopen' & Hchunks & Hlook).
  { intros y _. apply Hempty. }
  assert (forall a b n, table_lookup t' a b = Some n <->
            exists file o, (file, (a, b, o)) ∈ all_links sd paths
              /\ n = TExternal file a b) as Hlook'.
  { intros a b n. rewrite Hlook, Hempty. split; [by intros [?|?]|by right]. }
  assert (forall file a b o, (file, (a, b, o)) ∈ all_links sd paths ->
            getitem sd' t' a b = inr o) as Hget.
  { intros file a b o Hin. unfold getitem.
    assert (table_lookup t' a b = Some (TExternal file a b)) as ->
      by (apply Hlook'; by exists file, o).
    apply elem_of_all_links in Hin as (p & Hp & -> & Ho).
    destruct (Hfiles p Hp) as (f & pix & Hf & _).
    unfold chunk_file in Ho. rewrite Hf in Ho. simpl in Ho.
    by rewrite Hchunks, Hf, Ho. }
  exists sd', (omap (fun x => resolve_group sd' t' x.1.1 x.1.2) (members (t_pix t'))).
  split; [|split; [done|split]].
  - unfold link_files, is_open.
    erewrite bind_Return by reflexivity. rewrite Hopen.
    by erewrite bind_Return by reflexivity.
  - apply iter_pix_groups_resolved; [congruence | done | |].
    + destruct (all_members sd paths) as [|[[a b] o] rest] eqn:Hall; [done|].
      assert ((a, b, o) ∈ all_members sd paths) as Hin by (rewrite Hall; by left).
      apply list_elem_of_fmap in Hin as ([file x] & Heq & Hin).
      simpl in Heq. subst x.
      assert (table_lookup t' a b = Some (TExternal file a b)) as Hl
        by (apply Hlook'; by exists file, o).
      unfold table_lookup in Hl. by destruct (t_pix t').
    + intros a b n (file & o & Hin & ->)%Hlook'. exists o. by eapply Hget.
  - set (G := fun y : string * (nat * nat * Obj) =>
                (y.2.1, TExternal y.1 y.2.1.1 y.2.1.2)).
    assert (members (t_pix t') ≡ₚ G <$> all_links sd paths) as ->.
    { apply NoDup_Permutation.
      - apply members_NoDup.
      - apply (NoDup_fmap_1 fst). by rewrite <- list_fmap_compose.
      - intros [[a b] n]. rewrite elem_of_members, <- table_lookup_lookup2, Hlook'.
        rewrite list_elem_of_fmap. split.
        + intros (file & o & Hin & ->). by exists (file, (a, b, o)).
        + intros ([file [[a' b'] o]] & [= -> -> ->] & Hin). by exists file, o. }
    unfold all_members. rewrite !omap_fmap. apply reflexive_eq.
    apply omap_ext_elem. intros [file [[a b] o]] Hin. simpl.
    unfold resolve_group. by rewrite (Hget file a b o Hin).
Qed.

Lemma link_files_enumerates_union_witness :
  let self := {| store_name := "run/test_cube";
                 store_dir := "run/test_cube.store"; nchunks := 2 |} in
  let sd := fst two_chunks in
  exists sd' gs,
    link_files self sd = (sd', Return tt)
    /\ sd_chunks sd' = sd_chunks sd
    /\ iter_pix_groups sd' = (gs, None)
    /\ gs ≡ₚ omap member_group (all_members sd (chunk_paths self)).
Proof.
  intros self sd.
  assert (forall p, p ∈ chunk_paths self ->
            p = {| parent := "run/test_cube.store"; name := "chunk0.hdf" |}
            \/ p = {| parent := "run/test_cube.store"; name := "chunk1.hdf" |}) as Hpaths.
  { intros p Hp. vm_compute in Hp.
    apply elem_of_cons in Hp as [->|Hp]; [by left|].
    apply elem_of_cons in Hp as [->|Hp]; [by right|].
    by apply elem_of_nil in Hp. }
  apply (link_files_enumerates_union self sd (default empty_table (sd_table sd))).
  - vm_compute. reflexivity.
  - vm_compute. reflexivity.
  - vm_compute. reflexivity.
  - intros p [->| ->]%Hpaths; eexists _, _; split; vm_compute; reflexivity.
  - intros p q c [->| ->]%Hpaths [->| ->]%Hpaths Hpq; [done| | |done];
      intros Hc; vm_compute in Hc;
      repeat (apply elem_of_cons in Hc as [->|Hc]);
      try (by apply elem_of_nil in Hc);
      apply (bool_decide_unpack _); vm_compute; exact I.
  - vm_compute. discriminate.
Defined.

(** ** Store names and chunk paths *)

Lemma substring_append_r (s t : string) :
  String.substring (String.length s) (String.length t) (s +:+ t) = t.
Proof.
  induction s as [|c s IH]; [|exact IH].
  change (EmptyString +:+ t) with t. change (String.length EmptyString) with 0.
  induction t as [|c t IH]; [done|].
  cbn [String.length String.substring]. by rewrite IH.
Qed.

Lemma endswith_append (s suffix : string) : endswith (s +:+ suffix) suffix = true.
Proof.
  unfold endswith. rewrite string_length_append.
  replace (String.length s + String.length suffix - String.length suffix)
    with (String.length s) by lia.
  rewrite substring_append_r, String.eqb_refl, andb_true_r.
  apply Nat.leb_le. lia.
Qed.

(** X1. [check_ext] always returns a name that ends in a dot and the
    extension, and a name it returned is returned unchanged when it is
    checked again: the extension is never added twice. *)
Theorem check_ext_idempotent (store_name ext : string) :
  endswith (check_ext store_name ext) ("." +:+ ext) = true
  /\ check_ext (check_ext store_name ext) ext = check_ext store_name ext.
Proof.
  assert (endswith (check_ext store_name ext) ("." +:+ ext) = true) as Hends.
  { unfold check_ext.
    destruct (endswith store_name ("." +:+ ext)) eqn:He; [done|].
    apply (endswith_append store_name ("." +:+ ext)). }
  split; [done|].
  unfold check_ext at 1. by rewrite Hends.
Qed.

(** X2. A store with [nchunks] chunks has [nchunks] chunk paths, all inside
    the store directory; path [i] is the file [chunk<i>.hdf], and no two
    paths name the same file. *)
Theorem chunk_paths_distinct (self : HdfStore) :
  length (chunk_paths self) = nchunks self
  /\ (forall i p, chunk_paths self !! i = Some p ->
        i < nchunks self /\ parent p = store_dir self /\ name p = chunk_name i)
  /\ (forall i j p q, chunk_paths self !! i = Some p -> chunk_paths self !! j = Some q ->
        name p = name q -> i = j).
Proof.
  assert (forall i p, chunk_paths self !! i = Some p ->
            i < nchunks self /\ parent p = store_dir self /\ name p = chunk_name i)
    as Hlook.
  { intros i p Hp. unfold chunk_paths in Hp. rewrite list_lookup_fmap in Hp.
    destruct (seq 0 (nchunks self) !! i) as [k|] eqn:Hk; [|done].
    apply lookup_seq in Hk as [-> Hlt]. by injection Hp as <-. }
  split; [|split; [done|]].
  - unfold chunk_paths. by rewrite length_fmap, length_seq.
  - intros i j p q Hp Hq Heq.
    apply Hlook in Hp as (_ & _ & Hp). apply Hlook in Hq as (_ & _ & Hq).
    apply chunk_name_inj. congruence.
Qed.

(** ** Opening, closing and relinking a store *)

(** X3. Opening a store directory that has no table file creates the
    table file with the attribute [nchunks] set to the argument and
    nothing else in it, leaves the handle open and touches no chunk file.
    Once that store is closed, the constructor, whatever number of chunks
    it is called with, reopens it, returns the same store and changes
    nothing in the files. *)
Theorem HdfStore_init_creates_table (sd : StoreDir) (name1 : string) (n m : nat) :
  sd_table sd = None ->
  exists sd1 store1,
    HdfStore_init name1 n sd = (sd1, Return store1)
    /\ nchunks store1 = n
    /\ store_dir store1 = check_ext name1 "store"
    /\ sd_table sd1 = Some (table_set_nchunks empty_table n)
    /\ sd_open sd1 = true
    /\ sd_chunks sd1 = sd_chunks sd
    /\ HdfStore_init name1 m (fst (close sd1)) = (sd1, Return store1).
Proof.
  intros Hnone. destruct sd as [tb op ch]. simpl in Hnone. subst tb.
  eexists _, _. split; [|split; [|split; [|split; [|split; [|split]]]]].
  - cbv [HdfStore_init bind get set_table set_open modify ret]. simpl. reflexivity.
  - reflexivity.
  - reflexivity.
  - reflexivity.
  - reflexivity.
  - reflexivity.
  - cbv [HdfStore_init close bind get set_table set_open modify ret]. simpl.
    reflexivity.
Qed.

Lemma HdfStore_init_creates_table_witness :
  exists sd1 store1,
    HdfStore_init "run/test_cube" 4 empty_dir = (sd1, Return store1)
    /\ nchunks store1 = 4
    /\ store_dir store1 = check_ext "run/test_cube" "store"
    /\ sd_table sd1 = Some (table_set_nchunks empty_table 4)
    /\ sd_open sd1 = true
    /\ sd_chunks sd1 = sd_chunks empty_dir
    /\ HdfStore_init "run/test_cube" 1 (fst (close sd1)) = (sd1, Return store1).
Proof.
  apply (HdfStore_init_creates_table empty_dir "run/test_cube" 4 1). reflexivity.
Defined.

(** X4. On a store whose handle is closed, [link_files],
    [reset_pix_links] and [insert_fitter_pars] raise [AssertionError] and
    [iter_pix_groups] raises it before it yields anything, all without
    touching the store; [insert_header] alone returns normally, having
    written nothing. *)
Theorem closed_store_refuses (self : HdfStore) (stack : CubeStack)
    (fitter : CubeFitter) (sd : StoreDir) :
  sd_open sd = false ->
  link_files self sd = (sd, Raise AssertionError)
  /\ reset_pix_links sd = (sd, Raise AssertionError)
  /\ insert_fitter_pars fitter sd = (sd, Raise AssertionError)
  /\ iter_pix_groups sd = ([], Some AssertionError)
  /\ insert_header stack sd = (sd, Return tt).
Proof.
  intros Hclosed.
  unfold link_files, reset_pix_links, insert_fitter_pars, iter_pix_groups,
    insert_header, is_open, bind, get, ret.
  rewrite Hclosed. destruct sd as [tb op ch]. simpl in *. subst op.
  by repeat split.
Qed.

Lemma closed_store_refuses_witness :
  let self := {| store_name := "run/test_cube";
                 store_dir := "run/test_cube.store"; nchunks := 1 |} in
  let sd := fst (Scenario.run 1 empty_dir) in
  let sd := fst (close sd) in
  link_files self sd = (sd, Raise AssertionError)
  /\ reset_pix_links sd = (sd, Raise AssertionError)
  /\ insert_fitter_pars Scenario.fitter sd = (sd, Raise AssertionError)
  /\ iter_pix_groups sd = ([], Some AssertionError)
  /\ insert_header (stack Scenario.fitter) sd = (sd, Return tt).
Proof.
  intros self sd0 sd.
  apply (closed_store_refuses self (stack Scenario.fitter) Scenario.fitter sd).
  reflexivity.
Defined.

Lemma table_set_pix_same t : t_pix t = None -> table_set_pix t None = t.
Proof. destruct t. simpl. by intros ->. Qed.

Lemma iter_pix_groups_no_pix sd t :
  sd_open sd = true -> sd_table sd = Some t -> t_pix t = None ->
  iter_pix_groups sd = ([], Some KeyError).
Proof. intros Ho Ht Hp. unfold iter_pix_groups. by rewrite Ho, Ht, Hp. Qed.

Lemma aggregate_no_pix sd t :
  sd_open sd = true -> sd_table sd = Some t -> t_pix t = None ->
  aggregate_run_attributes sd = (sd, Raise KeyError).
Proof.
  intros Ho Ht Hp. unfold aggregate_run_attributes.
  rewrite (bind_Return _ _ _ _ _ (the_table_eq sd t Ht)).
  destruct (t_naxis1 t) as [n_lon|]; [|done]. cbn [from_option]. rewrite bind_ret_l.
  destruct (t_naxis2 t) as [n_lat|]; [|done]. cbn [from_option]. rewrite bind_ret_l.
  destruct (t_n_max_components t) as [nmax|]; [|done].
  cbn [from_option]. rewrite bind_ret_l.
  rewrite (bind_Return _ _ sd sd sd) by reflexivity.
  rewrite (iter_pix_groups_no_pix sd t Ho Ht Hp).
  reflexivity.
Qed.

(** X5. On an open store [reset_pix_links] returns normally and removes
    [/pix] from the table file; the attributes, the products, the handle
    and the chunk files stay as they are, and a second call changes
    nothing.  Until the chunk files are linked again, [iter_pix_groups]
    yields nothing and raises [KeyError], and so does
    [aggregate_run_attributes], which leaves the store untouched. *)
Theorem reset_pix_links_clears (sd : StoreDir) (t : TableFile) :
  sd_open sd = true ->
  sd_table sd = Some t ->
  exists sd',
    reset_pix_links sd = (sd', Return tt)
    /\ sd_table sd' = Some (table_set_pix t None)
    /\ sd_open sd' = true
    /\ sd_chunks sd' = sd_chunks sd
    /\ reset_pix_links sd' = (sd', Return tt)
    /\ iter_pix_groups sd' = ([], Some KeyError)
    /\ aggregate_run_attributes sd' = (sd', Raise KeyError).
Proof.
  intros Ho Ht.
  assert (exists sd', reset_pix_links sd = (sd', Return tt)
            /\ sd_table sd' = Some (table_set_pix t None)
            /\ sd_open sd' = true /\ sd_chunks sd' = sd_chunks sd)
    as (sd' & Hrun & Ht' & Ho' & Hch).
  { unfold reset_pix_links, is_open.
    rewrite (bind_Return _ _ sd sd (sd_open sd)) by reflexivity.
    rewrite Ho. cbn [assert]. rewrite bind_ret_l.
    rewrite (bind_Return _ _ _ _ _ (the_table_eq sd t Ht)).
    destruct (t_pix t) as [pix|] eqn:Hp.
    - eexists. split; [reflexivity|]. by simpl.
    - exists sd. split; [done|]. by rewrite table_set_pix_same. }
  exists sd'. do 4 (split; [done|]). split; [|split].
  - unfold reset_pix_links, is_open.
    rewrite (bind_Return _ _ sd' sd' (sd_open sd')) by reflexivity.
    rewrite Ho'. cbn [assert]. rewrite bind_ret_l.
    by rewrite (bind_Return _ _ _ _ _ (the_table_eq sd' _ Ht')).
  - by eapply iter_pix_groups_no_pix.
  - by eapply aggregate_no_pix.
Qed.

Lemma reset_pix_links_clears_witness :
  let sd := fst (Scenario.run 2 empty_dir) in
  exists sd',
    reset_pix_links sd = (sd', Return tt)
    /\ sd_table sd' = Some (table_set_pix (default empty_table (sd_table sd)) None)
    /\ sd_open sd' = true
    /\ sd_chunks sd' = sd_chunks sd
    /\ reset_pix_links sd' = (sd', Return tt)
    /\ iter_pix_groups sd' = ([], Some KeyError)
    /\ aggregate_run_attributes sd' = (sd', Raise KeyError).
Proof.
  intros sd.
  apply (reset_pix_links_clears sd (default empty_table (sd_table sd)));
    vm_compute; reflexivity.
Defined.

(** ** What linking needs and what it leaves alone *)

Lemma same_attrs_refl t : same_attrs t t.
Proof. by repeat split. Qed.

Lemma same_attrs_trans t1 t2 t3 :
  same_attrs t1 t2 -> same_attrs t2 t3 -> same_attrs t1 t3.
Proof. unfold same_attrs. intros ? ?. destruct_and!. repeat split; congruence. Qed.

Lemma links_only_refl sd : links_only sd sd.
Proof.
  split; [done|]. split; [done|].
  destruct (sd_table sd); [|done]. split; [apply same_attrs_refl|done].
Qed.

Lemma links_only_trans sd1 sd2 sd3 :
  links_only sd1 sd2 -> links_only sd2 sd3 -> links_only sd1 sd3.
Proof.
  intros (Hc1 & Ho1 & Ht1) (Hc2 & Ho2 & Ht2).
  split; [congruence|]. split; [congruence|].
  destruct (sd_table sd1) as [t1|], (sd_table sd2) as [t2|],
    (sd_table sd3) as [t3|]; try done.
  destruct Ht1 as [Ha1 Hl1], Ht2 as [Ha2 Hl2].
  split; [by eapply same_attrs_trans|]. intros lon lat n ?. by apply Hl2, Hl1.
Qed.

Section steps_within.
Variable R : StoreDir -> StoreDir -> Prop.
Hypothesis R_refl : forall sd, R sd sd.
Hypothesis R_trans : forall sd1 sd2 sd3, R sd1 sd2 -> R sd2 sd3 -> R sd1 sd3.

Lemma steps_within_ret {A} (a : A) : steps_within R (ret a).
Proof using R_refl. intros sd. apply R_refl. Qed.

Lemma steps_within_raise {A} e : steps_within R (raise (A:=A) e).
Proof using R_refl. intros sd. apply R_refl. Qed.

Lemma steps_within_from_option {A} e (o : option A) : steps_within R (from_option e o).
Proof using R_refl. intros sd. destruct o; apply R_refl. Qed.

Lemma steps_within_assert c : steps_within R (assert c).
Proof using R_refl. intros sd. destruct c; apply R_refl. Qed.

Lemma steps_within_get : steps_within R get.
Proof using R_refl. intros sd. apply R_refl. Qed.

Lemma steps_within_bind {A B} (m : M StoreDir A) (k : A -> M StoreDir B) :
  steps_within R m -> (forall a, steps_within R (k a)) -> steps_within R (bind m k).
Proof using R_trans.
  intros Hm Hk sd. unfold bind. specialize (Hm sd).
  destruct (m sd) as [sd1 [a|e|]]; simpl in *; [|done..].
  eapply R_trans; [exact Hm|apply Hk].
Qed.

Lemma steps_within_for_each {A} (l : list A) (body : A -> M StoreDir unit) :
  (forall x, steps_within R (body x)) -> steps_within R (for_each l body).
Proof using R_refl R_trans.
  intros Hbody. induction l as [|x l IH]; simpl.
  - apply steps_within_ret.
  - apply steps_within_bind; [apply Hbody|done].
Qed.
End steps_within.

Lemma links_only_link_pixel file lon lat :
  steps_within links_only (link_pixel file lon lat).
Proof.
  intros sd. unfold link_pixel, the_table, bind, get.
  destruct (sd_table sd) as [t|] eqn:Ht; simpl; [|apply links_only_refl].
  destruct (table_lookup t lon lat) eqn:Hl; simpl; [apply links_only_refl|].
  split; [done|]. split; [done|]. simpl. rewrite Ht.
  split; [by repeat split|].
  intros a b n Hab. rewrite table_lookup_insert.
  case_decide as Heq; [|done]. destruct Heq as [-> ->]. congruence.
Qed.

Lemma links_only_link_chunk p : steps_within links_only (link_chunk p).
Proof.
  unfold link_chunk.
  apply steps_within_bind;
    [apply links_only_trans|apply steps_within_get, links_only_refl|intros sd].
  apply steps_within_bind;
    [apply links_only_trans|apply steps_within_from_option, links_only_refl|intros f].
  apply steps_within_bind;
    [apply links_only_trans|apply steps_within_from_option, links_only_refl|intros pix].
  apply steps_within_for_each; [apply links_only_refl|apply links_only_trans|].
  intros row.
  apply steps_within_for_each; [apply links_only_refl|apply links_only_trans|].
  intros x. apply links_only_link_pixel.
Qed.

Lemma links_only_link_files self : steps_within links_only (link_files self).
Proof.
  unfold link_files, is_open.
  apply steps_within_bind; [apply links_only_trans| |intros o].
  - apply steps_within_bind; [apply links_only_trans| |intros sd].
    + apply steps_within_get, links_only_refl.
    + apply steps_within_ret, links_only_refl.
  - apply steps_within_bind;
      [apply links_only_trans|apply steps_within_assert, links_only_refl|intros _].
    apply steps_within_for_each; [apply links_only_refl|apply links_only_trans|].
    intros p. apply links_only_link_chunk.
Qed.

Lemma links_only_chunk_linked sd sd' f :
  links_only sd sd' -> chunk_linked sd f -> chunk_linked sd' f.
Proof.
  intros (_ & _ & Ht) Hf lon lat o Ho.
  destruct (Hf lon lat o Ho) as (t & n & Hsd & Hl).
  rewrite Hsd in Ht. destruct (sd_table sd') as [t'|]; [|done].
  destruct Ht as [_ Hmono]. exists t', n. split; [done|]. by apply Hmono.
Qed.

Lemma link_pixel_Return file lon lat sd sd' :
  link_pixel file lon lat sd = (sd', Return tt) ->
  exists t', sd_table sd' = Some t'
    /\ table_lookup t' lon lat = Some (TExternal file lon lat).
Proof.
  unfold link_pixel, the_table, bind, get.
  destruct (sd_table sd) as [t|] eqn:Ht; simpl; [|done].
  destruct (table_lookup t lon lat) eqn:Hl; simpl; [done|].
  intros [= <-]. eexists. split; [reflexivity|].
  rewrite table_lookup_insert. by rewrite decide_True.
Qed.

Lemma link_pixel_linked file lon lat sd t n :
  sd_table sd = Some t -> table_lookup t lon lat = Some n ->
  link_pixel file lon lat sd = (sd, Raise ValueError).
Proof.
  intros Ht Hl. unfold link_pixel.
  rewrite (bind_Return _ _ _ _ _ (the_table_eq sd t Ht)). by rewrite Hl.
Qed.

(** Linking a list of members: when it returns, each of them is linked. *)
Lemma link_members_Return file (ms : list (nat * nat * Obj)) : forall sd sd',
  for_each ms (fun x => link_pixel file x.1.1 x.1.2) sd = (sd', Return tt) ->
  forall x, x ∈ ms ->
    exists t n, sd_table sd' = Some t /\ table_lookup t x.1.1 x.1.2 = Some n.
Proof.
  induction ms as [|y ms IH]; intros sd sd' Hrun x Hx.
  { by apply elem_of_nil in Hx. }
  simpl in Hrun. unfold bind in Hrun.
  destruct (link_pixel file y.1.1 y.1.2 sd) as [sd1 [[]|e|]] eqn:H1; [|done..].
  apply elem_of_cons in Hx as [->|Hx]; [|by eapply IH].
  apply link_pixel_Return in H1 as (t1 & Ht1 & Hl1).
  pose proof (steps_within_for_each links_only links_only_refl links_only_trans
                ms (fun x => link_pixel file x.1.1 x.1.2)
                (fun x => links_only_link_pixel file x.1.1 x.1.2) sd1) as Hmono.
  rewrite Hrun in Hmono. simpl in Hmono.
  destruct Hmono as (_ & _ & Hmono). rewrite Ht1 in Hmono.
  destruct (sd_table sd') as [t'|]; [|done].
  destruct Hmono as [_ Hmono]. eexists _, _. split; [done|]. by apply Hmono.
Qed.

Lemma link_chunk_Return p sd sd' :
  link_chunk p sd = (sd', Return tt) ->
  exists f pix, sd_chunks sd !! name p = Some f /\ cf_pix f = Some pix
    /\ chunk_linked sd' f.
Proof.
  intros Hrun.
  destruct (sd_chunks sd !! name p) as [f|] eqn:Hf; cycle 1.
  { unfold link_chunk, bind, get in Hrun. by rewrite Hf in Hrun. }
  destruct (cf_pix f) as [pix|] eqn:Hpix; cycle 1.
  { unfold link_chunk, bind, get in Hrun. rewrite Hf in Hrun. simpl in Hrun.
    by rewrite Hpix in Hrun. }
  exists f, pix. do 2 (split; [done|]).
  rewrite (link_chunk_members p sd f pix Hf Hpix) in Hrun.
  intros lon lat o Ho. apply elem_of_chunk_members in Ho.
  apply (link_members_Return _ _ _ _ Hrun (lon, lat, o) Ho).
Qed.

Lemma link_chunks_Return paths : forall sd sd',
  for_each paths link_chunk sd = (sd', Return tt) ->
  forall p, p ∈ paths ->
    exists f pix, sd_chunks sd !! name p = Some f /\ cf_pix f = Some pix
      /\ chunk_linked sd' f.
Proof.
  induction paths as [|q paths IH]; intros sd sd' Hrun p Hp.
  { by apply elem_of_nil in Hp. }
  simpl in Hrun. unfold bind in Hrun.
  destruct (link_chunk q sd) as [sd1 [[]|e|]] eqn:H1; [|done..].
  pose proof (links_only_link_chunk q sd) as Hl1. rewrite H1 in Hl1. simpl in Hl1.
  pose proof (steps_within_for_each links_only links_only_refl links_only_trans
                paths link_chunk links_only_link_chunk sd1) as Hl2.
  rewrite Hrun in Hl2. simpl in Hl2.
  apply elem_of_cons in Hp as [->|Hp].
  - apply link_chunk_Return in H1 as (f & pix & Hf & Hpix & Hlinked).
    exists f, pix. do 2 (split; [done|]). by eapply links_only_chunk_linked.
  - destruct (IH sd1 sd' Hrun p Hp) as (f & pix & Hf & Hpix & Hlinked).
    exists f, pix. destruct Hl1 as (Hc & _). by rewrite <- Hc.
Qed.

Lemma res_unit_eq (r : res unit) : r <> Timeout ->
  r = Return tt \/ exists e, r = Raise e.
Proof. destruct r as [[]|e|]; [by left|right; by exists e|done]. Qed.

Lemma for_each_no_timeout {S A} (l : list A) (body : A -> M S unit) :
  (forall x s, snd (body x s) <> Timeout) ->
  forall s, snd (for_each l body s) <> Timeout.
Proof.
  intros Hbody. induction l as [|x l IH]; intros s; simpl; [done|].
  unfold bind. specialize (Hbody x s).
  destruct (body x s) as [s1 [[]|e|]]; simpl in *; [apply IH|done|done].
Qed.

Lemma link_pixel_no_timeout file lon lat sd :
  snd (link_pixel file lon lat sd) <> Timeout.
Proof.
  unfold link_pixel, the_table, bind, get.
  destruct (sd_table sd) as [t|]; simpl; [|done].
  by destruct (table_lookup t lon lat).
Qed.

Lemma link_chunk_no_timeout p sd : snd (link_chunk p sd) <> Timeout.
Proof.
  unfold link_chunk, bind, get.
  destruct (sd_chunks sd !! name p) as [f|]; simpl; [|done].
  destruct (cf_pix f) as [pix|]; simpl; [|done].
  apply for_each_no_timeout. intros row s.
  apply for_each_no_timeout. intros x s'. apply link_pixel_no_timeout.
Qed.

(** X6. [link_files] never writes to a chunk file, never changes the
    attributes or the products of the table file and never removes a
    member of [/pix].  It returns normally only on an open store all of
    whose chunk files exist and have a [/pix] group, and then every member
    of every chunk file is linked from the table file. *)
Theorem link_files_needs_pix (self : HdfStore) (sd sd' : StoreDir) (r : res unit) :
  link_files self sd = (sd', r) ->
  links_only sd sd'
  /\ r <> Timeout
  /\ (r = Return tt ->
        sd_open sd = true
        /\ forall p, p ∈ chunk_paths self ->
             exists f pix, sd_chunks sd !! name p = Some f /\ cf_pix f = Some pix
               /\ chunk_linked sd' f).
Proof.
  intros Hrun. split; [|split].
  - pose proof (links_only_link_files self sd) as H. by rewrite Hrun in H.
  - unfold link_files, is_open in Hrun.
    rewrite (bind_Return _ _ sd sd (sd_open sd)) in Hrun by reflexivity.
    destruct (sd_open sd); cbn [assert] in Hrun.
    + rewrite bind_ret_l in Hrun.
      pose proof (for_each_no_timeout (chunk_paths self) link_chunk
                    link_chunk_no_timeout sd) as H.
      by rewrite Hrun in H.
    + rewrite bind_raise_l in Hrun. by injection Hrun as _ <-.
  - intros ->. unfold link_files, is_open in Hrun.
    rewrite (bind_Return _ _ sd sd (sd_open sd)) in Hrun by reflexivity.
    destruct (sd_open sd); cbn [assert] in Hrun.
    + rewrite bind_ret_l in Hrun. split; [done|].
      by apply link_chunks_Return.
    + by rewrite bind_raise_l in Hrun.
Qed.

Lemma link_files_needs_pix_witness :
  let self := {| store_name := "run/test_cube";
                 store_dir := "run/test_cube.store"; nchunks := 2 |} in
  let sd := fst two_chunks in
  let sd' := fst (link_files self sd) in
  links_only sd sd'
  /\ Return tt <> Timeout
  /\ (Return tt = Return tt ->
        sd_open sd = true
        /\ forall p, p ∈ chunk_paths self ->
             exists f pix, sd_chunks sd !! name p = Some f /\ cf_pix f = Some pix
               /\ chunk_linked sd' f).
Proof.
  intros self sd sd'.
  apply (link_files_needs_pix self sd sd' (Return tt)).
  vm_compute. reflexivity.
Defined.

Lemma relink_members_raises file (ms : list (nat * nat * Obj)) sd :
  ms <> [] ->
  (forall x, x ∈ ms ->
     exists t n, sd_table sd = Some t /\ table_lookup t x.1.1 x.1.2 = Some n) ->
  for_each ms (fun x => link_pixel file x.1.1 x.1.2) sd = (sd, Raise ValueError).
Proof.
  destruct ms as [|x ms]; [done|]. intros _ Hlinked.
  destruct (Hlinked x) as (t & n & Ht & Hl); [by left|].
  simpl. by rewrite (bind_Raise _ _ _ _ _ (link_pixel_linked file _ _ sd t n Ht Hl)).
Qed.

Lemma relink_chunks_raises paths : forall sd,
  (forall p, p ∈ paths ->
     exists f pix, sd_chunks sd !! name p = Some f /\ cf_pix f = Some pix
       /\ chunk_linked sd f) ->
  all_links sd paths <> [] ->
  for_each paths link_chunk sd = (sd, Raise ValueError).
Proof.
  induction paths as [|p paths IH]; intros sd Hfiles Hne; [done|].
  destruct (Hfiles p) as (f & pix & Hf & Hpix & Hlinked); [by left|].
  rewrite all_links_cons in Hne.
  assert (chunk_file sd p = f) as Hcf by (unfold chunk_file; by rewrite Hf).
  rewrite Hcf in Hne. simpl.
  destruct (chunk_members f) as [|x ms] eqn:Hms.
  - rewrite (bind_Return _ _ sd sd tt).
    + apply IH; [|done]. intros q Hq. apply Hfiles. by right.
    + rewrite (link_chunk_members p sd f pix Hf Hpix), Hms. done.
  - apply bind_Raise.
    rewrite (link_chunk_members p sd f pix Hf Hpix), Hms.
    apply relink_members_raises; [done|].
    intros y Hy. destruct y as [[a b] o]. rewrite <- Hms in Hy.
    apply elem_of_chunk_members in Hy. by eapply Hlinked.
Qed.



(** ** [fit_cube] as a whole *)

Lemma bind_inv_Return {S A B} (m : M S A) (k : A -> M S B) s s' b :
  bind m k s = (s', Return b) ->
  exists s1 a, m s = (s1, Return a) /\ k a s1 = (s', Return b).
Proof.
  unfold bind. destruct (m s) as [s1 [a|e|]]; [|done..].
  intros H. by exists s1, a.
Qed.

Lemma steps_within_weaken (R1 R2 : StoreDir -> StoreDir -> Prop) {A}
    (m : M StoreDir A) :
  (forall sd sd', R1 sd sd' -> R2 sd sd') -> steps_within R1 m -> steps_within R2 m.
Proof. intros H Hm sd. apply H, Hm. Qed.

Lemma chunks_only_refl sd : chunks_only sd sd.
Proof. done. Qed.

Lemma chunks_only_trans sd1 sd2 sd3 :
  chunks_only sd1 sd2 -> chunks_only sd2 sd3 -> chunks_only sd1 sd3.
Proof. intros [? ?] [? ?]. split; congruence. Qed.

Lemma steps_within_in_process (R : StoreDir -> StoreDir -> Prop) (m : M StoreDir unit) :
  steps_within R m -> steps_within R (in_process m).
Proof. intros Hm sd. apply Hm. Qed.

Section stage.
Variable runner : Runner.
Variable self : CubeFitter.

Lemma chunks_only_fit ix path :
  steps_within chunks_only (MainCube.fit runner self ix path).
Proof.
  intros sd. unfold MainCube.fit.
  by destruct (Main.fit_pixels _ _ _ _) as [w r].
Qed.

(** The worker stage of [fit_cube]: one call in this process, or one
    process per chunk. *)
Lemma chunks_only_stage (store : HdfStore) (indices : list (list nat * list nat)) :
  steps_within chunks_only
    (if nchunks store =? 1 then
       ix <- from_option IndexError (indices !! 0) ;;
       path <- from_option IndexError (chunk_paths store !! 0) ;;
       MainCube.fit runner self ix path
     else
       for_each (zip indices (chunk_paths store))
         (fun args => in_process (MainCube.fit runner self (fst args) (snd args))))%monad.
Proof.
  destruct (nchunks store =? 1).
  - apply steps_within_bind;
      [apply chunks_only_trans|apply steps_within_from_option, chunks_only_refl|].
    intros ix. apply steps_within_bind;
      [apply chunks_only_trans|apply steps_within_from_option, chunks_only_refl|].
    intros path. apply chunks_only_fit.
  - apply steps_within_for_each; [apply chunks_only_refl|apply chunks_only_trans|].
    intros args. apply steps_within_in_process, chunks_only_fit.
Qed.

Lemma fit_cube_unfold nm nproc sd n0 n1 n2 :
  stack_shape (stack self) = Some (n0, n1, n2) ->
  MainCube.fit_cube runner self nm nproc sd
  = (store <- HdfStore_init nm nproc ;;
     insert_header (stack self) ;;
     insert_fitter_pars self ;;
     (if nchunks store =? 1 then
        ix <- from_option IndexError
                (get_multiproc_indices (n0, n1) (nchunks store) !! 0) ;;
        path <- from_option IndexError (chunk_paths store !! 0) ;;
        MainCube.fit runner self ix path
      else
        for_each (zip (get_multiproc_indices (n0, n1) (nchunks store))
                      (chunk_paths store))
          (fun args => in_process (MainCube.fit runner self (fst args) (snd args)))) ;;
     link_files store ;;
     close)%monad sd.
Proof.
  intros Hshape. unfold MainCube.fit_cube.
  rewrite Hshape, (stack_shapes _ _ _ _ Hshape). reflexivity.
Qed.

(** On a directory without a table file the set-up part of [fit_cube]
    leaves the table of [header_table]. *)
Lemma fit_cube_fresh nm nproc sd n0 n1 n2 :
  stack_shape (stack self) = Some (n0, n1, n2) ->
  sd_table sd = None ->
  MainCube.fit_cube runner self nm nproc sd
  = ((if nproc =? 1 then
        ix <- from_option IndexError (get_multiproc_indices (n0, n1) nproc !! 0) ;;
        path <- from_option IndexError (chunk_paths (new_store nm nproc) !! 0) ;;
        MainCube.fit runner self ix path
      else
        for_each (zip (get_multiproc_indices (n0, n1) nproc)
                      (chunk_paths (new_store nm nproc)))
          (fun args => in_process (MainCube.fit runner self (fst args) (snd args)))) ;;
     link_files (new_store nm nproc) ;;
     close)%monad
      {| sd_table := Some (header_table self nproc n0 n1); sd_open := true;
         sd_chunks := sd_chunks sd |}.
Proof.
  intros Hshape Hnone. rewrite (fit_cube_unfold nm nproc sd n0 n1 n2 Hshape).
  destruct sd as [tb op ch]. simpl in Hnone. subst tb.
  unfold bind at 1.
  cbv [HdfStore_init bind get set_table set_open modify ret]. cbn [sd_table default t_nchunks empty_table].
  cbv [insert_header is_open insert_fitter_pars the_table bind get set_table modify ret from_option assert].
  cbn. rewrite Hshape. reflexivity.
Qed.
End stage.

Lemma HdfStore_init_existing nm arg sd t n :
  sd_table sd = Some t -> t_nchunks t = Some n ->
  HdfStore_init nm arg sd
  = ({| sd_table := Some t; sd_open := true; sd_chunks := sd_chunks sd |},
     Return {| store_name := nm; store_dir := check_ext nm "store"; nchunks := n |}).
Proof.
  intros Ht Hn. destruct sd as [tb op ch]. simpl in Ht. subst tb.
  unfold HdfStore_init, bind, get, set_table, set_open, modify, ret.
  simpl. rewrite Hn. reflexivity.
Qed.



Lemma close_eq sd :
  close sd = ({| sd_table := sd_table sd; sd_open := false; sd_chunks := sd_chunks sd |},
              Return tt).
Proof. reflexivity. Qed.

(** X9. When [fit_cube] returns normally on a new store directory, the
    store is closed; the table file carries [nchunks], the first two
    lengths of the cube as [naxis1] and [naxis2], the threshold and the
    maximum number of components of the fitter, and the header groups, and
    has no products yet; every chunk file exists, has a [/pix] group and
    all its members are linked from the table file; and whatever a link
    of the table file leads to is a pixel group whose attributes [i_lon]
    and [i_lat], where present, name its cell, at a cell whose spectra
    have no NaN. *)
Theorem fit_cube_postcondition (runner : Runner) (self : CubeFitter)
    (nm : string) (nproc : nat) (sd sd' : StoreDir) (n_lon n_lat n_chan : nat) :
  sd_table sd = None ->
  sd_chunks sd = ∅ ->
  stack_shape (stack self) = Some (n_lon, n_lat, n_chan) ->
  MainCube.fit_cube runner self nm nproc sd = (sd', Return tt) ->
  sd_open sd' = false
  /\ (exists t', sd_table sd' = Some t'
        /\ same_attrs (header_table self nproc n_lon n_lat) t')
  /\ (forall p, p ∈ chunk_paths (new_store nm nproc) ->
        exists f pix, sd_chunks sd' !! name p = Some f /\ cf_pix f = Some pix
          /\ chunk_linked sd' f)
  /\ linked_ok (stack self) sd'.
Proof.
  intros Hnone Hempty Hshape Hrun.
  assert (linked_ok (stack self) sd') as Hlinked.
  { apply store_ok_linked.
    pose proof (keeps_store_fit_cube runner self nm nproc sd) as Hok.
    rewrite Hrun in Hok. apply Hok.
    split; [|split].
    - intros file f. by rewrite Hempty, lookup_empty.
    - intros t. by rewrite Hnone.
    - intros t. by rewrite Hnone. }
  rewrite (fit_cube_fresh runner self nm nproc sd _ _ _ Hshape Hnone) in Hrun.
  apply bind_inv_Return in Hrun as (sd1 & [] & Hstage & Hrun).
  apply bind_inv_Return in Hrun as (sd2 & [] & Hlink & Hclose).
  rewrite close_eq in Hclose. injection Hclose as <-.
  pose proof (chunks_only_stage runner self (new_store nm nproc)
                (get_multiproc_indices (n_lon, n_lat) nproc)
                {| sd_table := Some (header_table self nproc n_lon n_lat);
                   sd_open := true; sd_chunks := sd_chunks sd |}) as Hco.
  cbn [nchunks new_store] in Hco. rewrite Hstage in Hco.
  destruct Hco as [Ht1 Ho1]. simpl in Ht1, Ho1.
  pose proof (links_only_link_files (new_store nm nproc) sd1) as Hlo.
  rewrite Hlink in Hlo. destruct Hlo as (Hc2 & Ho2 & Ht2). simpl in Hc2, Ho2, Ht2.
  rewrite Ht1 in Ht2.
  destruct (sd_table sd2) as [t2|] eqn:Hsd2; [|done]. destruct Ht2 as [Hattrs _].
  split; [done|]. split; [by exists t2|]. split; [|done].
  unfold link_files, is_open in Hlink.
  rewrite (bind_Return _ _ sd1 sd1 (sd_open sd1)) in Hlink by reflexivity.
  rewrite Ho1 in Hlink. cbn [assert] in Hlink. rewrite bind_ret_l in Hlink.
  intros p Hp.
  destruct (link_chunks_Return _ _ _ Hlink p Hp) as (f & pix & Hf & Hpix & Hl).
  exists f, pix. simpl. rewrite Hc2. do 2 (split; [done|]).
  intros lon lat o Ho. destruct (Hl lon lat o Ho) as (t & n & Ht & Hn).
  exists t, n. simpl. by rewrite <- Hsd2, <- Ht.
Qed.

Lemma fit_cube_postcondition_witness :
  let sd' := fst (MainCube.fit_cube Scenario.runner Scenario.fitter "run/test_cube" 2
                    empty_dir) in
  sd_open sd' = false
  /\ (exists t', sd_table sd' = Some t'
        /\ same_attrs (header_table Scenario.fitter 2 2 2) t')
  /\ (forall p, p ∈ chunk_paths (new_store "run/test_cube" 2) ->
        exists f pix, sd_chunks sd' !! name p = Some f /\ cf_pix f = Some pix
          /\ chunk_linked sd' f)
  /\ linked_ok (stack Scenario.fitter) sd'.
Proof.
  intros sd'.
  apply (fit_cube_postcondition Scenario.runner Scenario.fitter "run/test_cube" 2
           empty_dir sd' 2 2 2); [reflexivity..|].
  vm_compute. reflexivity.
Defined.

Lemma headers_stay_refl sd : headers_stay sd sd.
Proof. intros t Ht Hh. by exists t. Qed.

Lemma headers_stay_trans sd1 sd2 sd3 :
  headers_stay sd1 sd2 -> headers_stay sd2 sd3 -> headers_stay sd1 sd3.
Proof.
  intros H1 H2 t Ht Hh. destruct (H1 t Ht Hh) as (t2 & Ht2 & Hh2). by eapply H2.
Qed.

Lemma chunks_only_headers_stay sd sd' : chunks_only sd sd' -> headers_stay sd sd'.
Proof. intros [Ht _] t Hsd Hh. exists t. by rewrite Ht. Qed.

Lemma links_only_headers_stay sd sd' : links_only sd sd' -> headers_stay sd sd'.
Proof.
  intros (_ & _ & Ht) t Hsd Hh. rewrite Hsd in Ht.
  destruct (sd_table sd') as [t'|]; [|done]. destruct Ht as [Ha _].
  exists t'. split; [done|]. destruct Ha as (_ & _ & _ & _ & _ & Hhd & _). congruence.
Qed.

Lemma headers_stay_insert_fitter_pars fitter :
  steps_within headers_stay (insert_fitter_pars fitter).
Proof.
  intros sd t Ht Hh.
  unfold insert_fitter_pars, is_open, the_table, bind, get, set_table, modify, ret.
  simpl. destruct (sd_open sd); simpl; [|by exists t].
  rewrite Ht. simpl. by eexists.
Qed.

Lemma headers_stay_close : steps_within headers_stay close.
Proof. intros sd t Ht Hh. by exists t. Qed.

Lemma HdfStore_init_opens nm arg sd :
  exists sd1 store t1,
    HdfStore_init nm arg sd = (sd1, Return store)
    /\ sd_open sd1 = true /\ sd_table sd1 = Some t1
    /\ sd_chunks sd1 = sd_chunks sd
    /\ t_headers t1 = t_headers (default empty_table (sd_table sd)).
Proof.
  unfold HdfStore_init, bind, get, set_table, set_open, modify, ret. simpl.
  destruct (t_nchunks (default empty_table (sd_table sd))); simpl;
    eexists _, _, _; by repeat split.
Qed.

Lemma insert_header_Return stack sd sd' :
  sd_open sd = true ->
  insert_header stack sd = (sd', Return tt) ->
  exists t', sd_table sd' = Some t' /\ t_headers t' = true.
Proof.
  intros Ho. unfold insert_header, is_open, the_table, bind, get, set_table,
    modify, ret, raise, from_option.
  rewrite Ho. simpl.
  destruct (sd_table sd) as [t|]; simpl; [|done].
  destruct (t_headers t); simpl; [done|].
  destruct (stack_shape stack) as [shape|]; simpl; [|done].
  intros [= <-]. by eexists.
Qed.

Lemma insert_header_exists stack sd t :
  sd_open sd = true -> sd_table sd = Some t -> t_headers t = true ->
  insert_header stack sd = (sd, Raise ValueError).
Proof.
  intros Ho Ht Hh. unfold insert_header, is_open, the_table, bind, get,
    from_option, ret, raise.
  rewrite Ho. simpl. rewrite Ht. simpl. by rewrite Hh.
Qed.

(** X10. [fit_cube] cannot be run twice on one store directory: after a
    run that returned normally the table file has the header groups, and
    any further [fit_cube] on that store - with whatever cubes, fitter and
    number of workers - raises [ValueError] when it creates them again.  No worker runs and no chunk file changes; the handle it
    opened stays open. *)
Theorem fit_cube_not_repeatable (runner runner2 : Runner) (self self2 : CubeFitter)
    (nm : string) (nproc nproc2 : nat) (sd sd1 : StoreDir) :
  MainCube.fit_cube runner self nm nproc sd = (sd1, Return tt) ->
  cubes (stack self2) <> [] ->
  exists sd2,
    MainCube.fit_cube runner2 self2 nm nproc2 sd1 = (sd2, Raise ValueError)
    /\ sd_chunks sd2 = sd_chunks sd1
    /\ sd_open sd2 = true.
Proof.
  intros Hrun Hcubes.
  assert (exists t1, sd_table sd1 = Some t1 /\ t_headers t1 = true)
    as (t1 & Ht1 & Hh1).
  { destruct (stack_shape (stack self)) as [[[n0 n1] n2]|] eqn:Hshape; cycle 1.
    { unfold MainCube.fit_cube in Hrun. rewrite Hshape in Hrun. done. }
    rewrite (fit_cube_unfold runner self nm nproc sd _ _ _ Hshape) in Hrun.
    destruct (HdfStore_init_opens nm nproc sd)
      as (s1 & store & t & Hinit & Ho & Ht & _).
    rewrite (bind_Return _ _ _ _ _ Hinit) in Hrun.
    apply bind_inv_Return in Hrun as (s2 & [] & Hhdr & Hrest).
    destruct (insert_header_Return _ _ _ Ho Hhdr) as (t2 & Ht2 & Hh2).
    match type of Hrest with
    | ?m s2 = _ => assert (steps_within headers_stay m) as Hstay
    end.
    { apply steps_within_bind;
        [apply headers_stay_trans|apply headers_stay_insert_fitter_pars|intros _].
      apply steps_within_bind; [apply headers_stay_trans| |intros _].
      { eapply steps_within_weaken; [apply chunks_only_headers_stay|].
        apply chunks_only_stage. }
      apply steps_within_bind; [apply headers_stay_trans| |intros _].
      { eapply steps_within_weaken; [apply links_only_headers_stay|].
        apply links_only_link_files. }
      apply headers_stay_close. }
    specialize (Hstay s2). rewrite Hrest in Hstay. by apply (Hstay t2). }
  destruct (stack_shape (stack self2)) as [[[n0 n1] n2]|] eqn:Hshape2; cycle 1.
  { unfold stack_shape in Hshape2. by destruct (cubes (stack self2)). }
  rewrite (fit_cube_unfold runner2 self2 nm nproc2 sd1 _ _ _ Hshape2).
  destruct (HdfStore_init_opens nm nproc2 sd1)
    as (s1 & store & t & Hinit & Ho & Ht & Hc & Hh).
  rewrite Ht1 in Hh. simpl in Hh. rewrite Hh1 in Hh.
  rewrite (bind_Return _ _ _ _ _ Hinit).
  rewrite (bind_Raise _ _ _ _ _ (insert_header_exists _ s1 t Ho Ht Hh)).
  by exists s1.
Qed.

Lemma fit_cube_not_repeatable_witness :
  let sd1 := fst (MainCube.fit_cube Scenario.runner Scenario.fitter "run/test_cube" 1
                    empty_dir) in
  exists sd2,
    MainCube.fit_cube flat_runner inf_fitter "run/test_cube" 2 sd1
      = (sd2, Raise ValueError)
    /\ sd_chunks sd2 = sd_chunks sd1
    /\ sd_open sd2 = true.
Proof.
  intros sd1.
  apply (fit_cube_not_repeatable Scenario.runner flat_runner Scenario.fitter inf_fitter
           "run/test_cube" 1 2 empty_dir sd1).
  - vm_compute. reflexivity.
  - discriminate.
Defined.

(** ** A chunk without a fitted pixel *)

Section footprint.
Variable body : nat * nat -> M Worker unit.
Hypothesis body_keeping : forall lon lat, keeping lon lat (body (lon, lat)).

(** A worker writes only at the cells it visits. *)
Lemma for_each_footprint l : forall w lon lat o,
  chunk_lookup (wk_file (fst (for_each l body w))) lon lat = Some o ->
  (lon, lat) ∈ l \/ chunk_lookup (wk_file w) lon lat = Some o.
Proof using body_keeping.
  induction l as [|[a b] l IH]; intros w lon lat o Ho; [by right|].
  simpl in Ho. unfold bind in Ho.
  pose proof (body_keeping a b w) as [Hother _].
  destruct (body (a, b) w) as [w1 [[]|e|]] eqn:Hb; simpl in *.
  - destruct (IH w1 lon lat o Ho) as [Hin|Hw1]; [left; by right|].
    destruct (decide ((a, b) = (lon, lat))) as [->|Hne]; [left; by left|].
    right. by rewrite <- Hother.
  - destruct (decide ((a, b) = (lon, lat))) as [->|Hne]; [left; by left|].
    right. by rewrite <- Hother.
  - destruct (decide ((a, b) = (lon, lat))) as [->|Hne]; [left; by left|].
    right. by rewrite <- Hother.
Qed.
End footprint.

Section unfit.
Variable runner : Runner.
Variable self : CubeFitter.

Lemma main_fit_pixels_footprint ix w :
  (forall lon lat, chunk_lookup (wk_file w) lon lat = None) ->
  members_within (chunk_pixels ix)
    (wk_file (fst (Main.fit_pixels runner self ix w))).
Proof.
  intros Hfresh lon lat o Ho. unfold Main.fit_pixels in Ho.
  apply for_each_footprint in Ho as [Hin|Ho]; [done| |].
  - by rewrite Hfresh in Ho.
  - intros a b. apply keeping_main_fit_pixel.
Qed.

(** A worker all of whose pixels have a NaN sample writes nothing. *)
Lemma main_fit_pixels_all_skipped l : forall w,
  (forall lon lat, (lon, lat) ∈ l -> has_nan_sample (stack self) lon lat) ->
  wk_file (fst (for_each l (Main.fit_pixel runner self) w)) = wk_file w
  /\ snd (for_each l (Main.fit_pixel runner self) w) = Return tt.
Proof.
  induction l as [|[a b] l IH]; intros w Hnan; [done|].
  assert (snd (get_spectra (stack self) a b) = true) as Hab.
  { apply get_spectra_has_nans, Hnan. by left. }
  simpl. rewrite (bind_Return _ _ _ _ _ (main_fit_pixel_skip runner self a b w Hab)).
  destruct (IH {| wk_file := wk_file w; wk_log := EvSkip a b :: wk_log w |})
    as [Hf Hr]; [|done].
  intros lon lat Hin. apply Hnan. by right.
Qed.
End unfit.

Lemma all_links_singleton sd p :
  all_links sd [p] = (pair (name p)) <$> chunk_members (chunk_file sd p).
Proof. rewrite all_links_cons. apply app_nil_r. Qed.

(** Linking stops with [KeyError] at the first chunk file without [/pix]. *)
Lemma link_chunks_missing_pix paths : forall sd t,
  sd_table sd = Some t ->
  (forall p, p ∈ paths -> is_Some (sd_chunks sd !! name p)) ->
  NoDup ((fun y => y.2.1) <$> all_links sd paths) ->
  (forall y, y ∈ all_links sd paths -> table_lookup t y.2.1.1 y.2.1.2 = None) ->
  (exists p f, p ∈ paths /\ sd_chunks sd !! name p = Some f /\ cf_pix f = None) ->
  exists sd', for_each paths link_chunk sd = (sd', Raise KeyError)
    /\ sd_chunks sd' = sd_chunks sd /\ sd_open sd' = sd_open sd.
Proof.
  induction paths as [|p paths IH]; intros sd t Ht Hfiles Hnd Habsent Hbad.
  { destruct Hbad as (p & f & Hp & _). by apply elem_of_nil in Hp. }
  destruct (Hfiles p) as [f Hf]; [by left|].
  destruct (cf_pix f) as [pix|] eqn:Hpix; cycle 1.
  { exists sd. split; [|done]. simpl. apply bind_Raise.
    unfold link_chunk, bind, get. rewrite Hf. simpl. by rewrite Hpix. }
  assert (chunk_file sd p = f) as Hcf by (unfold chunk_file; by rewrite Hf).
  rewrite all_links_cons, Hcf in Hnd, Habsent.
  rewrite fmap_app in Hnd. apply NoDup_app in Hnd as (Hnd1 & Hdisj & Hnd2).
  destruct (link_chunks_spec [p] sd t Ht) as (sd1 & t1 & Hrun1 & Ht1 & Ho1 & Hc1 & Hl1).
  { intros q Hq. apply list_elem_of_singleton in Hq as ->. by exists f, pix. }
  { by rewrite all_links_singleton, Hcf. }
  { intros y Hy. apply Habsent. rewrite all_links_singleton, Hcf in Hy.
    apply elem_of_app. by left. }
  simpl in Hrun1. apply bind_inv_Return in Hrun1 as (sd1' & [] & Hlink & Hret).
  injection Hret as ->.
  destruct (IH sd1 t1 Ht1) as (sd' & Hrun & Hc & Ho).
  - intros q Hq. rewrite Hc1. apply Hfiles. by right.
  - by rewrite (all_links_chunks sd sd1 _ Hc1).
  - intros [fy [[a b] oy]] Hy. rewrite (all_links_chunks sd sd1 _ Hc1) in Hy.
    cbn [fst snd] in *.
    destruct (table_lookup t1 a b) as [n|] eqn:Hn; [|done].
    apply Hl1 in Hn as [Hold|(file & o & Hin & _)].
    + assert (table_lookup t a b = None) as Hnone; [|congruence].
      apply (Habsent (fy, (a, b, oy))). apply elem_of_app. by right.
    + rewrite all_links_singleton, Hcf in Hin.
      exfalso. apply (Hdisj (a, b)).
      * apply list_elem_of_fmap. by exists (file, (a, b, o)).
      * apply list_elem_of_fmap. by exists (fy, (a, b, oy)).
  - destruct Hbad as (q & g & Hq & Hg & Hgp).
    apply elem_of_cons in Hq as [->|Hq]; [congruence|].
    exists q, g. by rewrite Hc1.
  - exists sd'. split; [|split; congruence].
    simpl. by rewrite (bind_Return _ _ _ _ _ Hlink).
Qed.

Lemma zip_fmap_same {A B C} (f : A -> B) (g : A -> C) (l : list A) :
  zip (f <$> l) (g <$> l) = (fun x => (f x, g x)) <$> l.
Proof.
  induction l as [|x l IH]; [done|].
  rewrite !fmap_cons. cbn [zip zip_with]. f_equal. exact IH.
Qed.

Lemma get_multiproc_indices_workers shape nproc :
  get_multiproc_indices shape nproc = worker_indices shape nproc <$> seq 0 nproc.
Proof. by destruct shape. Qed.

Lemma chunk_paths_workers store :
  chunk_paths store = worker_path store <$> seq 0 (nchunks store).
Proof. reflexivity. Qed.

Lemma chunk_pixels_worker shape nproc k :
  k < nproc ->
  chunk_pixels (worker_indices shape nproc k) = strided_cells shape nproc k.
Proof.
  intros Hk. apply chunk_pixels_strided.
  by rewrite get_multiproc_indices_lookup.
Qed.

Section worker_stage.
Variable runner : Runner.
Variable self : CubeFitter.

(** What [fit] leaves when the chunk file did not exist. *)
Lemma fit_new_chunk ix p sd :
  sd_chunks sd !! name p = None ->
  exists f r,
    MainCube.fit runner self ix p sd
    = ({| sd_table := sd_table sd; sd_open := sd_open sd;
          sd_chunks := <[name p := f]> (sd_chunks sd) |}, r)
    /\ members_within (chunk_pixels ix) f
    /\ ((forall lon lat, (lon, lat) ∈ chunk_pixels ix ->
           has_nan_sample (stack self) lon lat) ->
        cf_pix f = None /\ r = Return tt).
Proof.
  intros Hnone. unfold MainCube.fit. rewrite Hnone. cbn [default from_option].
  pose proof (main_fit_pixels_footprint runner self ix
                {| wk_file := empty_chunk; wk_log := [] |}
                (fun lon lat => chunk_lookup_empty lon lat)) as Hfoot.
  pose proof (main_fit_pixels_all_skipped runner self (chunk_pixels ix)
                {| wk_file := empty_chunk; wk_log := [] |}) as Hskip.
  unfold Main.fit_pixels in *.
  destruct (for_each (chunk_pixels ix) (Main.fit_pixel runner self) _) as [w r].
  simpl in *. exists (wk_file w), r. split; [done|]. split; [done|].
  intros Hnan. destruct (Hskip Hnan) as [-> ->]. done.
Qed.

Variable shape : nat * nat.
Variable nproc : nat.
Variable store : HdfStore.

Lemma workers_stage len : forall s sd,
  (forall k, s <= k -> sd_chunks sd !! chunk_name k = None) ->
  exists sd1,
    for_each (seq s len)
      (fun k => in_process (MainCube.fit runner self (worker_indices shape nproc k)
                              (worker_path store k))) sd
    = (sd1, Return tt)
    /\ chunks_only sd sd1
    /\ (forall k, s + len <= k -> sd_chunks sd1 !! chunk_name k = None)
    /\ (forall k, s <= k < s + len -> worker_file_ok (stack self) shape nproc sd1 k)
    /\ (forall k, k < s -> sd_chunks sd1 !! chunk_name k = sd_chunks sd !! chunk_name k).
Proof.
  induction len as [|len IH]; intros s sd Hfresh.
  { exists sd. split; [done|]. split; [done|]. split; [|split; [|done]].
    - intros k Hk. apply Hfresh. lia.
    - intros k Hk. lia. }
  destruct (fit_new_chunk (worker_indices shape nproc s) (worker_path store s) sd)
    as (f & r & Hfit & Hfoot & Hskip).
  { apply Hfresh. lia. }
  set (sd' := {| sd_table := sd_table sd; sd_open := sd_open sd;
                 sd_chunks := <[chunk_name s := f]> (sd_chunks sd) |}).
  destruct (IH (S s) sd') as (sd1 & Hrun & [Ht Ho] & Hnone & Hok & Hold).
  { intros k Hk. simpl. rewrite lookup_insert_ne; [apply Hfresh; lia|].
    intros Heq%chunk_name_inj. lia. }
  exists sd1. split; [|split; [|split; [|split]]].
  - cbn [seq for_each].
    rewrite (bind_Return _ _ sd sd' tt); [done|].
    unfold in_process. by rewrite Hfit.
  - split; [by rewrite Ht|by rewrite Ho].
  - intros k Hk. apply Hnone. lia.
  - intros k Hk. destruct (decide (k = s)) as [->|Hne]; [|apply Hok; lia].
    exists f. split; [|split; [done|]].
    + rewrite Hold by lia. simpl. by rewrite lookup_insert_eq.
    + intros Hn. by destruct (Hskip Hn).
  - intros k Hk. rewrite Hold by lia. simpl.
    rewrite lookup_insert_ne; [done|]. intros Heq%chunk_name_inj. lia.
Qed.
End worker_stage.

Lemma elem_of_chunk_paths store p :
  p ∈ chunk_paths store <-> exists k, k < nchunks store /\ p = worker_path store k.
Proof.
  rewrite chunk_paths_workers, list_elem_of_fmap. split.
  - intros (k & -> & Hk). apply elem_of_seq in Hk. exists k. split; [lia|done].
  - intros (k & Hk & ->). exists k. split; [done|]. apply elem_of_seq. lia.
Qed.

(** After the workers ran on a new directory, linking fails as soon as
    the chunk file of some worker has no [/pix]. *)
Lemma link_files_unfit_chunk stack shape nproc nm sd1 t i :
  1 <= nproc -> i < nproc ->
  sd_open sd1 = true -> sd_table sd1 = Some t -> t_pix t = None ->
  (forall k, k < nproc -> worker_file_ok stack (fst shape, snd shape) nproc sd1 k) ->
  (forall lon lat, (lon, lat) ∈ strided_cells (fst shape, snd shape) nproc i ->
     has_nan_sample stack lon lat) ->
  exists sd', link_files (new_store nm nproc) sd1 = (sd', Raise KeyError)
    /\ sd_open sd' = true.
Proof.
  intros Hn Hi Ho Ht Hpix Hok Hnan.
  set (store := new_store nm nproc).
  destruct (link_chunks_missing_pix (chunk_paths store) sd1 t Ht)
    as (sd' & Hrun & _ & Ho').
  - intros p (k & Hk & ->)%elem_of_chunk_paths.
    destruct (Hok k Hk) as (f & Hf & _). by exists f.
  - unfold all_links. rewrite fmap_bind_list. apply NoDup_bind.
    + intros p q [a b] (k & Hk & ->)%elem_of_chunk_paths
        (k' & Hk' & ->)%elem_of_chunk_paths Hp Hq.
      rewrite <- list_fmap_compose in Hp, Hq.
      assert (forall j, j < nproc ->
                (a, b) ∈ (fun y : string * (nat * nat * Obj) => y.2.1) ∘ pair (name (worker_path store j))
                   <$> chunk_members (chunk_file sd1 (worker_path store j)) ->
                a mod nproc = j) as Hmod.
      { intros j Hj Hin.
        apply list_elem_of_fmap in Hin as ([[a' b'] o] & [= <- <-] & Hin).
        apply elem_of_chunk_members in Hin.
        destruct (Hok j Hj) as (f & Hf & Hfoot & _).
        unfold chunk_file in Hin. simpl in Hin. rewrite Hf in Hin. simpl in Hin.
        apply Hfoot in Hin. rewrite chunk_pixels_worker in Hin by done.
        by apply elem_of_strided_cells in Hin as (_ & _ & ?). }
      apply Hmod in Hp; [|done]. apply Hmod in Hq; [|done]. congruence.
    + intros p _. rewrite <- list_fmap_compose. apply members_keys_NoDup.
    + apply chunk_paths_NoDup.
  - intros y _. unfold table_lookup. by rewrite Hpix.
  - destruct (Hok i Hi) as (f & Hf & _ & Hskip).
    exists (worker_path store i), f. split; [|split; [done|]].
    + apply elem_of_chunk_paths. by exists i.
    + apply Hskip. intros lon lat Hin. apply Hnan.
      by rewrite chunk_pixels_worker in Hin.
  - exists sd'. split; [|congruence].
    unfold link_files, is_open.
    rewrite (bind_Return _ _ sd1 sd1 (sd_open sd1)) by reflexivity.
    rewrite Ho. cbn [assert]. by rewrite bind_ret_l.
Qed.



(** ** The outcome of fitting one pixel *)

Section outcome.
Variable runner : Runner.
Variable self : CubeFitter.
Variables lon lat : nat.
Variable spec : SpecData.

(** The loop of core.py from order [ncomp] on: where it stops. *)
Lemma core_fit_while_stops fuel : forall ncomp w g w' r,
  1 <= ncomp -> ncomp <= ncomp_max self + 1 ->
  ncomp_max self + 1 <= fuel + ncomp ->
  chunk_lookup (wk_file w) lon lat = Some (OGroup g) ->
  subs_upto runner spec (ncomp - 1) (pg_subs g) ->
  Core.fit_while runner self fuel lon lat spec ncomp (ncomp - 1)
    (prev_lnZ runner spec ncomp) w = (w', r) ->
  match r with
  | Return nb =>
      exists g',
        chunk_lookup (wk_file w') lon lat = Some (OGroup g')
        /\ pg_i_lon g' = pg_i_lon g /\ pg_i_lat g' = pg_i_lat g
        /\ pg_nbest g' = pg_nbest g
        /\ ncomp - 1 <= nb <= ncomp_max self
        /\ (forall i, ncomp <= i <= nb -> accepted runner self spec i)
        /\ (nb < ncomp_max self -> rejected runner self spec (nb + 1))
        /\ subs_upto runner spec (Nat.min (nb + 1) (ncomp_max self)) (pg_subs g')
  | Raise e => e = AssertionError
  | Timeout => False
  end.
Proof.
  induction fuel as [|fuel IH]; intros ncomp w g w' r Hn Hhi Hfuel Hl Hsubs; simpl;
    (destruct (Nat.leb_spec ncomp (ncomp_max self)) as [Hle|Hgt]; [lia||idtac|]).
  1,3: (intros [= <- <-]; exists g; do 4 (split; [done|]); split; [lia|];
        split; [intros; lia|]; split; [intros; lia|];
        by replace (Nat.min (ncomp - 1 + 1) (ncomp_max self)) with (ncomp - 1) by lia).
  erewrite bind_Return by reflexivity.
  erewrite bind_Return
    by (rewrite (create_group_eq lon lat _ ncomp g) by done;
        rewrite (Hsubs ncomp), decide_False by lia; reflexivity).
  erewrite bind_Return by (apply run_multinest_eq; simpl;
                           apply chunk_lookup_insert_eq).
  set (subs3 := alter _ ncomp _).
  assert (subs_upto runner spec ncomp subs3) as Hsubs3.
  { intros i. unfold subs3. destruct (decide (i = ncomp)) as [->|Hne].
    - rewrite lookup_alter_eq. simpl. rewrite lookup_insert_eq. simpl.
      by rewrite decide_True by lia.
    - rewrite lookup_alter_ne by done. simpl. rewrite lookup_insert_ne by done.
      rewrite (Hsubs i). repeat case_decide; done || lia. }
  destruct (Float.isfinite (run_lnZ runner spec ncomp)) eqn:Hfin.
  2: { erewrite bind_Raise by reflexivity. by intros [= <- <-]. }
  erewrite bind_Return by reflexivity.
  erewrite bind_Return by reflexivity.
  destruct (Float.ltb _ _) eqn:Hlt.
  - intros [= <- <-].
    eexists. split; [simpl; apply chunk_lookup_insert_eq|].
    simpl. do 3 (split; [done|]). split; [lia|]. split; [intros; lia|].
    replace (ncomp - 1 + 1) with ncomp by lia.
    split; [intros _; by split|].
    by replace (Nat.min ncomp (ncomp_max self)) with ncomp by lia.
  - intros Hrun.
    assert (prev_lnZ runner spec (ncomp + 1) = run_lnZ runner spec ncomp) as Hprev.
    { unfold prev_lnZ. replace (ncomp + 1 =? 1) with false
        by (symmetry; apply Nat.eqb_neq; lia).
      f_equal. lia. }
    match type of Hrun with
    | Core.fit_while _ _ _ _ _ _ _ _ _ ?w5 = _ =>
        pose proof (IH (ncomp + 1) w5 _ w' r ltac:(lia) ltac:(lia) ltac:(lia)
                      (chunk_lookup_insert_eq _ _ _ _)) as IH'
    end.
    rewrite Hprev in IH'. replace (ncomp + 1 - 1) with ncomp in IH' by lia.
    specialize (IH' Hsubs3 Hrun).
    destruct r as [nb|e|]; [|done..].
    destruct IH' as (g' & Hl' & Hlon & Hlat & Hnb & Hrange & Hacc & Hrej & Hsubs').
    exists g'. simpl in Hlon, Hlat, Hnb. do 4 (split; [done|]).
    split; [lia|]. split; [|by split].
    intros i Hi. destruct (decide (i = ncomp)) as [->|]; [by split|].
    apply Hacc. lia.
Qed.
Lemma finish_pixel_outcome (w3 w' : Worker) (r3 : res nat) (r : res unit) g0 :
  pg_subs g0 = ∅ ->
  match r3 with
  | Return nb =>
      exists g3,
        chunk_lookup (wk_file w3) lon lat = Some (OGroup g3)
        /\ pg_i_lon g3 = pg_i_lon g0 /\ pg_i_lat g3 = pg_i_lat g0
        /\ pg_nbest g3 = pg_nbest g0
        /\ 1 - 1 <= nb <= ncomp_max self
        /\ (forall i, 1 <= i <= nb -> accepted runner self spec i)
        /\ (nb < ncomp_max self -> rejected runner self spec (nb + 1))
        /\ subs_upto runner spec (Nat.min (nb + 1) (ncomp_max self)) (pg_subs g3)
  | Raise e => e = AssertionError
  | Timeout => False
  end ->
  match r3 with
  | Return nb => set_pixel_attrs lon lat nb w3
  | Raise e => (w3, Raise e)
  | Timeout => (w3, Timeout)
  end = (w', r) ->
  match r with
  | Return _ =>
      exists g, chunk_lookup (wk_file w') lon lat = Some (OGroup g)
        /\ fit_outcome runner self spec lon lat g
  | Raise e => e = AssertionError
  | Timeout => False
  end.
Proof.
  intros _ Hr3 Hfin. destruct r3 as [nb|e|]; [|by injection Hfin as <- <-|done].
  destruct Hr3 as (g3 & Hl3 & _ & _ & _ & Hrange & Hacc & Hrej & Hsubs).
  rewrite (set_pixel_attrs_eq lon lat w3 nb g3 Hl3) in Hfin.
  injection Hfin as <- <-. eexists. split; [simpl; apply chunk_lookup_insert_eq|].
  unfold fit_outcome. exists nb. simpl. do 3 (split; [done|]). split; [lia|]. split; [done|]. by split.
Qed.

End outcome.

Section pixel_outcome.
Variable runner : Runner.
Variable self : CubeFitter.
Variables lon lat : nat.
Variable w : Worker.
Hypothesis no_nans : snd (get_spectra (stack self) lon lat) = false.
Hypothesis fresh : chunk_lookup (wk_file w) lon lat = None.

Let spec := fst (get_spectra (stack self) lon lat).

Lemma core_fit_pixel_outcome w' r :
  Core.fit_pixel runner self (lon, lat) w = (w', r) ->
  match r with
  | Return _ =>
      Float.isfinite (null_lnZ runner spec) = true
      /\ exists g, chunk_lookup (wk_file w') lon lat = Some (OGroup g)
           /\ fit_outcome runner self spec lon lat g
  | Raise e => e = AssertionError
  | Timeout => False
  end.
Proof using no_nans fresh.
  unfold Core.fit_pixel. subst spec.
  destruct (get_spectra (stack self) lon lat) as [spectra h]; simpl in *.
  subst h. rewrite (bind_Return _ _ _ _ _ (require_group_absent lon lat w fresh)).
  erewrite bind_Return by reflexivity.
  destruct (Float.isfinite (null_lnZ runner spectra)) eqn:Hnull.
  2: { erewrite bind_Raise by reflexivity. by intros [= <- <-]. }
  erewrite bind_Return by reflexivity.
  unfold bind.
  destruct (Core.fit_while _ _ _ _ _ _ _ _ _ _) as [w3 r3] eqn:Hloop.
  apply (core_fit_while_stops runner self lon lat spectra (ncomp_max self) 1
           _ empty_group) in Hloop;
    [| lia | lia | lia | simpl; apply chunk_lookup_insert_eq | apply subs_upto_empty].
  intros Hfin.
  pose proof (finish_pixel_outcome runner self lon lat spectra w3 w' r3 r empty_group
                eq_refl) as Hout.
  simpl in Hout. specialize (Hout Hloop Hfin).
  destruct r as [[]|e|]; [|done..]. by split.
Qed.

Lemma main_fit_pixel_outcome w' r :
  Main.fit_pixel runner self (lon, lat) w = (w', r) ->
  match r with
  | Return _ =>
      (1 <= ncomp_max self -> Float.isfinite (null_lnZ runner spec) = true)
      /\ exists g, chunk_lookup (wk_file w') lon lat = Some (OGroup g)
           /\ fit_outcome runner self spec lon lat g
  | Raise e => e = AssertionError
  | Timeout => False
  end.
Proof using no_nans fresh.
  unfold Main.fit_pixel. subst spec.
  destruct (get_spectra (stack self) lon lat) as [spectra h]; simpl in *.
  subst h. rewrite (bind_Return _ _ _ _ _ (require_group_absent lon lat w fresh)).
  destruct (ncomp_max self) as [|mx] eqn:Hmax.
  { cbn. rewrite Hmax. cbn.
    rewrite (set_pixel_attrs_eq lon lat _ 0 empty_group)
      by (simpl; apply chunk_lookup_insert_eq).
    intros [= <- <-]. split; [lia|]. eexists.
    split; [simpl; apply chunk_lookup_insert_eq|].
    unfold fit_outcome. exists 0. simpl. do 3 (split; [done|]). rewrite Hmax.
    split; [lia|]. split; [intros; lia|]. split; [intros; lia|].
    apply subs_upto_empty. }
  cbn -[Nat.leb]. rewrite Hmax.
  replace (1 <=? S mx) with true by (symmetry; apply Nat.leb_le; lia).
  unfold bind at 1.
  erewrite bind_Return by reflexivity.
  erewrite bind_Return
    by (rewrite (create_group_eq lon lat _ 1 empty_group)
          by (simpl; apply chunk_lookup_insert_eq); reflexivity).
  destruct (Float.isfinite (null_lnZ runner spectra)) eqn:Hnull.
  2: { erewrite bind_Raise by reflexivity. by intros [= <- <-]. }
  erewrite bind_Return by reflexivity.
  erewrite bind_Return by (apply run_multinest_eq; simpl;
                           apply chunk_lookup_insert_eq).
  destruct (Float.isfinite (run_lnZ runner spectra 1)) eqn:Hfin.
  2: { erewrite bind_Raise by reflexivity. by intros [= <- <-]. }
  erewrite bind_Return by reflexivity.
  erewrite bind_Return by reflexivity.
  erewrite bind_Return by reflexivity.
  destruct (Float.ltb _ _) eqn:Hlt.
  - unfold ret. cbv beta iota.
    erewrite set_pixel_attrs_eq by (simpl; apply chunk_lookup_insert_eq).
    intros [= <- <-]. split; [done|]. eexists.
    split; [simpl; apply chunk_lookup_insert_eq|].
    unfold fit_outcome. exists 0. simpl. do 3 (split; [done|]). rewrite Hmax.
    split; [lia|]. split; [intros; lia|]. split; [intros _; by split|].
    replace (Nat.min 1 (S mx)) with 1 by lia. apply subs_upto_first.
  - rewrite main_core_fit_while by lia.
    destruct (Core.fit_while _ _ _ _ _ _ _ _ _ _) as [w3 r3] eqn:Hloop.
    match type of Hloop with
    | Core.fit_while _ _ _ _ _ _ _ _ _ ?w2 = _ =>
        pose proof (core_fit_while_stops runner self lon lat spectra mx 2 w2 _
                      w3 r3 ltac:(lia) ltac:(lia) ltac:(lia)
                      (chunk_lookup_insert_eq _ _ _ _)
                      (subs_upto_first runner spectra) Hloop) as Hr3
    end.
    intros Hr.
    destruct r3 as [nb|e|]; [|injection Hr as <- <-; done|done].
    destruct Hr3 as (g3 & Hl3 & _ & _ & _ & Hrange & Hacc & Hrej & Hsubs).
    rewrite (set_pixel_attrs_eq lon lat w3 nb g3 Hl3) in Hr.
    injection Hr as <- <-. split; [done|]. eexists.
    split; [simpl; apply chunk_lookup_insert_eq|].
    unfold fit_outcome. exists nb. simpl. do 3 (split; [done|]). rewrite Hmax in *.
    split; [lia|]. split; [|by split].
    intros i Hi. destruct (decide (i = 1)) as [->|]; [by split|].
    apply Hacc. lia.
Qed.
End pixel_outcome.



(** ** Cells that are taken, and a fitter without components *)

(** X13. A worker does not fit a pixel again.  When the chunk file
    already holds the first fit of a pixel, [fit] raises [ValueError] as
    it creates the sub-group [1] (in core.py after the null evidence
    passed its assertion), and when the path of the pixel holds a dataset
    it raises [TypeError]; in both cases nothing is written. *)
Theorem fit_pixel_refit_raises (runner : Runner) (self : CubeFitter)
    (lon lat : nat) (w : Worker) :
  snd (get_spectra (stack self) lon lat) = false ->
  1 <= ncomp_max self ->
  let spec := fst (get_spectra (stack self) lon lat) in
  (forall g, chunk_lookup (wk_file w) lon lat = Some (OGroup g) ->
     is_Some (pg_subs g !! 1) ->
     wk_file (fst (Main.fit_pixel runner self (lon, lat) w)) = wk_file w
     /\ snd (Main.fit_pixel runner self (lon, lat) w) = Raise ValueError
     /\ wk_file (fst (Core.fit_pixel runner self (lon, lat) w)) = wk_file w
     /\ (Float.isfinite (null_lnZ runner spec) = true ->
         snd (Core.fit_pixel runner self (lon, lat) w) = Raise ValueError))
  /\ (chunk_lookup (wk_file w) lon lat = Some ODataset ->
      Main.fit_pixel runner self (lon, lat) w = (w, Raise TypeError)
      /\ Core.fit_pixel runner self (lon, lat) w = (w, Raise TypeError)).
Proof.
  intros Hnan Hmax spec. subst spec.
  unfold Main.fit_pixel, Core.fit_pixel.
  destruct (get_spectra (stack self) lon lat) as [spectra h]; simpl in *. subst h.
  assert (forall g, chunk_lookup (wk_file w) lon lat = Some (OGroup g) ->
            require_group lon lat w = (w, Return tt)) as Hreq.
  { intros g Hl. unfold require_group, bind, get. simpl. by rewrite Hl. }
  split.
  - intros g Hl [sg Hsg].
    rewrite !(bind_Return _ _ _ _ _ (Hreq g Hl)).
    destruct (ncomp_max self) as [|mx] eqn:Hmx; [lia|].
    cbn -[Nat.leb]. rewrite Hmx.
    replace (1 <=? S mx) with true by (symmetry; apply Nat.leb_le; lia).
    assert (forall lg, create_group lon lat 1 {| wk_file := wk_file w; wk_log := lg |}
                       = ({| wk_file := wk_file w; wk_log := lg |}, Raise ValueError))
      as Hcreate.
    { intros lg. rewrite (create_group_eq lon lat _ 1 g) by done. by rewrite Hsg. }
    split; [|split; [|split]].
    + unfold bind at 1. erewrite bind_Return by reflexivity.
      by erewrite bind_Raise by apply Hcreate.
    + unfold bind at 1. erewrite bind_Return by reflexivity.
      by erewrite bind_Raise by apply Hcreate.
    + destruct (Float.isfinite (null_lnZ runner spectra)).
      * erewrite bind_Return by reflexivity. unfold bind at 1.
        erewrite bind_Return by reflexivity.
        by erewrite bind_Raise by apply Hcreate.
      * by erewrite bind_Raise by reflexivity.
    + intros ->. erewrite bind_Return by reflexivity. unfold bind at 1.
      erewrite bind_Return by reflexivity.
      by erewrite bind_Raise by apply Hcreate.
  - intros Hl.
    assert (require_group lon lat w = (w, Raise TypeError)) as Hty.
    { unfold require_group, bind, get. simpl. by rewrite Hl. }
    by rewrite !(bind_Raise _ _ _ _ _ Hty).
Qed.

Lemma fit_pixel_refit_raises_witness :
  let w := fst (Main.fit_pixel Scenario.runner Scenario.fitter (0, 0) fresh_worker) in
  let spec := fst (get_spectra (stack Scenario.fitter) 0 0) in
  (forall g, chunk_lookup (wk_file w) 0 0 = Some (OGroup g) ->
     is_Some (pg_subs g !! 1) ->
     wk_file (fst (Main.fit_pixel Scenario.runner Scenario.fitter (0, 0) w)) = wk_file w
     /\ snd (Main.fit_pixel Scenario.runner Scenario.fitter (0, 0) w) = Raise ValueError
     /\ wk_file (fst (Core.fit_pixel Scenario.runner Scenario.fitter (0, 0) w)) = wk_file w
     /\ (Float.isfinite (null_lnZ Scenario.runner spec) = true ->
         snd (Core.fit_pixel Scenario.runner Scenario.fitter (0, 0) w) = Raise ValueError))
  /\ (chunk_lookup (wk_file w) 0 0 = Some ODataset ->
      Main.fit_pixel Scenario.runner Scenario.fitter (0, 0) w = (w, Raise TypeError)
      /\ Core.fit_pixel Scenario.runner Scenario.fitter (0, 0) w = (w, Raise TypeError)).
Proof.
  intros w.
  apply (fit_pixel_refit_raises Scenario.runner Scenario.fitter 0 0 w).
  - reflexivity.
  - vm_compute. lia.
Defined.

(** X14. With [ncomp_max = 0] main.py never consults the sampler: a
    pixel without NaN gets a group with [nbest = 0] and no sub-group, and
    the null evidence is not even read, so a non-finite null evidence goes
    unnoticed.  core.py asserts the null evidence before its loop and
    raises [AssertionError] for the same pixel. *)
Theorem main_ncomp_max_zero (runner : Runner) (self : CubeFitter)
    (lon lat : nat) (w : Worker) :
  ncomp_max self = 0 ->
  snd (get_spectra (stack self) lon lat) = false ->
  chunk_lookup (wk_file w) lon lat = None ->
  Main.fit_pixel runner self (lon, lat) w
  = ({| wk_file := chunk_insert (wk_file w) lon lat
          (OGroup {| pg_i_lon := Some lon; pg_i_lat := Some lat;
                     pg_nbest := Some 0%Z; pg_subs := ∅ |});
        wk_log := wk_log w |}, Return tt)
  /\ (Float.isfinite (null_lnZ runner (fst (get_spectra (stack self) lon lat))) = false ->
      snd (Core.fit_pixel runner self (lon, lat) w) = Raise AssertionError).
Proof.
  intros Hmax Hnan Hfresh. split; [|by apply core_null_fatal].
  unfold Main.fit_pixel.
  destruct (get_spectra (stack self) lon lat) as [spectra h]; simpl in *. subst h.
  rewrite (bind_Return _ _ _ _ _ (require_group_absent lon lat w Hfresh)).
  rewrite Hmax. cbn. rewrite !Hmax. cbn.
  rewrite (set_pixel_attrs_eq lon lat _ 0 empty_group)
    by (simpl; apply chunk_lookup_insert_eq).
  simpl. f_equal. f_equal.
  unfold chunk_insert. simpl. f_equal. f_equal.
  destruct (cf_pix (wk_file w)) as [pix|]; simpl.
  - rewrite lookup_insert_eq. simpl. by rewrite !insert_insert_eq.
  - rewrite lookup_insert_eq. simpl. by rewrite !insert_insert_eq.
Qed.

Lemma main_ncomp_max_zero_witness :
  let self := {| stack := stack Scenario.fitter; lnZ_thresh := Float.of_Z 11;
                 ncomp_max := 0 |} in
  Main.fit_pixel nan_null_runner self (0, 0) fresh_worker
  = ({| wk_file := chunk_insert (wk_file fresh_worker) 0 0
          (OGroup {| pg_i_lon := Some 0; pg_i_lat := Some 0;
                     pg_nbest := Some 0%Z; pg_subs := ∅ |});
        wk_log := wk_log fresh_worker |}, Return tt)
  /\ (Float.isfinite (null_lnZ nan_null_runner (fst (get_spectra (stack self) 0 0))) = false ->
      snd (Core.fit_pixel nan_null_runner self (0, 0) fresh_worker) = Raise AssertionError).
Proof.
  intros self.
  apply (main_ncomp_max_zero nan_null_runner self 0 0 fresh_worker); reflexivity.
Defined.

(** ** Aggregation as a whole *)

Lemma pure_step_ret {S A} (a : A) : pure_step (ret (S:=S) a).
Proof. by exists (Return a). Qed.

Lemma pure_step_raise {S A} e : pure_step (raise (S:=S) (A:=A) e).
Proof. by exists (Raise e). Qed.

Lemma pure_step_from_option {S A} e (o : option A) : pure_step (from_option (S:=S) e o).
Proof. destruct o; [apply pure_step_ret | apply pure_step_raise]. Qed.

Lemma pure_step_bind {S A B} (m : M S A) (k : A -> M S B) :
  pure_step m -> (forall a, pure_step (k a)) -> pure_step (bind m k).
Proof.
  intros (r & Hr & Hm) Hk. destruct r as [a|e|]; [| |done].
  - destruct (Hk a) as (r' & Hr' & Hka). exists r'. split; [done|].
    intros s. unfold bind. by rewrite Hm.
  - exists (Raise e). split; [done|]. intros s. unfold bind. by rewrite Hm.
Qed.

Lemma pure_step_fold_m {S A B} (l : list A) (body : B -> A -> M S B) b :
  (forall b x, pure_step (body b x)) -> pure_step (fold_m l body b).
Proof.
  intros Hbody. revert b. induction l as [|x l IH]; intros b; simpl.
  - apply pure_step_ret.
  - apply pure_step_bind; [apply Hbody | apply IH].
Qed.

Lemma pure_step_aggregate_group acc group :
  pure_step (S:=StoreDir) (aggregate_group acc group).
Proof.
  unfold aggregate_group. destruct acc as [nb lnz].
  repeat (apply pure_step_bind; [apply pure_step_from_option | intros ?]).
  apply pure_step_bind; [|intros; apply pure_step_ret].
  apply pure_step_fold_m. intros lnz' model. unfold aggregate_model.
  apply pure_step_bind; [apply pure_step_from_option | intros ?].
  apply pure_step_bind.
  - destruct (_ =? 1); [|apply pure_step_ret].
    apply pure_step_bind; [apply pure_step_from_option | intros ?].
    apply pure_step_from_option.
  - intros ?. apply pure_step_bind; [apply pure_step_from_option | intros ?].
    apply pure_step_from_option.
Qed.

Lemma aggregate_returns sd t n_lon n_lat nmax gs acc :
  sd_table sd = Some t ->
  t_naxis1 t = Some n_lon -> t_naxis2 t = Some n_lat ->
  t_n_max_components t = Some nmax ->
  iter_pix_groups sd = (gs, None) ->
  fold_m gs aggregate_group (empty_maps n_lon n_lat nmax) sd = (sd, Return acc) ->
  aggregate_run_attributes sd
  = ({| sd_table :=
          Some (with_products t
                  (transpose2 (-1)%Z (n_lon, n_lat) (fst acc))
                  (transpose3 Float.NaN (n_lon, n_lat, nmax + 1) (snd acc)));
        sd_open := sd_open sd; sd_chunks := sd_chunks sd |}, Return tt).
Proof.
  intros Ht Hn1 Hn2 Hn3 Hgen Hfold. unfold aggregate_run_attributes.
  rewrite (bind_Return _ _ _ _ _ (the_table_eq sd t Ht)).
  rewrite Hn1, Hn2, Hn3. cbn [from_option]. rewrite !bind_ret_l.
  rewrite (bind_Return _ _ sd sd sd) by reflexivity.
  rewrite Hgen. unfold fold_gen. cbn [fst snd].
  fold (empty_maps n_lon n_lat nmax).
  rewrite (bind_Return _ _ sd sd acc)
    by (by rewrite (bind_Return _ _ _ _ _ Hfold)).
  erewrite bind_Return
    by (apply (create_dataset_clobber _ _ _ t); [done | simpl; lia]).
  erewrite create_dataset_clobber; [|simpl; reflexivity|simpl; lia].
  reflexivity.
Qed.

(** The two ways [aggregate_run_attributes] can end. *)
Lemma aggregate_cases sd :
  (exists e, aggregate_run_attributes sd = (sd, Raise e))
  \/ exists t n_lon n_lat nmax gs acc,
       sd_table sd = Some t
       /\ t_naxis1 t = Some n_lon /\ t_naxis2 t = Some n_lat
       /\ t_n_max_components t = Some nmax
       /\ iter_pix_groups sd = (gs, None)
       /\ (forall s, fold_m gs aggregate_group (empty_maps n_lon n_lat nmax) s
                     = (s, Return acc))
       /\ aggregate_run_attributes sd
          = ({| sd_table :=
                  Some (with_products t
                          (transpose2 (-1)%Z (n_lon, n_lat) (fst acc))
                          (transpose3 Float.NaN (n_lon, n_lat, nmax + 1) (snd acc)));
                sd_open := sd_open sd; sd_chunks := sd_chunks sd |}, Return tt).
Proof.
  unfold aggregate_run_attributes.
  destruct (sd_table sd) as [t|] eqn:Ht;
    [rewrite (bind_Return _ _ _ _ _ (the_table_eq sd t Ht))
    |left; exists ValueError; by rewrite (bind_Raise _ _ _ _ _ (the_table_missing sd Ht))].
  destruct (t_naxis1 t) as [n_lon|] eqn:Hn1; cbn [from_option];
    [rewrite bind_ret_l | left; exists KeyError; by rewrite bind_raise_l].
  destruct (t_naxis2 t) as [n_lat|] eqn:Hn2; cbn [from_option];
    [rewrite bind_ret_l | left; exists KeyError; by rewrite bind_raise_l].
  destruct (t_n_max_components t) as [nmax|] eqn:Hn3; cbn [from_option];
    [rewrite bind_ret_l | left; exists KeyError; by rewrite bind_raise_l].
  erewrite bind_Return by reflexivity.
  destruct (iter_pix_groups sd) as [gs oe] eqn:Hgen.
  unfold fold_gen. cbn [fst snd].
  destruct (pure_step_fold_m (S:=StoreDir) gs aggregate_group
              (empty_maps n_lon n_lat nmax) pure_step_aggregate_group)
    as (r & Hr & Hfold).
  fold (empty_maps n_lon n_lat nmax).
  destruct r as [acc|e|]; [| |done].
  2: { left. exists e. apply bind_Raise. by apply bind_Raise. }
  destruct oe as [e|].
  { left. exists e. apply bind_Raise. by rewrite (bind_Return _ _ _ _ _ (Hfold sd)). }
  right. exists t, n_lon, n_lat, nmax, gs, acc. do 6 (split; [done|]).
  rewrite (bind_Return _ _ sd sd acc)
    by (by rewrite (bind_Return _ _ _ _ _ (Hfold sd))).
  erewrite bind_Return
    by (apply (create_dataset_clobber _ _ _ t); [done | simpl; lia]).
  erewrite create_dataset_clobber; [|simpl; reflexivity|simpl; lia].
  reflexivity.
Qed.

Lemma transpose2_shape {A} (d : A) n m a : has_shape2 m n (transpose2 d (n, m) a).
Proof.
  unfold transpose2. split; simpl.
  - by rewrite length_fmap, length_seq.
  - apply Forall_fmap, Forall_forall. intros j _. simpl.
    by rewrite length_fmap, length_seq.
Qed.

Lemma transpose3_shape {A} (d : A) n m k a :
  has_shape3 k m n (transpose3 d (n, m, k) a).
Proof.
  unfold transpose3. split.
  - by rewrite length_fmap, length_seq.
  - apply Forall_fmap, Forall_forall. intros c _. simpl. split.
    + by rewrite length_fmap, length_seq.
    + apply Forall_fmap, Forall_forall. intros j _. simpl.
      by rewrite length_fmap, length_seq.
Qed.

Section same_pix.
Variables sd sd' : StoreDir.
Variables t t' : TableFile.
Hypothesis same_pix : t_pix t' = t_pix t.
Hypothesis same_chunks : sd_chunks sd' = sd_chunks sd.

Lemma getitem_same_pix lon lat : getitem sd' t' lon lat = getitem sd t lon lat.
Proof using same_pix same_chunks.
  unfold getitem, table_lookup. by rewrite same_pix, same_chunks.
Qed.

Lemma iter_lat_same_pix lon lats : iter_lat sd' t' lon lats = iter_lat sd t lon lats.
Proof using same_pix same_chunks.
  induction lats as [|[lat|] lats IH]; simpl; [done| |done].
  rewrite getitem_same_pix. by rewrite IH.
Qed.

Lemma iter_lon_same_pix pix lons : iter_lon sd' t' pix lons = iter_lon sd t pix lons.
Proof using same_pix same_chunks.
  induction lons as [|[lon|] lons IH]; simpl; [done| |done].
  destruct (pix !! lon); [|done]. by rewrite iter_lat_same_pix, IH.
Qed.
End same_pix.

Lemma iter_pix_groups_same_pix sd sd' t t' :
  sd_table sd = Some t -> sd_table sd' = Some t' ->
  t_pix t' = t_pix t -> sd_chunks sd' = sd_chunks sd -> sd_open sd' = sd_open sd ->
  iter_pix_groups sd' = iter_pix_groups sd.
Proof.
  intros Ht Ht' Hpix Hc Ho. unfold iter_pix_groups. rewrite Ht, Ht', Ho, Hpix.
  destruct (sd_open sd); [|done]. destruct (t_pix t) eqn:Hp; [|done].
  apply iter_lon_same_pix; congruence.
Qed.

Lemma with_products_twice t nb ev :
  with_products (with_products t nb ev) nb ev = with_products t nb ev.
Proof.
  unfold with_products, table_set_products. simpl. f_equal.
  apply map_eq. intros k.
  destruct (decide (k = "evidence")) as [->|He].
  { by rewrite !lookup_insert_eq. }
  rewrite !(lookup_insert_ne _ "evidence") by done.
  destruct (decide (k = "nbest")) as [->|Hn].
  { by rewrite !lookup_insert_eq. }
  rewrite !(lookup_insert_ne _ "nbest") by done.
  by rewrite !lookup_insert_ne by done.
Qed.



Lemma fold_m_app {S A B} (l1 l2 : list A) (body : B -> A -> M S B) b s :
  fold_m (l1 ++ l2) body b s
  = bind (fold_m l1 body b) (fun b' => fold_m l2 body b') s.
Proof.
  revert b s. induction l1 as [|x l1 IH]; intros b s; simpl.
  - by rewrite bind_ret_l.
  - rewrite bind_assoc. apply bind_ext. intros b' s'. apply IH.
Qed.

Lemma getitem2_setitem2_defined {A} (a a' : list (list A)) i j v i' j' :
  setitem2 a i j v = Some a' ->
  is_Some (getitem2 a' i' j') -> is_Some (getitem2 a i' j').
Proof.
  intros Hset. rewrite (getitem2_setitem2 _ _ _ _ _ _ _ Hset).
  case_decide as Heq; [|done]. destruct Heq as [<- <-]. intros _.
  unfold setitem2 in Hset. unfold getitem2.
  destruct (a !! i) as [row|]; simpl in *; [|done].
  destruct (row !! j); simpl in *; [by eexists|done].
Qed.

Lemma getitem2_full2_defined {A} n m (v : A) i j :
  is_Some (getitem2 (full2 n m v) i j) -> i < n /\ j < m.
Proof.
  unfold getitem2, full2. intros [x Hx].
  destruct (replicate n (replicate m v) !! i) as [row|] eqn:Hrow; simpl in Hx; [|done].
  apply lookup_replicate in Hrow as [-> Hi].
  apply lookup_replicate in Hx as [_ Hj]. done.
Qed.

(** What one group does to the [nbest] array. *)
Lemma aggregate_group_at acc g acc' sd sd' :
  aggregate_group acc g sd = (sd', Return acc') ->
  exists a b k,
    pg_i_lon g = Some a /\ pg_i_lat g = Some b /\ pg_nbest g = Some k
    /\ getitem2 (fst acc') a b = Some (wrap32 k)
    /\ forall i j, is_Some (getitem2 (fst acc') i j) -> is_Some (getitem2 (fst acc) i j).
Proof.
  unfold aggregate_group. destruct acc as [nb lnz]. intros H.
  destruct (pg_i_lon g) as [a|]; cbn [from_option] in H;
    [rewrite bind_ret_l in H | by rewrite bind_raise_l in H].
  destruct (pg_i_lat g) as [b|]; cbn [from_option] in H;
    [rewrite bind_ret_l in H | by rewrite bind_raise_l in H].
  destruct (pg_nbest g) as [v|]; cbn [from_option] in H;
    [rewrite bind_ret_l in H | by rewrite bind_raise_l in H].
  destruct (setitem2 nb a b (wrap32 v)) as [nb'|] eqn:Hset; cbn [from_option] in H;
    [rewrite bind_ret_l in H | by rewrite bind_raise_l in H].
  unfold bind in H.
  destruct (fold_m _ _ _ _) as [sd1 [lnz'|e|]]; [|done..].
  injection H as <- <-. exists a, b, v. do 3 (split; [done|]). simpl. split.
  - rewrite (getitem2_setitem2 _ _ _ _ _ _ _ Hset). by rewrite decide_True.
  - intros i j. by apply (getitem2_setitem2_defined _ _ _ _ _ _ _ Hset).
Qed.

Lemma fold_aggregate_defined (gs : list PixGroup) : forall acc acc' sd sd' i j,
  fold_m gs aggregate_group acc sd = (sd', Return acc') ->
  is_Some (getitem2 (fst acc') i j) -> is_Some (getitem2 (fst acc) i j).
Proof.
  induction gs as [|g gs IH]; intros acc acc' sd sd' i j; simpl.
  - by intros [= <- <-].
  - unfold bind.
    destruct (aggregate_group acc g sd) as [sd1 [acc1|e|]] eqn:Hg; [|done..].
    intros Hrest Hdef.
    apply aggregate_group_at in Hg as (_ & _ & _ & _ & _ & _ & _ & Hback).
    apply Hback. by eapply IH.
Qed.

(** X16. Aggregation puts the order of every fitted pixel where the map
    shows it: on a store without broken links, when
    [aggregate_run_attributes] returns, the [nbest] map holds at row
    [lat], column [lon] the [nbest] attribute (as a 32-bit integer) of the
    pixel group linked under [/pix/<lon>/<lat>]. *)
Theorem aggregate_fitted_cell (stack : CubeStack) (sd sd' : StoreDir)
    (t : TableFile) (lon lat : nat) (g : PixGroup) (k : Z) :
  linked_ok stack sd ->
  sd_table sd = Some t ->
  (forall a b n, table_lookup t a b = Some n -> exists o, getitem sd t a b = inr o) ->
  getitem sd t lon lat = inr (OGroup g) ->
  pg_nbest g = Some k ->
  aggregate_run_attributes sd = (sd', Return tt) ->
  exists a, Scenario.product sd' "nbest" = Some (DInt2 a)
    /\ getitem2 a lat lon = Some (wrap32 k).
Proof.
  intros Hok Ht Hres Hget Hk Hrun.
  destruct (aggregate_cases sd)
    as [(e & He)|(t0 & n_lon & n_lat & nmax & gs & acc & Ht0 & Hn1 & Hn2 & Hn3
                  & Hgen & Hfold & Hagg)]; [congruence|].
  assert (t0 = t) as -> by congruence.
  rewrite Hagg in Hrun. injection Hrun as <-.
  eexists. split.
  { unfold Scenario.product, with_products. cbn [sd_table mbind option_bind t_products
      table_set_products].
    rewrite lookup_insert_ne by done. apply lookup_insert_eq. }
  assert (sd_open sd = true) as Hopen.
  { unfold iter_pix_groups in Hgen. by destruct (sd_open sd). }
  assert (is_Some (t_pix t)) as Hpix.
  { unfold iter_pix_groups in Hgen. rewrite Hopen, Ht in Hgen.
    by destruct (t_pix t). }
  rewrite (iter_pix_groups_resolved sd t Hopen Ht Hpix Hres) in Hgen.
  injection Hgen as Hgs.
  assert (exists n, table_lookup t lon lat = Some n) as [n Hn].
  { unfold getitem in Hget. destruct (table_lookup t lon lat); [by eexists|done]. }
  assert ((lon, lat, n) ∈ members (t_pix t)) as Hin.
  { apply elem_of_members. by rewrite <- table_lookup_lookup2. }
  apply list_elem_of_split in Hin as (l1 & l2 & Hsplit).
  pose proof (members_keys_NoDup (t_pix t)) as Hnd.
  rewrite Hsplit, fmap_app, fmap_cons in Hnd.
  apply NoDup_app in Hnd as (_ & _ & Hnd). apply NoDup_cons in Hnd as [Hnotin _].
  rewrite Hsplit, omap_app in Hgs. cbn [omap list_omap] in Hgs.
  assert (resolve_group sd t lon lat = Some g) as Hrg
    by (unfold resolve_group; by rewrite Hget).
  cbn [fst snd] in Hgs. rewrite Hrg in Hgs. subst gs.
  specialize (Hfold sd). pose proof Hfold as Hall. rewrite fold_m_app in Hfold.
  apply bind_inv_Return in Hfold as (s1 & acc1 & Hf1 & Hrest).
  cbn [fold_m] in Hrest.
  apply bind_inv_Return in Hrest as (s2 & acc2 & Hg & Hf2).
  destruct (Hok t lon lat _ Ht Hget) as (_ & g' & [= <-] & Halon & Halat).
  apply aggregate_group_at in Hg as (a & b & k' & Ha & Hb & Hk' & Hcell & _).
  apply Halon in Ha as ->. apply Halat in Hb as ->.
  assert (k' = k) as -> by congruence.
  assert (getitem2 (fst acc) lon lat = Some (wrap32 k)) as Hfinal.
  { rewrite (fold_aggregate_other lon lat _ _ _ _ _ Hf2); [done|].
    intros g2 Hg2 [= Hlon2 Hlat2].
    apply list_elem_of_omap in Hg2 as ([[a b] n2] & Hin2 & Hres2).
    cbn [fst snd] in Hres2. unfold resolve_group in Hres2.
    destruct (getitem sd t a b) as [e|[g3|]] eqn:Hget2; [done| |done].
    injection Hres2 as ->.
    destruct (Hok t a b _ Ht Hget2) as (_ & g4 & [= <-] & Ha2 & Hb2).
    apply Ha2 in Hlon2. apply Hb2 in Hlat2. subst a b.
    apply Hnotin. apply list_elem_of_fmap. by exists (lon, lat, n2). }
  assert (lon < n_lon /\ lat < n_lat) as [Hlon Hlat].
  { apply (getitem2_full2_defined n_lon n_lat (-1)%Z).
    apply (fold_aggregate_defined _ _ _ _ _ _ _ Hall). by rewrite Hfinal. }
  rewrite getitem2_transpose2 by done. by rewrite Hfinal.
Qed.

Lemma aggregate_fitted_cell_witness :
  let sd := fst (HdfStore_init "run/test_cube" 1
                   (fst (MainCube.fit_cube Scenario.runner Scenario.fitter
                           "run/test_cube" 2 empty_dir))) in
  let sd' := fst (aggregate_run_attributes sd) in
  exists a, Scenario.product sd' "nbest" = Some (DInt2 a)
    /\ getitem2 a 0 0 = Some (wrap32 2).
Proof.
  intros sd sd'.
  set (t := default empty_table (sd_table sd)).
  set (g := match getitem sd t 0 0 with inr (OGroup g) => g | _ => empty_group end).
  apply (aggregate_fitted_cell (stack Scenario.fitter) sd sd' t 0 0 g 2).
  - apply store_ok_linked, keeps_store_HdfStore_init, keeps_store_fit_cube,
      store_ok_empty.
  - vm_compute. reflexivity.
  - intros a b n Hn. rewrite table_lookup_lookup2 in Hn.
    apply elem_of_members in Hn. vm_compute in Hn.
    repeat (apply elem_of_cons in Hn as [[= -> -> ->]|Hn];
            [eexists; vm_compute; reflexivity|]).
    by apply elem_of_nil in Hn.
  - vm_compute. reflexivity.
  - vm_compute. reflexivity.
  - vm_compute. reflexivity.
Defined.

(** ** [convolve_evidence] as a whole *)

Lemma read_float3_cases dset_name sd :
  match read_float3 dset_name sd with
  | (sd1, Return a) =>
      sd1 = sd /\ Scenario.product sd dset_name = Some (DFloat3 a)
  | (sd1, Raise _) => sd1 = sd
  | (_, Timeout) => False
  end.
Proof.
  unfold read_float3, the_table, bind, get, Scenario.product.
  destruct (sd_table sd) as [t|]; simpl; [|done].
  destruct (t_products t !! dset_name) as [[a|a]|]; done.
Qed.

Lemma read_int2_cases dset_name sd :
  match read_int2 dset_name sd with
  | (sd1, Return a) =>
      sd1 = sd /\ Scenario.product sd dset_name = Some (DInt2 a)
  | (sd1, Raise _) => sd1 = sd
  | (_, Timeout) => False
  end.
Proof.
  unfold read_int2, the_table, bind, get, Scenario.product.
  destruct (sd_table sd) as [t|]; simpl; [|done].
  destruct (t_products t !! dset_name) as [[a|a]|]; done.
Qed.

Section main_convolve.
Variable convolve_fft : list (list Float.t) -> list (list Float.t).

(** The two ways [convolve_evidence] of main.py can end. *)
Lemma main_convolve_cases sd sd' r :
  MainConv.convolve_evidence convolve_fft sd = (sd', r) ->
  match r with
  | Return _ =>
      exists t nmax thr data nbest conv,
        sd_table sd = Some t
        /\ t_n_max_components t = Some nmax
        /\ t_lnZ_threshold t = Some thr
        /\ Scenario.product sd "evidence" = Some (DFloat3 data)
        /\ Scenario.product sd "nbest" = Some (DInt2 nbest)
        /\ MainConv.reselect nmax thr (convolve_fft <$> data) nbest = Some conv
        /\ sd' = {| sd_table :=
                      Some (table_set_products t
                              (<["conv_evidence" := DFloat3 (convolve_fft <$> data)]>
                                 (<["conv_nbest" := DInt2 conv]> (t_products t))));
                    sd_open := sd_open sd; sd_chunks := sd_chunks sd |}
  | Raise _ => sd' = sd
  | Timeout => False
  end.
Proof.
  unfold MainConv.convolve_evidence.
  destruct (sd_table sd) as [t|] eqn:Ht;
    [rewrite (bind_Return _ _ _ _ _ (the_table_eq sd t Ht))
    |rewrite (bind_Raise _ _ _ _ _ (the_table_missing sd Ht)); by intros [= <- <-]].
  destruct (t_n_max_components t) as [nmax|] eqn:Hn; cbn [from_option];
    [rewrite bind_ret_l | rewrite bind_raise_l; by intros [= <- <-]].
  destruct (t_lnZ_threshold t) as [thr|] eqn:Hthr; cbn [from_option];
    [rewrite bind_ret_l | rewrite bind_raise_l; by intros [= <- <-]].
  pose proof (read_float3_cases "evidence" sd) as Hev.
  destruct (read_float3 "evidence" sd) as [s1 [data|e|]] eqn:Hrd; [| |done].
  2: { rewrite (bind_Raise _ _ _ _ _ Hrd). subst s1. by intros [= <- <-]. }
  destruct Hev as [-> Hev]. rewrite (bind_Return _ _ _ _ _ Hrd).
  pose proof (read_int2_cases "nbest" sd) as Hnb.
  destruct (read_int2 "nbest" sd) as [s1 [nbest|e|]] eqn:Hrn; [| |done].
  2: { rewrite (bind_Raise _ _ _ _ _ Hrn). subst s1. by intros [= <- <-]. }
  destruct Hnb as [-> Hnb]. rewrite (bind_Return _ _ _ _ _ Hrn).
  destruct (MainConv.reselect nmax thr (convolve_fft <$> data) nbest)
    as [conv|] eqn:Hres; cbn [from_option];
    [rewrite bind_ret_l | rewrite bind_raise_l; by intros [= <- <-]].
  erewrite bind_Return
    by (apply (create_dataset_clobber _ _ _ t); [done | simpl; lia]).
  erewrite create_dataset_clobber; [|simpl; reflexivity|simpl; lia].
  intros [= <- <-]. by exists t, nmax, thr, data, nbest, conv.
Qed.
End main_convolve.

Lemma product_insert_eq t sd (p : gmap string Dataset) k d :
  Scenario.product {| sd_table := Some (table_set_products t (<[k := d]> p));
                      sd_open := sd_open sd; sd_chunks := sd_chunks sd |} k
  = Some d.
Proof. unfold Scenario.product. simpl. apply lookup_insert_eq. Qed.

Lemma product_insert_ne t sd (p : gmap string Dataset) k k' d :
  k <> k' ->
  Scenario.product {| sd_table := Some (table_set_products t (<[k := d]> p));
                      sd_open := sd_open sd; sd_chunks := sd_chunks sd |} k'
  = p !! k'.
Proof. intros. unfold Scenario.product. simpl. by apply lookup_insert_ne. Qed.

(** X17. [convolve_evidence] of main.py clamps and refills.  When it
    returns on an open store it has written [conv_nbest] and left the
    raw [nbest] and [evidence] maps and the chunk files as they were, and
    at every cell (with a raw order that is a valid one, [-1] or more) the
    smoothed order is at most the raw order plus one unless the raw order
    is [-1], and is [-1] exactly where the raw order is [-1].  When it
    raises, the store is as it was. *)
Theorem main_convolve_evidence_clamped
    (convolve_fft : list (list Float.t) -> list (list Float.t))
    (sd sd' : StoreDir) (r : res unit) :
  sd_open sd = true ->
  MainConv.convolve_evidence convolve_fft sd = (sd', r) ->
  match r with
  | Return _ =>
      exists nmax nbest conv,
        sd_table sd ≫= t_n_max_components = Some nmax
        /\ Scenario.product sd "nbest" = Some (DInt2 nbest)
        /\ Scenario.product sd' "nbest" = Some (DInt2 nbest)
        /\ Scenario.product sd' "evidence" = Scenario.product sd "evidence"
        /\ Scenario.product sd' "conv_nbest" = Some (DInt2 conv)
        /\ sd_chunks sd' = sd_chunks sd
        /\ ((Z.of_nat nmax < 2147483647)%Z ->
            forall b l n c,
              (-1 <= n < 2147483648)%Z ->
              getitem2 nbest b l = Some n -> getitem2 conv b l = Some c ->
              (n <> -1 -> c <= n + 1)%Z /\ (c = -1 <-> n = -1)%Z)
  | Raise _ => sd' = sd
  | Timeout => False
  end.
Proof.
  intros _ Hrun. apply main_convolve_cases in Hrun.
  destruct r as [[]|e|]; [|done..].
  destruct Hrun as (t & nmax & thr & data & nbest & conv & Ht & Hn & Hthr & Hev
                    & Hnb & Hres & ->).
  exists nmax, nbest, conv. split; [by rewrite Ht|]. split; [done|].
  unfold Scenario.product in Hev, Hnb. rewrite Ht in Hev, Hnb. simpl in Hev, Hnb.
  split; [|split; [|split; [|split; [done|]]]].
  - rewrite product_insert_ne by done. by rewrite lookup_insert_ne.
  - rewrite product_insert_ne by done. rewrite lookup_insert_ne by done.
    unfold Scenario.product. by rewrite Ht.
  - rewrite product_insert_ne by done. apply lookup_insert_eq.
  - intros Hmax b l n c Hrange Hraw Hconv.
    by eapply main_reselect_clamped.
Qed.

Lemma main_convolve_evidence_clamped_witness :
  let sd' := fst (MainConv.convolve_evidence Smoothing.convolve_fft Smoothing.store) in
  exists nmax nbest conv,
    sd_table Smoothing.store ≫= t_n_max_components = Some nmax
    /\ Scenario.product Smoothing.store "nbest" = Some (DInt2 nbest)
    /\ Scenario.product sd' "nbest" = Some (DInt2 nbest)
    /\ Scenario.product sd' "evidence" = Scenario.product Smoothing.store "evidence"
    /\ Scenario.product sd' "conv_nbest" = Some (DInt2 conv)
    /\ sd_chunks sd' = sd_chunks Smoothing.store
    /\ ((Z.of_nat nmax < 2147483647)%Z ->
        forall b l n c,
          (-1 <= n < 2147483648)%Z ->
          getitem2 nbest b l = Some n -> getitem2 conv b l = Some c ->
          (n <> -1 -> c <= n + 1)%Z /\ (c = -1 <-> n = -1)%Z).
Proof.
  intros sd'.
  apply (main_convolve_evidence_clamped Smoothing.convolve_fft Smoothing.store sd'
           (Return tt)).
  - vm_compute. reflexivity.
  - vm_compute. reflexivity.
Defined.



Section core_reselect.
Variable lnZ_thresh : Float.t.
Variable cdata : list (list (list Float.t)).
Variables b l : nat.

Lemma core_step_cell nbest nbest' i c' :
  CoreConv.step lnZ_thresh cdata nbest i = Some nbest' ->
  getitem2 nbest' b l = Some c' ->
  exists c, getitem2 nbest b l = Some c
    /\ ((passed lnZ_thresh cdata b l i /\ c' = Z.of_nat (i + 1))
        \/ (~ passed lnZ_thresh cdata b l i /\ c' = c)).
Proof.
  unfold CoreConv.step. intros Hstep Hc'.
  destruct (cdata !! (i + 1)) as [hi|] eqn:Hhi; simpl in Hstep; [|done].
  destruct (cdata !! i) as [lo|] eqn:Hlo; simpl in Hstep; [|done].
  injection Hstep as <-.
  rewrite getitem2_zip2d, getitem2_zip2d in Hc'.
  destruct (getitem2 hi b l) as [x|] eqn:Hx; simpl in Hc'; [|done].
  destruct (getitem2 lo b l) as [y|] eqn:Hy; simpl in Hc'; [|done].
  destruct (getitem2 nbest b l) as [c|] eqn:Hc; simpl in Hc'; [|done].
  injection Hc' as <-. exists c. split; [done|].
  destruct (Float.ltb lnZ_thresh (Float.sub x y)) eqn:Hlt.
  - left. split; [|done]. exists x, y.
    by rewrite (getitem3_layer _ _ _ _ _ Hhi), (getitem3_layer _ _ _ _ _ Hlo).
  - right. split; [|done]. intros (x' & y' & Hx' & Hy' & Hp).
    rewrite (getitem3_layer _ _ _ _ _ Hhi) in Hx'.
    rewrite (getitem3_layer _ _ _ _ _ Hlo) in Hy'.
    unfold Float.gtb in Hp. congruence.
Qed.

(** Walking the orders [s, ..., s+k-1] the way core.py does: the last
    increment that passes decides, whatever came before it. *)
Lemma core_steps_cell k : forall s nbest nbest' c',
  CoreConv.steps lnZ_thresh cdata nbest (seq s k) = Some nbest' ->
  getitem2 nbest' b l = Some c' ->
  exists c, getitem2 nbest b l = Some c
    /\ ((c' = c /\ forall j, s <= j < s + k -> ~ passed lnZ_thresh cdata b l j)
        \/ exists i, s <= i < s + k
             /\ passed lnZ_thresh cdata b l i /\ c' = Z.of_nat (i + 1)
             /\ forall j, i < j < s + k -> ~ passed lnZ_thresh cdata b l j).
Proof.
  induction k as [|k IH]; intros s nbest nbest' c' Hsteps Hc'.
  - simpl in Hsteps. injection Hsteps as <-. exists c'. split; [done|].
    left. split; [done|]. intros; lia.
  - simpl in Hsteps.
    destruct (CoreConv.step lnZ_thresh cdata nbest s) as [nbest1|] eqn:Hstep;
      simpl in Hsteps; [|done].
    destruct (IH (S s) nbest1 nbest' c' Hsteps Hc') as (c1 & Hc1 & Hcase).
    destruct (core_step_cell _ _ _ _ Hstep Hc1) as (c & Hc & Hstep').
    exists c. split; [done|].
    destruct Hcase as [[-> Hnone]|(i & Hi & Hp & -> & Hlater)].
    + destruct Hstep' as [[Hp ->]|[Hnp ->]].
      * right. exists s. split; [lia|]. split; [done|]. split; [done|].
        intros j Hj. apply Hnone. lia.
      * left. split; [done|]. intros j Hj.
        destruct (decide (j = s)) as [->|]; [done|]. apply Hnone. lia.
    + right. exists i. split; [lia|]. split; [done|]. split; [done|].
      intros j Hj. apply Hlater. lia.
Qed.
End core_reselect.

Section core_convolve.
Variable convolve_fft : list (list Float.t) -> list (list Float.t).

Lemma core_convolve_cases sd sd' r :
  CoreConv.convolve_evidence convolve_fft sd = (sd', r) ->
  match r with
  | Return _ =>
      exists t nmax thr data conv,
        sd_table sd = Some t
        /\ t_n_max_components t = Some nmax
        /\ t_lnZ_threshold t = Some thr
        /\ Scenario.product sd "evidence" = Some (DFloat3 data)
        /\ CoreConv.reselect nmax thr (convolve_fft <$> data) = Some conv
        /\ sd' = {| sd_table :=
                      Some (table_set_products t
                              (<["conv_nbest" := DInt2 conv]>
                                 (<["conv_evidence" := DFloat3 (convolve_fft <$> data)]>
                                    (t_products t))));
                    sd_open := sd_open sd; sd_chunks := sd_chunks sd |}
  | Raise _ => sd' = sd
  | Timeout => False
  end.
Proof.
  unfold CoreConv.convolve_evidence.
  destruct (sd_table sd) as [t|] eqn:Ht;
    [rewrite (bind_Return _ _ _ _ _ (the_table_eq sd t Ht))
    |rewrite (bind_Raise _ _ _ _ _ (the_table_missing sd Ht)); by intros [= <- <-]].
  destruct (t_n_max_components t) as [nmax|] eqn:Hn; cbn [from_option];
    [rewrite bind_ret_l | rewrite bind_raise_l; by intros [= <- <-]].
  destruct (t_lnZ_threshold t) as [thr|] eqn:Hthr; cbn [from_option];
    [rewrite bind_ret_l | rewrite bind_raise_l; by intros [= <- <-]].
  pose proof (read_float3_cases "evidence" sd) as Hev.
  destruct (read_float3 "evidence" sd) as [s1 [data|e|]] eqn:Hrd; [| |done].
  2: { rewrite (bind_Raise _ _ _ _ _ Hrd). subst s1. by intros [= <- <-]. }
  destruct Hev as [-> Hev]. rewrite (bind_Return _ _ _ _ _ Hrd).
  destruct (CoreConv.reselect nmax thr (convolve_fft <$> data))
    as [conv|] eqn:Hres; cbn [from_option];
    [rewrite bind_ret_l | rewrite bind_raise_l; by intros [= <- <-]].
  erewrite bind_Return
    by (apply (create_dataset_clobber _ _ _ t); [done | simpl; lia]).
  erewrite create_dataset_clobber; [|simpl; reflexivity|simpl; lia].
  intros [= <- <-]. by exists t, nmax, thr, data, conv.
Qed.
End core_convolve.



(** ** Datasets, spectra and index edge cases *)

(** X20. [create_dataset] and reading back.  With a non-empty name, on an
    open store with a table file, and with [clobber] or a name that is not
    taken, the dataset is written and reading it back gives the data; the
    other products, the links, the attributes and the chunk files are as
    before.  An empty name raises [AssertionError] and a taken name
    without [clobber] raises [ValueError], both leaving the store as it
    was. *)
Theorem create_dataset_read_back (dset_name : string) (a : list (list Z))
    (clobber : bool) (sd : StoreDir) (t : TableFile) :
  sd_open sd = true ->
  sd_table sd = Some t ->
  (String.length dset_name = 0 ->
     create_dataset dset_name (DInt2 a) clobber sd = (sd, Raise AssertionError))
  /\ (0 < String.length dset_name ->
      is_Some (t_products t !! dset_name) -> clobber = false ->
        create_dataset dset_name (DInt2 a) clobber sd = (sd, Raise ValueError))
  /\ (0 < String.length dset_name ->
      clobber = true \/ t_products t !! dset_name = None ->
        exists sd',
          create_dataset dset_name (DInt2 a) clobber sd = (sd', Return tt)
          /\ read_int2 dset_name sd' = (sd', Return a)
          /\ (forall other, other <> dset_name ->
                Scenario.product sd' other = Scenario.product sd other)
          /\ sd_table sd'
             = Some (table_set_products t (<[dset_name := DInt2 a]> (t_products t)))
          /\ sd_open sd' = sd_open sd /\ sd_chunks sd' = sd_chunks sd).
Proof.
  intros _ Ht. split; [|split].
  - intros Hlen. unfold create_dataset.
    replace (0 <? String.length dset_name) with false
      by (symmetry; apply Nat.ltb_ge; lia).
    cbn [assert]. by rewrite bind_raise_l.
  - intros Hlen [d Hd] ->. unfold create_dataset.
    replace (0 <? String.length dset_name) with true
      by (symmetry; apply Nat.ltb_lt; lia).
    cbn [assert]. rewrite bind_ret_l.
    rewrite (bind_Return _ _ _ _ _ (the_table_eq sd t Ht)). by rewrite Hd.
  - intros Hlen Hfree.
    assert (create_dataset dset_name (DInt2 a) clobber sd
            = ({| sd_table := Some (table_set_products t
                                      (<[dset_name := DInt2 a]> (t_products t)));
                  sd_open := sd_open sd; sd_chunks := sd_chunks sd |}, Return tt))
      as Hrun.
    { unfold create_dataset.
      replace (0 <? String.length dset_name) with true
        by (symmetry; apply Nat.ltb_lt; lia).
      cbn [assert]. rewrite bind_ret_l.
      rewrite (bind_Return _ _ _ _ _ (the_table_eq sd t Ht)).
      destruct (t_products t !! dset_name) as [d|] eqn:Hd; [|done].
      destruct Hfree as [->|?]; done. }
    eexists. split; [exact Hrun|]. split; [|split; [|split; [|done]]].
    + unfold read_int2.
      erewrite bind_Return by (by apply the_table_eq).
      simpl. by rewrite lookup_insert_eq.
    + intros other Hne. unfold Scenario.product. simpl. rewrite Ht. simpl.
      by apply lookup_insert_ne.
    + reflexivity.
Qed.

Lemma create_dataset_read_back_witness :
  let sd := fst (Scenario.run 1 empty_dir) in
  let t := default empty_table (sd_table sd) in
  (String.length "nbest" = 0 ->
     create_dataset "nbest" (DInt2 [[7%Z]]) true sd = (sd, Raise AssertionError))
  /\ (0 < String.length "nbest" ->
      is_Some (t_products t !! "nbest") -> true = false ->
        create_dataset "nbest" (DInt2 [[7%Z]]) true sd = (sd, Raise ValueError))
  /\ (0 < String.length "nbest" ->
      true = true \/ t_products t !! "nbest" = None ->
        exists sd',
          create_dataset "nbest" (DInt2 [[7%Z]]) true sd = (sd', Return tt)
          /\ read_int2 "nbest" sd' = (sd', Return [[7%Z]])
          /\ (forall other, other <> "nbest" ->
                Scenario.product sd' other = Scenario.product sd other)
          /\ sd_table sd'
             = Some (table_set_products t (<["nbest" := DInt2 [[7%Z]]]> (t_products t)))
          /\ sd_open sd' = sd_open sd /\ sd_chunks sd' = sd_chunks sd).
Proof.
  intros sd t.
  apply (create_dataset_read_back "nbest" [[7%Z]] true sd t).
  - vm_compute. reflexivity.
  - vm_compute. reflexivity.
Defined.

Lemma get_spectra_foldl stack lon lat :
  forall acc,
    foldl (fun acc dcube =>
             let '(spec, has_nans) := cube_get_spectra dcube lon lat in
             (fst acc ++ [spec], snd acc || has_nans)) acc (cubes stack)
    = (fst acc ++ ((fun c => (dc_data c lon lat, dc_noise c lon lat)) <$> cubes stack),
       snd acc || existsb (fun c => existsb Float.isnan (dc_data c lon lat))
                    (cubes stack)).
Proof.
  induction (cubes stack) as [|c l IH]; intros [specs h]; simpl.
  - by rewrite app_nil_r, orb_false_r.
  - rewrite IH. simpl. by rewrite <- app_assoc, orb_assoc.
Qed.

(** X21. [get_spectra] returns, in the order of the cubes, the samples
    and the noise of each cube at the pixel, and its flag is set exactly
    when the samples of some cube contain a NaN.  Infinite samples do not
    set it. *)
Theorem get_spectra_spec (stack : CubeStack) (lon lat : nat) :
  fst (get_spectra stack lon lat)
  = (fun c => (dc_data c lon lat, dc_noise c lon lat)) <$> cubes stack
  /\ (snd (get_spectra stack lon lat) = true
      <-> exists c, c ∈ cubes stack /\ Float.NaN ∈ dc_data c lon lat)
  /\ ((forall c x, c ∈ cubes stack -> x ∈ dc_data c lon lat ->
         x = Float.PosInf \/ x = Float.NegInf \/ Float.isfinite x = true) ->
      snd (get_spectra stack lon lat) = false).
Proof.
  unfold get_spectra. rewrite get_spectra_foldl. simpl.
  assert (existsb (fun c => existsb Float.isnan (dc_data c lon lat)) (cubes stack) = true
          <-> exists c, c ∈ cubes stack /\ Float.NaN ∈ dc_data c lon lat) as Hiff.
  { rewrite existsb_exists. split.
    - intros (c & Hc & Hnan). apply existsb_exists in Hnan as (x & Hx & Hn).
      exists c. split; [by apply list_elem_of_In|].
      destruct x; try done. by apply list_elem_of_In.
    - intros (c & Hc & Hnan). exists c. split; [by apply list_elem_of_In|].
      apply existsb_exists. exists Float.NaN. split; [by apply list_elem_of_In|done]. }
  split; [done|]. split; [done|].
  intros Hall. apply not_true_is_false. intros (c & Hc & Hnan)%Hiff.
  by destruct (Hall c Float.NaN Hc Hnan) as [?|[?|?]].
Qed.

Lemma every_one {A} (l : list A) : Numpy.every 1 0 l = l.
Proof. induction l as [|x l IH]; [done|]. simpl. by rewrite IH. Qed.

Lemma every_short {A} step (l : list A) : forall wait,
  length l <= wait -> Numpy.every step wait l = [].
Proof.
  induction l as [|x l IH]; intros wait Hlen; [done|].
  destruct wait as [|w]; simpl in *; [lia|]. apply IH. lia.
Qed.

(** X22. The edges of [get_multiproc_indices].  For no worker it returns
    no index set; for one worker the single set lists the whole grid in
    row-major order, longitude outermost; and with more workers than
    longitude rows the index arrays of every worker from number [n_lon]
    on are empty. *)
Theorem get_multiproc_indices_edges (n_lon n_lat : nat) :
  get_multiproc_indices (n_lon, n_lat) 0 = []
  /\ chunk_pixels <$> get_multiproc_indices (n_lon, n_lat) 1
     = [grid_cells (n_lon, n_lat)]
  /\ forall nproc i ix,
       get_multiproc_indices (n_lon, n_lat) nproc !! i = Some ix ->
       n_lon <= i -> ix = ([], []).
Proof.
  split; [done|]. split.
  - rewrite get_multiproc_indices_workers. cbn [seq fmap list_fmap].
    rewrite chunk_pixels_worker by lia.
    unfold strided_cells, grid_cells, Numpy.slice_step. by rewrite every_one.
  - intros nproc i ix Hix Hi.
    assert (i < nproc) as Hlt.
    { apply lookup_lt_Some in Hix.
      by rewrite get_multiproc_indices_workers, length_fmap, length_seq in Hix. }
    rewrite get_multiproc_indices_lookup in Hix by done. injection Hix as <-.
    unfold Numpy.slice_step. simpl.
    rewrite !every_short; [done|..]; by rewrite length_map, length_seq.
Qed.



(** ** The simple header *)

Lemma pick_keys_inr hdr keys : forall acc h,
  pick_keys hdr keys acc = inr h ->
  (forall k, k ∈ keys -> is_Some (hdr !! k) /\ h !! k = hdr !! k)
  /\ (forall k, k ∉ keys -> h !! k = acc !! k).
Proof.
  induction keys as [|k keys IH]; intros acc h; simpl.
  - intros [= <-]. split; [by intros k ?%elem_of_nil|done].
  - destruct (hdr !! k) as [v|] eqn:Hk; [|done]. intros Hrest.
    destruct (IH _ _ Hrest) as [Hin Hout]. split.
    + intros k' [->|Hk']%elem_of_cons; [|by apply Hin].
      split; [by rewrite Hk|].
      destruct (decide (k ∈ keys)) as [Hmem|Hmem]; [by apply Hin|].
      rewrite Hout by done. by rewrite lookup_insert_eq, Hk.
    + intros k' Hk'. apply not_elem_of_cons in Hk' as [Hne Hk'].
      rewrite Hout by done. by rewrite lookup_insert_ne.
Qed.

Lemma pick_keys_inl hdr keys : forall acc e,
  pick_keys hdr keys acc = inl e ->
  exists k, e = HKeyError k /\ k ∈ keys /\ hdr !! k = None.
Proof.
  induction keys as [|k keys IH]; intros acc e; simpl; [done|].
  destruct (hdr !! k) as [v|] eqn:Hk.
  - intros Hrest. destruct (IH _ _ Hrest) as (k' & -> & Hin & Hnone).
    exists k'. split; [done|]. split; [by right|done].
  - intros [= <-]. exists k. split; [done|]. split; [by left|done].
Qed.

Lemma pick_keys_total hdr keys : forall acc,
  (forall k, k ∈ keys -> is_Some (hdr !! k)) ->
  exists h, pick_keys hdr keys acc = inr h.
Proof.
  induction keys as [|k keys IH]; intros acc Hall; simpl; [by eexists|].
  destruct (Hall k) as [v ->]; [by left|].
  apply IH. intros k' Hk'. apply Hall. by right.
Qed.

Lemma simple_keys_ctype :
  "CTYPE1" ∈ simple_keys /\ "CTYPE2" ∈ simple_keys
  /\ "NAXIS" ∈ simple_keys /\ "WCSAXES" ∈ simple_keys.
Proof. unfold simple_keys. repeat split; set_solver. Qed.

(** The dictionary of [simple_header] before the assertions. *)
Lemma simple_dict_lookup hdr picked k :
  pick_keys hdr simple_keys ∅ = inr picked ->
  (<["WCSAXES" := HInt 2]> (<["NAXIS" := HInt 2]> picked)) !! k
  = if decide (k = "WCSAXES" \/ k = "NAXIS") then Some (HInt 2)
    else if decide (k ∈ simple_keys) then hdr !! k else None.
Proof.
  intros Hp. destruct (pick_keys_inr _ _ _ _ Hp) as [Hin Hout].
  destruct (decide (k = "WCSAXES")) as [->|Hw].
  { rewrite lookup_insert_eq. by rewrite decide_True by (by left). }
  rewrite lookup_insert_ne by done.
  destruct (decide (k = "NAXIS")) as [->|Hn].
  { rewrite lookup_insert_eq. by rewrite decide_True by (by right). }
  rewrite lookup_insert_ne by done.
  rewrite decide_False by (by intros [?|?]).
  destruct (decide (k ∈ simple_keys)) as [Hk|Hk].
  - by apply Hin.
  - by rewrite Hout.
Qed.

Lemma ctype_in_coord_sys_cases hdict key :
  match ctype_in_coord_sys hdict key with
  | inr ok =>
      exists s, hdict !! key = Some (HStr s)
        /\ (ok = true <-> lower (before_dash s) ∈ coord_sys)
  | inl (HKeyError k) => k = key /\ hdict !! key = None
  | inl HAttributeError =>
      exists v, hdict !! key = Some v /\ forall s, v <> HStr s
  | inl HAssertionError => False
  end.
Proof.
  unfold ctype_in_coord_sys.
  destruct (hdict !! key) as [[b|z|x|s]|].
  - eexists. split; [done|]. by intros s.
  - eexists. split; [done|]. by intros s.
  - eexists. split; [done|]. by intros s.
  - exists s. split; [done|]. apply bool_decide_eq_true.
  - done.
Qed.

(** X24. What [simple_header] returns.  The dictionary has exactly the
    eighteen keywords of the list; [NAXIS] and [WCSAXES] are 2 whatever
    the cube's header says, every other keyword has the value the cube's
    header gives it, and the two [CTYPE] values are strings whose part
    before the first dash is, in lower case, one of [ra], [dec], [lon],
    [lat].  A header that [simple_header] returned is returned unchanged
    when it is simplified again. *)
Theorem simple_header_returns (header h : Header) :
  simple_header header = inr h ->
  (forall k, is_Some (h !! k) <-> k ∈ simple_keys)
  /\ h !! "NAXIS" = Some (HInt 2) /\ h !! "WCSAXES" = Some (HInt 2)
  /\ (forall k, k ∈ simple_keys -> k <> "NAXIS" -> k <> "WCSAXES" ->
        h !! k = header !! k)
  /\ (forall key, key = "CTYPE1" \/ key = "CTYPE2" ->
        exists s, header !! key = Some (HStr s)
          /\ lower (before_dash s) ∈ coord_sys)
  /\ simple_header h = inr h.
Proof.
  unfold simple_header.
  destruct (pick_keys header simple_keys ∅) as [e|picked] eqn:Hp; [done|].
  pose proof (simple_dict_lookup header picked) as Hlook.
  destruct (pick_keys_inr _ _ _ _ Hp) as [Hin _].
  destruct simple_keys_ctype as (Hc1 & Hc2 & Hna & Hwa).
  set (hdict := <["WCSAXES" := HInt 2]> (<["NAXIS" := HInt 2]> picked)) in *.
  pose proof (ctype_in_coord_sys_cases hdict "CTYPE1") as H1.
  destruct (ctype_in_coord_sys hdict "CTYPE1") as [e|[]] eqn:Hct1; [done| |done].
  pose proof (ctype_in_coord_sys_cases hdict "CTYPE2") as H2.
  destruct (ctype_in_coord_sys hdict "CTYPE2") as [e|[]] eqn:Hct2; [done| |done].
  intros [= <-].
  destruct H1 as (s1 & Hs1 & Hok1). destruct H2 as (s2 & Hs2 & Hok2).
  rewrite (Hlook _ Hp) in Hs1. rewrite (Hlook _ Hp) in Hs2.
  rewrite decide_False, decide_True in Hs1 by (done || by intros [?|?]).
  rewrite decide_False, decide_True in Hs2 by (done || by intros [?|?]).
  assert (forall k, is_Some (hdict !! k) <-> k ∈ simple_keys) as Hdom.
  { intros k. rewrite (Hlook _ Hp). repeat case_decide.
    - split; [|by eexists]. intros _. destruct_or!; by subst.
    - split; [done|]. intros _. by apply Hin.
    - split; [by intros [? ?]|done]. }
  split; [done|]. split; [by rewrite (Hlook _ Hp)|].
  split; [by rewrite (Hlook _ Hp)|]. split; [|split].
  - intros k Hk Hn Hw. rewrite (Hlook _ Hp).
    rewrite decide_False by (by intros [?|?]). by rewrite decide_True.
  - intros key [-> | ->]; [exists s1|exists s2]; (split; [done|]);
      [by apply Hok1|by apply Hok2].
  - destruct (pick_keys_total hdict simple_keys ∅) as [picked' Hp'].
    { intros k Hk. by apply Hdom. }
    rewrite Hp'.
    assert (<["WCSAXES" := HInt 2]> (<["NAXIS" := HInt 2]> picked') = hdict) as ->.
    { apply map_eq. intros k. rewrite (simple_dict_lookup hdict picked' k Hp').
      rewrite (Hlook k Hp).
      repeat case_decide; try done.
      all: rewrite (Hlook k Hp); repeat case_decide; done || (destruct_or!; by subst). }
    by rewrite Hct1, Hct2.
Qed.

Lemma simple_header_returns_witness :
  let h := <["WCSAXES" := HInt 2]> (<["NAXIS" := HInt 2]>
             (delete "BUNIT" (delete "CTYPE3" (delete "NAXIS3" equatorial_header)))) in
  (forall k, is_Some (h !! k) <-> k ∈ simple_keys)
  /\ h !! "NAXIS" = Some (HInt 2) /\ h !! "WCSAXES" = Some (HInt 2)
  /\ (forall k, k ∈ simple_keys -> k <> "NAXIS" -> k <> "WCSAXES" ->
        h !! k = equatorial_header !! k)
  /\ (forall key, key = "CTYPE1" \/ key = "CTYPE2" ->
        exists s, equatorial_header !! key = Some (HStr s)
          /\ lower (before_dash s) ∈ coord_sys)
  /\ simple_header h = inr h.
Proof.
  intros h.
  apply (simple_header_returns equatorial_header h).
  vm_compute. reflexivity.
Defined.

(** X25. How [simple_header] fails.  A header that lacks one of the
    eighteen keywords raises [KeyError] - also when the keyword is
    [NAXIS] or [WCSAXES], whose value would be overwritten.  Otherwise it
    raises only for a [CTYPE1] or [CTYPE2] that is no string
    ([AttributeError]) or whose part before the first dash is not [ra],
    [dec], [lon] or [lat] in lower case ([AssertionError]): a header with
    the galactic axes [GLON-CAR] and [GLAT-CAR] is refused. *)
Theorem simple_header_raises (header : Header) :
  (forall k, k ∈ simple_keys -> header !! k = None ->
     exists k', simple_header header = inl (HKeyError k')
       /\ k' ∈ simple_keys /\ header !! k' = None)
  /\ (forall e, simple_header header = inl e ->
        match e with
        | HKeyError k => k ∈ simple_keys /\ header !! k = None
        | HAttributeError =>
            exists key v, (key = "CTYPE1" \/ key = "CTYPE2")
              /\ header !! key = Some v /\ forall s, v <> HStr s
        | HAssertionError =>
            exists key s, (key = "CTYPE1" \/ key = "CTYPE2")
              /\ header !! key = Some (HStr s)
              /\ lower (before_dash s) ∉ coord_sys
        end)
  /\ simple_header galactic_header = inl HAssertionError.
Proof.
  split; [|split; [|by vm_compute]].
  - intros k Hk Hnone. unfold simple_header.
    destruct (pick_keys header simple_keys ∅) as [e|picked] eqn:Hp.
    + destruct (pick_keys_inl _ _ _ _ Hp) as (k' & -> & Hin & Hn). by exists k'.
    + destruct (pick_keys_inr _ _ _ _ Hp) as [Hin _].
      destruct (Hin k Hk) as [[v Hv] _]. congruence.
  - intros e. unfold simple_header.
    destruct (pick_keys header simple_keys ∅) as [e'|picked] eqn:Hp.
    { intros [= <-]. by destruct (pick_keys_inl _ _ _ _ Hp) as (k' & -> & Hin & Hn). }
    pose proof (simple_dict_lookup header picked) as Hlook.
    destruct simple_keys_ctype as (Hc1 & Hc2 & _ & _).
    set (hdict := <["WCSAXES" := HInt 2]> (<["NAXIS" := HInt 2]> picked)) in *.
    assert (forall key, key = "CTYPE1" \/ key = "CTYPE2" ->
              hdict !! key = header !! key) as Hct.
    { intros key Hkey. rewrite (Hlook _ Hp).
      rewrite decide_False by (destruct Hkey as [-> | ->]; by intros [?|?]).
      rewrite decide_True; [done|]. by destruct Hkey as [-> | ->]. }
    assert (forall key, key = "CTYPE1" \/ key = "CTYPE2" ->
              match ctype_in_coord_sys hdict key with
              | inl e0 =>
                  match e0 with
                  | HKeyError k => k ∈ simple_keys /\ header !! k = None
                  | HAttributeError =>
                      exists key v, (key = "CTYPE1" \/ key = "CTYPE2")
                        /\ header !! key = Some v /\ forall s, v <> HStr s
                  | HAssertionError => False
                  end
              | inr false =>
                  exists key s, (key = "CTYPE1" \/ key = "CTYPE2")
                    /\ header !! key = Some (HStr s)
                    /\ lower (before_dash s) ∉ coord_sys
              | inr true => True
              end) as Hcase.
    { intros key Hkey.
      pose proof (ctype_in_coord_sys_cases hdict key) as Hc.
      rewrite (Hct key Hkey) in Hc.
      destruct (ctype_in_coord_sys hdict key) as [[k| |]|[]]; try done.
      - destruct Hc as [-> Hn]. split; [|done]. by destruct Hkey as [-> | ->].
      - destruct Hc as (v & Hv & Hns). by exists key, v.
      - destruct Hc as (s & Hs & Hok). exists key, s. do 2 (split; [done|]).
        intros Hin. apply Hok in Hin. done. }
    pose proof (Hcase "CTYPE1" (or_introl eq_refl)) as H1.
    pose proof (Hcase "CTYPE2" (or_intror eq_refl)) as H2.
    destruct (ctype_in_coord_sys hdict "CTYPE1") as [e1|[]].
    + intros [= <-]. by destruct e1.
    + destruct (ctype_in_coord_sys hdict "CTYPE2") as [e2|[]].
      * intros [= <-]. by destruct e2.
      * done.
      * by intros [= <-].
    + by intros [= <-].
Qed.
